(** * gnubgparser: the SGF tree parser and its converter

    A shallow embedding of [parser.go], [converter.go], the rendering
    functions of [types.go] and the move decoders of [matparser.go], with
    the properties of the package's specification stated and proved over
    it.

    Go strings are byte sequences: they are modelled by [string], whose
    characters are the 256 bytes.  A rune and an [int] are modelled by [Z].
    Maps are [gmap]s, fixed-size arrays are lists indexed with stdpp's
    lookup and insert. *)

From Stdlib Require Import ZArith List String Ascii Bool Lia.
From Stdlib Require Import Floats.SpecFloat.
From stdpp Require Import gmap strings list.

Set Warnings "-register-all".

Local Open Scope string_scope.
Local Open Scope Z_scope.

(** ** The Go runtime and standard library functions the package calls *)

Module Go.

(** The value of a byte, and the byte of a value in 0..255. *)
Definition byte_val (c : ascii) : Z := Z.of_N (N_of_ascii c).
Definition byte_of (z : Z) : ascii := ascii_of_N (Z.to_N z).

(** [len(s)] *)
Definition len (s : string) : Z := Z.of_nat (String.length s).

(** [s[i]] for an index in range; a zero byte stands for the run-time panic
    of an index out of range, which no call site of the package reaches. *)
Definition index (s : string) (i : Z) : ascii :=
  match String.get (Z.to_nat i) s with
  | Some c => c
  | None => zero
  end.

(** [s[i:]] *)
Definition slice_from (s : string) (i : Z) : string :=
  String.substring (Z.to_nat i) (String.length s - Z.to_nat i) s.

(** [rune(x)] for an [int] x: truncation to 32 bits, signed. *)
Definition rune_of_int (x : Z) : Z :=
  let m := x mod 2 ^ 32 in
  if m <? 2 ^ 31 then m else m - 2 ^ 32.

(** Arithmetic on [int] wraps around at 64 bits. *)
Definition int_wrap (x : Z) : Z :=
  let m := x mod 2 ^ 64 in
  if m <? 2 ^ 63 then m else m - 2 ^ 64.

(** [utf8.EncodeRune]: the UTF-8 bytes of a rune; a rune that is out of
    range or a surrogate half is encoded as U+FFFD. *)
Definition rune_error : Z := 65533.

Definition encode_valid (r : Z) : string :=
  if r <=? 127 then
    String (byte_of r) ""
  else if r <=? 2047 then
    String (byte_of (Z.lor 192 (Z.shiftr r 6)))
      (String (byte_of (Z.lor 128 (Z.land r 63))) "")
  else if r <=? 65535 then
    String (byte_of (Z.lor 224 (Z.shiftr r 12)))
      (String (byte_of (Z.lor 128 (Z.land (Z.shiftr r 6) 63)))
         (String (byte_of (Z.lor 128 (Z.land r 63))) ""))
  else
    String (byte_of (Z.lor 240 (Z.shiftr r 18)))
      (String (byte_of (Z.lor 128 (Z.land (Z.shiftr r 12) 63)))
         (String (byte_of (Z.lor 128 (Z.land (Z.shiftr r 6) 63)))
            (String (byte_of (Z.lor 128 (Z.land r 63))) ""))).

(** [string(r)] for a rune r. *)
Definition string_of_rune (r : Z) : string :=
  if (r <? 0) || (1114111 <? r) || ((55296 <=? r) && (r <=? 57343))
  then encode_valid rune_error
  else encode_valid r.

(** [string(b)] for a byte b: the UTF-8 encoding of the code point b. *)
Definition string_of_byte (b : ascii) : string := string_of_rune (byte_val b).

(** [unicode.IsSpace] read on the UTF-8 bytes: the number of bytes of the
    white space character a string starts with, 0 when it starts with
    none.  The characters are TAB, LF, VT, FF, CR, SPACE, U+0085, U+00A0,
    U+1680, U+2000..U+200A, U+2028, U+2029, U+202F, U+205F and U+3000. *)
Definition ascii_space (b : Z) : bool :=
  (b =? 9) || (b =? 10) || (b =? 11) || (b =? 12) || (b =? 13) || (b =? 32).

Definition space_width (s : string) : nat :=
  match s with
  | "" => 0%nat
  | String c0 s1 =>
    let b0 := byte_val c0 in
    if ascii_space b0 then 1%nat
    else match s1 with
    | "" => 0%nat
    | String c1 s2 =>
      let b1 := byte_val c1 in
      if (b0 =? 194) && ((b1 =? 133) || (b1 =? 160)) then 2%nat
      else match s2 with
      | "" => 0%nat
      | String c2 _ =>
        let b2 := byte_val c2 in
        if (b0 =? 225) && (b1 =? 154) && (b2 =? 128) then 3%nat
        else if (b0 =? 226) && (b1 =? 128)
                && (((128 <=? b2) && (b2 <=? 138)) || (b2 =? 168)
                    || (b2 =? 169) || (b2 =? 175)) then 3%nat
        else if (b0 =? 226) && (b1 =? 129) && (b2 =? 159) then 3%nat
        else if (b0 =? 227) && (b1 =? 128) && (b2 =? 128) then 3%nat
        else 0%nat
      end
    end
  end.

(** A token that was being read is emitted when it is not empty. *)
Definition emit (tok : string) : list string :=
  match tok with
  | "" => []
  | _ => [tok]
  end.

(** [strings.Fields]: the maximal runs of bytes between white space
    characters.  [skip] counts the bytes still to pass of a white space
    character of several bytes, [tok] is the token read so far. *)
Fixpoint fields_go (s : string) (skip : nat) (tok : string) : list string :=
  match s with
  | "" => emit tok
  | String c s' =>
    match skip with
    | S k => fields_go s' k tok
    | O =>
      match space_width s with
      | O => fields_go s' 0 (tok ++ String c "")
      | S k => emit tok ++ fields_go s' k ""
      end
    end
  end.

Definition Fields (s : string) : list string := fields_go s 0 "".

(** Whether a string is a sequence of white space characters only. *)
Fixpoint all_space_go (s : string) (skip : nat) : bool :=
  match s with
  | "" => true
  | String _ s' =>
    match skip with
    | S k => all_space_go s' k
    | O =>
      match space_width s with
      | O => false
      | S k => all_space_go s' k
      end
    end
  end.

Definition all_space (s : string) : bool := all_space_go s 0.

(** [strings.TrimSpace]: the string without its leading and its trailing
    white space characters. *)
Fixpoint trim_left_go (s : string) (skip : nat) : string :=
  match s with
  | "" => ""
  | String _ s' =>
    match skip with
    | S k => trim_left_go s' k
    | O =>
      match space_width s with
      | O => s
      | S k => trim_left_go s' k
      end
    end
  end.

Fixpoint trim_right_space (s : string) : string :=
  match s with
  | "" => ""
  | String c s' => if all_space s then "" else String c (trim_right_space s')
  end.

Definition TrimSpace (s : string) : string :=
  trim_right_space (trim_left_go s 0).

(** [strconv.Atoi] on a 64-bit platform: an optional sign and at least one
    decimal digit.  The result is the value and whether an error is
    returned: a syntax error gives 0, a value out of the range of [int]
    gives the nearest bound and an error. *)
Definition is_digit (c : ascii) : bool :=
  (48 <=? byte_val c) && (byte_val c <=? 57).

Fixpoint digits_go (s : string) (acc : Z) : option Z :=
  match s with
  | "" => Some acc
  | String c s' =>
    if is_digit c then digits_go s' (acc * 10 + (byte_val c - 48)) else None
  end.

Definition digits (s : string) : option Z :=
  match s with
  | "" => None
  | _ => digits_go s 0
  end.

Definition max_int : Z := 2 ^ 63 - 1.
Definition min_int : Z := - 2 ^ 63.

Definition Atoi (s : string) : Z * bool :=
  match s with
  | "" => (0, true)
  | String c rest =>
    let neg := Ascii.eqb c "-" in
    let body := if neg || Ascii.eqb c "+" then rest else s in
    match digits body with
    | None => (0, true)
    | Some n =>
      if neg then (if n <=? 2 ^ 63 then (- n, false) else (min_int, true))
      else (if n <=? max_int then (n, false) else (max_int, true))
    end
  end.

(** [strings.HasPrefix], [strings.HasSuffix] and [strings.TrimSuffix] *)
Definition HasPrefix (s pre : string) : bool := String.prefix pre s.

Fixpoint HasSuffix (s suf : string) : bool :=
  if String.eqb s suf then true
  else match s with
       | "" => false
       | String _ s' => HasSuffix s' suf
       end.

Definition TrimSuffix (s suf : string) : string :=
  if HasSuffix s suf
  then String.substring 0 (String.length s - String.length suf) s
  else s.

(** [strings.Split] for a separator that is not empty: the pieces between
    the occurrences of the separator, found from the left without overlap.
    [skip] counts the bytes still to pass of the occurrence found last. *)
Fixpoint split_go (s sep : string) (skip : nat) (tok : string) : list string :=
  match s with
  | "" => [tok]
  | String c s' =>
    match skip with
    | S k => split_go s' sep k tok
    | O =>
      if HasPrefix s sep
      then tok :: split_go s' sep (String.length sep - 1) ""
      else split_go s' sep 0 (tok ++ String c "")
    end
  end.

Definition Split (s sep : string) : list string := split_go s sep 0 "".

(** [strings.SplitN(s, sep, 2)] for a separator of one byte: the string cut
    at the first occurrence of the separator, or the string alone. *)
Fixpoint cut_go (s : string) (sep : ascii) (tok : string) : list string :=
  match s with
  | "" => [tok]
  | String c s' =>
    if Ascii.eqb c sep then [tok; s'] else cut_go s' sep (tok ++ String c "")
  end.

Definition SplitN2 (s : string) (sep : ascii) : list string := cut_go s sep "".

(** [strings.TrimLeft] and [strings.Trim] for a cutset of ASCII bytes. *)
Fixpoint in_cutset (c : ascii) (cutset : string) : bool :=
  match cutset with
  | "" => false
  | String d rest => Ascii.eqb c d || in_cutset c rest
  end.

Fixpoint TrimLeft (s cutset : string) : string :=
  match s with
  | "" => ""
  | String c s' => if in_cutset c cutset then TrimLeft s' cutset else s
  end.

Fixpoint all_in_cutset (s cutset : string) : bool :=
  match s with
  | "" => true
  | String c s' => in_cutset c cutset && all_in_cutset s' cutset
  end.

Fixpoint TrimRight (s cutset : string) : string :=
  match s with
  | "" => ""
  | String c s' =>
    if all_in_cutset s cutset then "" else String c (TrimRight s' cutset)
  end.

Definition Trim (s cutset : string) : string :=
  TrimRight (TrimLeft s cutset) cutset.

(** [strings.ToLower]: a string of ASCII bytes has its capital letters
    replaced by the small ones; any other string is mapped through
    [unicode.ToLower], which belongs to Go's library and is a parameter
    here. *)
Class UnicodeCase : Type :=
  MapToLower : string -> string.

Definition lower_byte (c : ascii) : ascii :=
  if (65 <=? byte_val c) && (byte_val c <=? 90) then byte_of (byte_val c + 32)
  else c.

Fixpoint is_ascii (s : string) : bool :=
  match s with
  | "" => true
  | String c s' => (byte_val c <? 128) && is_ascii s'
  end.

Fixpoint lower_ascii (s : string) : string :=
  match s with
  | "" => ""
  | String c s' => String (lower_byte c) (lower_ascii s')
  end.

Definition ToLower `{UnicodeCase} (s : string) : string :=
  if is_ascii s then lower_ascii s else MapToLower s.

(** [strings.Contains] *)
Fixpoint Contains (s substr : string) : bool :=
  HasPrefix s substr
  || match s with
     | "" => false
     | String _ s' => Contains s' substr
     end.

End Go.

(** ** types.go: the match model *)

(** Go's [error] values as the package builds them: the end of the input,
    a failure of the underlying reader, a message made by [fmt.Errorf], and
    an error wrapped with [%w] behind a prefix. *)
Inductive error : Type :=
  | EOF
  | ReadError (msg : string)
  | Errorf (msg : string)
  | Wrap (prefix : string) (e : error).

Definition error_eqb_EOF (e : error) : bool :=
  match e with
  | EOF => true
  | _ => false
  end.

Inductive MoveType : Type :=
  | MoveTypeUnset
  | MoveTypeNormal
  | MoveTypeDouble
  | MoveTypeTake
  | MoveTypeDrop
  | MoveTypeResign
  | MoveTypeSetBoard
  | MoveTypeSetDice
  | MoveTypeSetCube
  | MoveTypeSetCubePos.

Definition MoveType_eqb (a b : MoveType) : bool :=
  match a, b with
  | MoveTypeUnset, MoveTypeUnset | MoveTypeNormal, MoveTypeNormal
  | MoveTypeDouble, MoveTypeDouble | MoveTypeTake, MoveTypeTake
  | MoveTypeDrop, MoveTypeDrop | MoveTypeResign, MoveTypeResign
  | MoveTypeSetBoard, MoveTypeSetBoard | MoveTypeSetDice, MoveTypeSetDice
  | MoveTypeSetCube, MoveTypeSetCube
  | MoveTypeSetCubePos, MoveTypeSetCubePos => true
  | _, _ => false
  end.

(** [float32] and [float64] values are IEEE 754 numbers, [spec_float] with
    precision 24 and 53. *)
Abbreviation float32 := spec_float (only parsing).
Abbreviation float64 := spec_float (only parsing).

Definition f_zero : spec_float := S754_zero false.
Definition f32_one : float32 := SFone 24 128.
Definition f32_sub (x y : float32) : float32 := SFsub 24 128 x y.
Definition f64_gt (x y : float64) : bool := SFltb y x.

(** [float32(v)] for a [float64] v: rounding to the nearest, ties to even. *)
Definition float32_of_float64 (v : float64) : float32 :=
  match v with
  | S754_finite s m e => binary_normalize 24 128 (cond_Zopp s (Zpos m)) e s
  | _ => v
  end.

(** A zeroed array of n ints, and the element at an index in range. *)
Definition zeros (n : nat) : list Z := repeat 0 n.
Definition at_ (a : list Z) (i : nat) : Z := default 0 (a !! i).

Record Position : Type := mkPosition {
  Board : list (list Z);
  PosCubeValue : Z;
  PosCubeOwner : Z;
  OnRoll : Z;
  PosDice : list Z;
  PosScore : list Z;
  PosMatchLength : Z;
  PosCrawford : bool
}.

Record MoveOption : Type := mkMoveOption {
  OptMove : list Z;
  OptMoveString : string;
  Equity : float64;
  Player1WinRate : float32;
  Player1GammonRate : float32;
  Player1BackgammonRate : float32;
  Player2WinRate : float32;
  Player2GammonRate : float32;
  Player2BackgammonRate : float32;
  AnalysisDepth : Z
}.

Record MoveAnalysis : Type := mkMoveAnalysis {
  Moves : list MoveOption;
  SelectedMove : Z
}.

Record CubeAnalysis : Type := mkCubeAnalysis {
  CaPlayer1WinRate : float32;
  CaPlayer1GammonRate : float32;
  CaPlayer1BackgammonRate : float32;
  CaPlayer2WinRate : float32;
  CaPlayer2GammonRate : float32;
  CaPlayer2BackgammonRate : float32;
  CubelessEquity : float64;
  CubefulNoDouble : float64;
  CubefulDoubleTake : float64;
  CubefulDoublePass : float64;
  TooGoodPoint : float64;
  BestAction : string;
  WrongPassTakePercent : float32;
  CaAnalysisDepth : Z
}.

Record LuckRating : Type := mkLuckRating {
  LuckRatingTag : string;
  LuckValue : float64
}.

Record SkillRating : Type := mkSkillRating {
  SkillRatingTag : string;
  SkillError : float64
}.

Record MoveRecord : Type := mkMoveRecord {
  Type_ : MoveType;
  Player : Z;
  Dice : list Z;
  Move : list Z;
  MoveString : string;
  CubeValue : Z;
  CubeOwner : Z;
  Position_ : option Position;
  Analysis : option MoveAnalysis;
  CubeAnalysis_ : option CubeAnalysis;
  Luck : option LuckRating;
  Skill : option SkillRating;
  Comment : string
}.

(** The zero value [MoveRecord{}]. *)
Definition MoveRecord_zero : MoveRecord :=
  {| Type_ := MoveTypeUnset; Player := 0; Dice := zeros 2; Move := zeros 8;
     MoveString := ""; CubeValue := 0; CubeOwner := 0; Position_ := None;
     Analysis := None; CubeAnalysis_ := None; Luck := None; Skill := None;
     Comment := "" |}.

Record Game : Type := mkGame {
  GameNumber : Z;
  Score : list Z;
  Variation : string;
  Crawford : bool;
  CrawfordGame : bool;
  Jacoby : bool;
  CubeEnabled : bool;
  AutoDoubles : Z;
  Winner : Z;
  Points : Z;
  Resigned : bool;
  GameMoves : list MoveRecord;
  GameComment : string
}.

Record MatchMetadata : Type := mkMatchMetadata {
  Player1 : string;
  Player2 : string;
  Rating1 : string;
  Rating2 : string;
  MatchLength : Z;
  Event : string;
  Round : string;
  Place : string;
  Date : string;
  Annotator : string;
  MetaComment : string;
  Application : string
}.

Record Match : Type := mkMatch {
  Metadata : MatchMetadata;
  Games : list Game
}.

(** [pointToString] *)
Definition pointToString (point : Z) : string :=
  if point =? 24 then "bar"
  else if point =? 25 then "off"
  else Go.string_of_rune (Go.rune_of_int (97 + point)).

(** [FormatMove]: the loop runs over i = 0, 2, 4, 6; [n] counts the
    iterations that are left. *)
Fixpoint FormatMove_loop (n i : nat) (move : list Z) (player : Z)
    (result : string) : string :=
  match n with
  | O => result
  | S n' =>
    if at_ move i =? -1 then result
    else
      let result := if (0 <? i)%nat then result ++ " " else result in
      let from := at_ move i in
      let to := at_ move (i + 1) in
      let from := if player =? 1 then Go.int_wrap (23 - from) else from in
      let to := if player =? 1 then Go.int_wrap (23 - to) else to in
      let fromStr := pointToString from in
      let toStr := pointToString to in
      FormatMove_loop n' (i + 2) move player
        (result ++ (fromStr ++ "/" ++ toStr))
  end.

Definition FormatMove (move : list Z) (player : Z) : string :=
  if at_ move 0 =? -1 then "no move"
  else FormatMove_loop 4 0 move player "".

(** ** Field assignments

    [set_F v r] is the record [r] after the assignment [r.F = v]. *)

Definition set_Type_ (v : _) (r : MoveRecord) : MoveRecord :=
  {| Type_ := v; Player := Player r; Dice := Dice r; Move := Move r;
     MoveString := MoveString r; CubeValue := CubeValue r;
     CubeOwner := CubeOwner r; Position_ := Position_ r;
     Analysis := Analysis r; CubeAnalysis_ := CubeAnalysis_ r;
     Luck := Luck r; Skill := Skill r; Comment := Comment r |}.

Definition set_Player (v : _) (r : MoveRecord) : MoveRecord :=
  {| Type_ := Type_ r; Player := v; Dice := Dice r; Move := Move r;
     MoveString := MoveString r; CubeValue := CubeValue r;
     CubeOwner := CubeOwner r; Position_ := Position_ r;
     Analysis := Analysis r; CubeAnalysis_ := CubeAnalysis_ r;
     Luck := Luck r; Skill := Skill r; Comment := Comment r |}.

Definition set_Dice (v : _) (r : MoveRecord) : MoveRecord :=
  {| Type_ := Type_ r; Player := Player r; Dice := v; Move := Move r;
     MoveString := MoveString r; CubeValue := CubeValue r;
     CubeOwner := CubeOwner r; Position_ := Position_ r;
     Analysis := Analysis r; CubeAnalysis_ := CubeAnalysis_ r;
     Luck := Luck r; Skill := Skill r; Comment := Comment r |}.

Definition set_Move (v : _) (r : MoveRecord) : MoveRecord :=
  {| Type_ := Type_ r; Player := Player r; Dice := Dice r; Move := v;
     MoveString := MoveString r; CubeValue := CubeValue r;
     CubeOwner := CubeOwner r; Position_ := Position_ r;
     Analysis := Analysis r; CubeAnalysis_ := CubeAnalysis_ r;
     Luck := Luck r; Skill := Skill r; Comment := Comment r |}.

Definition set_MoveString (v : _) (r : MoveRecord) : MoveRecord :=
  {| Type_ := Type_ r; Player := Player r; Dice := Dice r; Move := Move r;
     MoveString := v; CubeValue := CubeValue r; CubeOwner := CubeOwner r;
     Position_ := Position_ r; Analysis := Analysis r;
     CubeAnalysis_ := CubeAnalysis_ r; Luck := Luck r; Skill := Skill r;
     Comment := Comment r |}.

Definition set_CubeValue (v : _) (r : MoveRecord) : MoveRecord :=
  {| Type_ := Type_ r; Player := Player r; Dice := Dice r; Move := Move r;
     MoveString := MoveString r; CubeValue := v; CubeOwner := CubeOwner r;
     Position_ := Position_ r; Analysis := Analysis r;
     CubeAnalysis_ := CubeAnalysis_ r; Luck := Luck r; Skill := Skill r;
     Comment := Comment r |}.

Definition set_CubeOwner (v : _) (r : MoveRecord) : MoveRecord :=
  {| Type_ := Type_ r; Player := Player r; Dice := Dice r; Move := Move r;
     MoveString := MoveString r; CubeValue := CubeValue r; CubeOwner := v;
     Position_ := Position_ r; Analysis := Analysis r;
     CubeAnalysis_ := CubeAnalysis_ r; Luck := Luck r; Skill := Skill r;
     Comment := Comment r |}.

Definition set_Position_ (v : _) (r : MoveRecord) : MoveRecord :=
  {| Type_ := Type_ r; Player := Player r; Dice := Dice r; Move := Move r;
     MoveString := MoveString r; CubeValue := CubeValue r;
     CubeOwner := CubeOwner r; Position_ := v; Analysis := Analysis r;
     CubeAnalysis_ := CubeAnalysis_ r; Luck := Luck r; Skill := Skill r;
     Comment := Comment r |}.

Definition set_Analysis (v : _) (r : MoveRecord) : MoveRecord :=
  {| Type_ := Type_ r; Player := Player r; Dice := Dice r; Move := Move r;
     MoveString := MoveString r; CubeValue := CubeValue r;
     CubeOwner := CubeOwner r; Position_ := Position_ r; Analysis := v;
     CubeAnalysis_ := CubeAnalysis_ r; Luck := Luck r; Skill := Skill r;
     Comment := Comment r |}.

Definition set_CubeAnalysis_ (v : _) (r : MoveRecord) : MoveRecord :=
  {| Type_ := Type_ r; Player := Player r; Dice := Dice r; Move := Move r;
     MoveString := MoveString r; CubeValue := CubeValue r;
     CubeOwner := CubeOwner r; Position_ := Position_ r;
     Analysis := Analysis r; CubeAnalysis_ := v; Luck := Luck r;
     Skill := Skill r; Comment := Comment r |}.

Definition set_Luck (v : _) (r : MoveRecord) : MoveRecord :=
  {| Type_ := Type_ r; Player := Player r; Dice := Dice r; Move := Move r;
     MoveString := MoveString r; CubeValue := CubeValue r;
     CubeOwner := CubeOwner r; Position_ := Position_ r;
     Analysis := Analysis r; CubeAnalysis_ := CubeAnalysis_ r; Luck := v;
     Skill := Skill r; Comment := Comment r |}.

Definition set_Skill (v : _) (r : MoveRecord) : MoveRecord :=
  {| Type_ := Type_ r; Player := Player r; Dice := Dice r; Move := Move r;
     MoveString := MoveString r; CubeValue := CubeValue r;
     CubeOwner := CubeOwner r; Position_ := Position_ r;
     Analysis := Analysis r; CubeAnalysis_ := CubeAnalysis_ r;
     Luck := Luck r; Skill := v; Comment := Comment r |}.

Definition set_Comment (v : _) (r : MoveRecord) : MoveRecord :=
  {| Type_ := Type_ r; Player := Player r; Dice := Dice r; Move := Move r;
     MoveString := MoveString r; CubeValue := CubeValue r;
     CubeOwner := CubeOwner r; Position_ := Position_ r;
     Analysis := Analysis r; CubeAnalysis_ := CubeAnalysis_ r;
     Luck := Luck r; Skill := Skill r; Comment := v |}.

Definition set_GameNumber (v : _) (r : Game) : Game :=
  {| GameNumber := v; Score := Score r; Variation := Variation r;
     Crawford := Crawford r; CrawfordGame := CrawfordGame r;
     Jacoby := Jacoby r; CubeEnabled := CubeEnabled r;
     AutoDoubles := AutoDoubles r; Winner := Winner r; Points := Points r;
     Resigned := Resigned r; GameMoves := GameMoves r;
     GameComment := GameComment r |}.

Definition set_Score (v : _) (r : Game) : Game :=
  {| GameNumber := GameNumber r; Score := v; Variation := Variation r;
     Crawford := Crawford r; CrawfordGame := CrawfordGame r;
     Jacoby := Jacoby r; CubeEnabled := CubeEnabled r;
     AutoDoubles := AutoDoubles r; Winner := Winner r; Points := Points r;
     Resigned := Resigned r; GameMoves := GameMoves r;
     GameComment := GameComment r |}.

Definition set_Variation (v : _) (r : Game) : Game :=
  {| GameNumber := GameNumber r; Score := Score r; Variation := v;
     Crawford := Crawford r; CrawfordGame := CrawfordGame r;
     Jacoby := Jacoby r; CubeEnabled := CubeEnabled r;
     AutoDoubles := AutoDoubles r; Winner := Winner r; Points := Points r;
     Resigned := Resigned r; GameMoves := GameMoves r;
     GameComment := GameComment r |}.

Definition set_Crawford (v : _) (r : Game) : Game :=
  {| GameNumber := GameNumber r; Score := Score r; Variation := Variation r;
     Crawford := v; CrawfordGame := CrawfordGame r; Jacoby := Jacoby r;
     CubeEnabled := CubeEnabled r; AutoDoubles := AutoDoubles r;
     Winner := Winner r; Points := Points r; Resigned := Resigned r;
     GameMoves := GameMoves r; GameComment := GameComment r |}.

Definition set_CrawfordGame (v : _) (r : Game) : Game :=
  {| GameNumber := GameNumber r; Score := Score r; Variation := Variation r;
     Crawford := Crawford r; CrawfordGame := v; Jacoby := Jacoby r;
     CubeEnabled := CubeEnabled r; AutoDoubles := AutoDoubles r;
     Winner := Winner r; Points := Points r; Resigned := Resigned r;
     GameMoves := GameMoves r; GameComment := GameComment r |}.

Definition set_Jacoby (v : _) (r : Game) : Game :=
  {| GameNumber := GameNumber r; Score := Score r; Variation := Variation r;
     Crawford := Crawford r; CrawfordGame := CrawfordGame r; Jacoby := v;
     CubeEnabled := CubeEnabled r; AutoDoubles := AutoDoubles r;
     Winner := Winner r; Points := Points r; Resigned := Resigned r;
     GameMoves := GameMoves r; GameComment := GameComment r |}.

Definition set_CubeEnabled (v : _) (r : Game) : Game :=
  {| GameNumber := GameNumber r; Score := Score r; Variation := Variation r;
     Crawford := Crawford r; CrawfordGame := CrawfordGame r;
     Jacoby := Jacoby r; CubeEnabled := v; AutoDoubles := AutoDoubles r;
     Winner := Winner r; Points := Points r; Resigned := Resigned r;
     GameMoves := GameMoves r; GameComment := GameComment r |}.

Definition set_AutoDoubles (v : _) (r : Game) : Game :=
  {| GameNumber := GameNumber r; Score := Score r; Variation := Variation r;
     Crawford := Crawford r; CrawfordGame := CrawfordGame r;
     Jacoby := Jacoby r; CubeEnabled := CubeEnabled r; AutoDoubles := v;
     Winner := Winner r; Points := Points r; Resigned := Resigned r;
     GameMoves := GameMoves r; GameComment := GameComment r |}.

Definition set_Winner (v : _) (r : Game) : Game :=
  {| GameNumber := GameNumber r; Score := Score r; Variation := Variation r;
     Crawford := Crawford r; CrawfordGame := CrawfordGame r;
     Jacoby := Jacoby r; CubeEnabled := CubeEnabled r;
     AutoDoubles := AutoDoubles r; Winner := v; Points := Points r;
     Resigned := Resigned r; GameMoves := GameMoves r;
     GameComment := GameComment r |}.

Definition set_Points (v : _) (r : Game) : Game :=
  {| GameNumber := GameNumber r; Score := Score r; Variation := Variation r;
     Crawford := Crawford r; CrawfordGame := CrawfordGame r;
     Jacoby := Jacoby r; CubeEnabled := CubeEnabled r;
     AutoDoubles := AutoDoubles r; Winner := Winner r; Points := v;
     Resigned := Resigned r; GameMoves := GameMoves r;
     GameComment := GameComment r |}.

Definition set_Resigned (v : _) (r : Game) : Game :=
  {| GameNumber := GameNumber r; Score := Score r; Variation := Variation r;
     Crawford := Crawford r; CrawfordGame := CrawfordGame r;
     Jacoby := Jacoby r; CubeEnabled := CubeEnabled r;
     AutoDoubles := AutoDoubles r; Winner := Winner r; Points := Points r;
     Resigned := v; GameMoves := GameMoves r; GameComment := GameComment r |}.

Definition set_GameMoves (v : _) (r : Game) : Game :=
  {| GameNumber := GameNumber r; Score := Score r; Variation := Variation r;
     Crawford := Crawford r; CrawfordGame := CrawfordGame r;
     Jacoby := Jacoby r; CubeEnabled := CubeEnabled r;
     AutoDoubles := AutoDoubles r; Winner := Winner r; Points := Points r;
     Resigned := Resigned r; GameMoves := v; GameComment := GameComment r |}.

Definition set_Player1 (v : _) (r : MatchMetadata) : MatchMetadata :=
  {| Player1 := v; Player2 := Player2 r; Rating1 := Rating1 r;
     Rating2 := Rating2 r; MatchLength := MatchLength r; Event := Event r;
     Round := Round r; Place := Place r; Date := Date r;
     Annotator := Annotator r; MetaComment := MetaComment r;
     Application := Application r |}.

Definition set_Player2 (v : _) (r : MatchMetadata) : MatchMetadata :=
  {| Player1 := Player1 r; Player2 := v; Rating1 := Rating1 r;
     Rating2 := Rating2 r; MatchLength := MatchLength r; Event := Event r;
     Round := Round r; Place := Place r; Date := Date r;
     Annotator := Annotator r; MetaComment := MetaComment r;
     Application := Application r |}.

Definition set_Rating1 (v : _) (r : MatchMetadata) : MatchMetadata :=
  {| Player1 := Player1 r; Player2 := Player2 r; Rating1 := v;
     Rating2 := Rating2 r; MatchLength := MatchLength r; Event := Event r;
     Round := Round r; Place := Place r; Date := Date r;
     Annotator := Annotator r; MetaComment := MetaComment r;
     Application := Application r |}.

Definition set_Rating2 (v : _) (r : MatchMetadata) : MatchMetadata :=
  {| Player1 := Player1 r; Player2 := Player2 r; Rating1 := Rating1 r;
     Rating2 := v; MatchLength := MatchLength r; Event := Event r;
     Round := Round r; Place := Place r; Date := Date r;
     Annotator := Annotator r; MetaComment := MetaComment r;
     Application := Application r |}.

Definition set_MatchLength (v : _) (r : MatchMetadata) : MatchMetadata :=
  {| Player1 := Player1 r; Player2 := Player2 r; Rating1 := Rating1 r;
     Rating2 := Rating2 r; MatchLength := v; Event := Event r;
     Round := Round r; Place := Place r; Date := Date r;
     Annotator := Annotator r; MetaComment := MetaComment r;
     Application := Application r |}.

Definition set_Event (v : _) (r : MatchMetadata) : MatchMetadata :=
  {| Player1 := Player1 r; Player2 := Player2 r; Rating1 := Rating1 r;
     Rating2 := Rating2 r; MatchLength := MatchLength r; Event := v;
     Round := Round r; Place := Place r; Date := Date r;
     Annotator := Annotator r; MetaComment := MetaComment r;
     Application := Application r |}.

Definition set_Round (v : _) (r : MatchMetadata) : MatchMetadata :=
  {| Player1 := Player1 r; Player2 := Player2 r; Rating1 := Rating1 r;
     Rating2 := Rating2 r; MatchLength := MatchLength r; Event := Event r;
     Round := v; Place := Place r; Date := Date r; Annotator := Annotator r;
     MetaComment := MetaComment r; Application := Application r |}.

Definition set_Place (v : _) (r : MatchMetadata) : MatchMetadata :=
  {| Player1 := Player1 r; Player2 := Player2 r; Rating1 := Rating1 r;
     Rating2 := Rating2 r; MatchLength := MatchLength r; Event := Event r;
     Round := Round r; Place := v; Date := Date r; Annotator := Annotator r;
     MetaComment := MetaComment r; Application := Application r |}.

Definition set_Date (v : _) (r : MatchMetadata) : MatchMetadata :=
  {| Player1 := Player1 r; Player2 := Player2 r; Rating1 := Rating1 r;
     Rating2 := Rating2 r; MatchLength := MatchLength r; Event := Event r;
     Round := Round r; Place := Place r; Date := v; Annotator := Annotator r;
     MetaComment := MetaComment r; Application := Application r |}.

Definition set_Annotator (v : _) (r : MatchMetadata) : MatchMetadata :=
  {| Player1 := Player1 r; Player2 := Player2 r; Rating1 := Rating1 r;
     Rating2 := Rating2 r; MatchLength := MatchLength r; Event := Event r;
     Round := Round r; Place := Place r; Date := Date r; Annotator := v;
     MetaComment := MetaComment r; Application := Application r |}.

Definition set_MetaComment (v : _) (r : MatchMetadata) : MatchMetadata :=
  {| Player1 := Player1 r; Player2 := Player2 r; Rating1 := Rating1 r;
     Rating2 := Rating2 r; MatchLength := MatchLength r; Event := Event r;
     Round := Round r; Place := Place r; Date := Date r;
     Annotator := Annotator r; MetaComment := v;
     Application := Application r |}.

Definition set_Application (v : _) (r : MatchMetadata) : MatchMetadata :=
  {| Player1 := Player1 r; Player2 := Player2 r; Rating1 := Rating1 r;
     Rating2 := Rating2 r; MatchLength := MatchLength r; Event := Event r;
     Round := Round r; Place := Place r; Date := Date r;
     Annotator := Annotator r; MetaComment := MetaComment r;
     Application := v |}.

Definition set_Metadata (v : MatchMetadata) (m : Match) : Match :=
  {| Metadata := v; Games := Games m |}.

Definition set_Games (v : list Game) (m : Match) : Match :=
  {| Metadata := Metadata m; Games := v |}.

(** ** parser.go: the character stream and the tree parser *)

(** A rune literal. *)
Definition rune (c : ascii) : Z := Go.byte_val c.

Inductive SGFNode : Type :=
  mkNode { Properties : gmap string (list string); Children : list SGFNode }.

(** The parser reads the runes of its [bufio.Reader]; when they are
    exhausted [ReadRune] fails with [rerr], which is [EOF] at the end of a
    readable input. *)
Record SGFParser : Type := mkParser {
  reader : list Z;
  rerr : error;
  char : Z;
  hasChar : bool
}.

Definition NewSGFParser (input : list Z) (e : error) : SGFParser :=
  {| reader := input; rerr := e; char := 0; hasChar := false |}.

(** What a parsing function returns: a value and the parser it leaves, or
    an error, after which no caller looks at the parser again.  [Fuel] is
    not a result of the Go code: it marks a loop of the model that was
    cut before its end. *)
Inductive outcome (A : Type) : Type :=
  | Ok (a : A) (p : SGFParser)
  | Err (e : error)
  | Fuel.
Arguments Ok {A} a p.
Arguments Err {A} e.
Arguments Fuel {A}.

(** [readChar] *)
Definition readChar (p : SGFParser) : outcome Z :=
  if hasChar p then
    Ok (char p)
       {| reader := reader p; rerr := rerr p; char := char p;
          hasChar := false |}
  else
    match reader p with
    | [] => Err (rerr p)
    | ch :: rest =>
      Ok ch {| reader := rest; rerr := rerr p; char := ch;
               hasChar := hasChar p |}
    end.

(** [p.readChar()] as a statement: the results are dropped and the parser
    goes on from where the call left it, which is where it was when the
    call failed. *)
Definition discardChar (p : SGFParser) : SGFParser :=
  match readChar p with
  | Ok _ p1 => p1
  | _ => p
  end.

(** [peekChar] *)
Definition peekChar (p : SGFParser) : outcome Z :=
  if hasChar p then Ok (char p) p
  else
    match readChar p with
    | Ok ch p1 =>
      Ok ch {| reader := reader p1; rerr := rerr p1; char := ch;
               hasChar := true |}
    | Err e => Err e
    | Fuel => Fuel
    end.

(** [unreadChar] *)
Definition unreadChar (p : SGFParser) : SGFParser :=
  {| reader := reader p; rerr := rerr p; char := char p; hasChar := true |}.

Definition is_blank (ch : Z) : bool :=
  (ch =? rune " ") || (ch =? 9) || (ch =? 10) || (ch =? 13).

Definition is_letter (ch : Z) : bool :=
  ((rune "A" <=? ch) && (ch <=? rune "Z"))
  || ((rune "a" <=? ch) && (ch <=? rune "z")).

(** [skipWhitespace] *)
Fixpoint skipWhitespace (fuel : nat) (p : SGFParser) : outcome unit :=
  match fuel with
  | O => Fuel
  | S f =>
    match peekChar p with
    | Ok ch p1 =>
      if is_blank ch then skipWhitespace f (discardChar p1)
      else Ok tt p1
    | _ => Ok tt p
    end
  end.

(** [parsePropertyValue]: the loop after the opening bracket. *)
Fixpoint parsePropertyValue_loop (fuel : nat) (p : SGFParser)
    (value : string) (escaped : bool) : outcome string :=
  match fuel with
  | O => Fuel
  | S f =>
    match readChar p with
    | Ok ch p1 =>
      if escaped then
        parsePropertyValue_loop f p1 (value ++ Go.string_of_rune ch) false
      else if ch =? rune "\" then
        parsePropertyValue_loop f p1 value true
      else if ch =? rune "]" then Ok value p1
      else parsePropertyValue_loop f p1 (value ++ Go.string_of_rune ch) false
    | Err e => Err e
    | Fuel => Fuel
    end
  end.

Definition parsePropertyValue (fuel : nat) (p : SGFParser) : outcome string :=
  match readChar p with
  | Ok ch p1 =>
    if ch =? rune "[" then parsePropertyValue_loop fuel p1 "" false
    else Err (Errorf "expected '[' at start of property value")
  | _ => Err (Errorf "expected '[' at start of property value")
  end.

(** [parseProperty]: the loop that reads the name. *)
Fixpoint parseProperty_name (fuel : nat) (p : SGFParser) (name : string)
    : outcome string :=
  match fuel with
  | O => Fuel
  | S f =>
    match readChar p with
    | Ok ch p1 =>
      if is_letter ch then
        let name := name ++ Go.string_of_rune ch in
        if 2 <=? Go.len name then Ok name p1
        else parseProperty_name f p1 name
      else Ok name (unreadChar p1)
    | Err e => Err e
    | Fuel => Fuel
    end
  end.

(** [parseProperty]: the loop that reads the values. *)
Fixpoint parseProperty_values (fuel : nat) (p : SGFParser)
    (values : list string) : outcome (list string) :=
  match fuel with
  | O => Fuel
  | S f =>
    match skipWhitespace f p with
    | Ok _ p0 =>
      match peekChar p0 with
      | Ok ch p1 =>
        if ch =? rune "[" then
          match parsePropertyValue f p1 with
          | Ok value p2 => parseProperty_values f p2 (values ++ [value])
          | Err e => Err e
          | Fuel => Fuel
          end
        else Ok values p1
      | Err e => Err e
      | Fuel => Fuel
      end
    | Err e => Err e
    | Fuel => Fuel
    end
  end.

Definition parseProperty (fuel : nat) (p : SGFParser)
    : outcome (string * list string) :=
  match parseProperty_name fuel p "" with
  | Ok name p1 =>
    match parseProperty_values fuel p1 [] with
    | Ok values p2 => Ok (name, values) p2
    | Err e => Err e
    | Fuel => Fuel
    end
  | Err e => Err e
  | Fuel => Fuel
  end.

(** [parseNode]: the loop over the properties, which writes each one into
    the node's map under its name. *)
Fixpoint parseNode_loop (fuel : nat) (p : SGFParser)
    (props : gmap string (list string)) : outcome SGFNode :=
  match fuel with
  | O => Fuel
  | S f =>
    match skipWhitespace f p with
    | Ok _ p0 =>
      match peekChar p0 with
      | Ok ch p1 =>
        if is_letter ch then
          match parseProperty f p1 with
          | Ok (prop, values) p2 =>
            parseNode_loop f p2 (<[prop := values]> props)
          | Err e => Err (Wrap "error parsing property: " e)
          | Fuel => Fuel
          end
        else Ok (mkNode props []) p1
      | Err e => Err e
      | Fuel => Fuel
      end
    | Err e => Err e
    | Fuel => Fuel
    end
  end.

Definition parseNode (fuel : nat) (p : SGFParser) : outcome SGFNode :=
  match readChar p with
  | Ok ch p1 =>
    if ch =? rune ";" then parseNode_loop fuel p1 ∅
    else Err (Errorf "expected ';' at start of node")
  | _ => Err (Errorf "expected ';' at start of node")
  end.

(** [current.Children = append(current.Children, node)]: [current] is the
    node added last, the end of the chain of first children that starts
    at [root]. *)
Fixpoint addAtCurrent (root node : SGFNode) : SGFNode :=
  match root with
  | mkNode ps [] => mkNode ps [node]
  | mkNode ps (c :: cs) => mkNode ps (addAtCurrent c node :: cs)
  end.

(** [parseGame]: the loop that passes over a variation, counting
    parentheses. *)
Fixpoint skipVariation (fuel : nat) (p : SGFParser) (depth : Z)
    : outcome unit :=
  match fuel with
  | O => Fuel
  | S f =>
    if 0 <? depth then
      match readChar p with
      | Ok ch p1 =>
        if ch =? rune "(" then skipVariation f p1 (Go.int_wrap (depth + 1))
        else if ch =? rune ")" then skipVariation f p1 (Go.int_wrap (depth - 1))
        else skipVariation f p1 depth
      | Err e => Err e
      | Fuel => Fuel
      end
    else Ok tt p
  end.

(** [parseGame]: the loop over the nodes of the sequence. *)
Fixpoint parseGame_loop (fuel : nat) (p : SGFParser) (root : SGFNode)
    : outcome SGFNode :=
  match fuel with
  | O => Fuel
  | S f =>
    match skipWhitespace f p with
    | Ok _ p0 =>
      match peekChar p0 with
      | Ok ch p1 =>
        if ch =? rune ")" then Ok root (discardChar p1)
        else if ch =? rune ";" then
          match parseNode f p1 with
          | Ok node p2 =>
            if bool_decide (size (Properties root) = 0%nat)
            then parseGame_loop f p2 node
            else parseGame_loop f p2 (addAtCurrent root node)
          | Err e => Err e
          | Fuel => Fuel
          end
        else if ch =? rune "(" then
          match skipVariation f (discardChar p1) 1 with
          | Ok _ p3 => parseGame_loop f p3 root
          | Err e => Err e
          | Fuel => Fuel
          end
        else
          Err (Errorf ("unexpected character in game tree: "
                       ++ Go.string_of_rune ch))
      | Err e => Err e
      | Fuel => Fuel
      end
    | Err e => Err e
    | Fuel => Fuel
    end
  end.

Definition parseGame (fuel : nat) (p : SGFParser) : outcome SGFNode :=
  match readChar p with
  | Ok ch p1 =>
    if ch =? rune "(" then parseGame_loop fuel p1 (mkNode ∅ [])
    else Err (Errorf "expected '(' at start of game")
  | _ => Err (Errorf "expected '(' at start of game")
  end.

(** [parseGameTree] *)
Fixpoint parseGameTree_loop (fuel : nat) (p : SGFParser)
    (games : list SGFNode) : outcome (list SGFNode) :=
  match fuel with
  | O => Fuel
  | S f =>
    match skipWhitespace f p with
    | Ok _ p0 =>
      match peekChar p0 with
      | Ok ch p1 =>
        if ch =? rune "(" then
          match parseGame f p1 with
          | Ok game p2 => parseGameTree_loop f p2 (games ++ [game])
          | Err e => Err e
          | Fuel => Fuel
          end
        else Ok games p1
      | Err e => if error_eqb_EOF e then Ok games p0 else Err e
      | Fuel => Fuel
      end
    | Err e => Err e
    | Fuel => Fuel
    end
  end.

Definition parseGameTree (fuel : nat) (p : SGFParser)
    : outcome (list SGFNode) :=
  parseGameTree_loop fuel p [].

(** ** converter.go: from the nodes to the match model *)

(** [strconv.ParseFloat(s, bitSize)]: the value and whether an error is
    returned.  The function belongs to Go's library; the package is
    verified for any behaviour of it. *)
Class FloatParser : Type :=
  ParseFloat : string -> Z -> float64 * bool.

(** The helper functions at the end of parser.go. *)
Definition getProperty (node : SGFNode) (name : string) : string :=
  match Properties node !! name with
  | Some (v :: _) => v
  | _ => ""
  end.

Definition getPropertyInt (node : SGFNode) (name : string) : Z :=
  let str := getProperty node name in
  if String.eqb str "" then 0 else fst (Go.Atoi str).

Definition hasProperty (node : SGFNode) (name : string) : bool :=
  match Properties node !! name with
  | Some _ => true
  | None => false
  end.

(** [node.Properties[name]], nil when the name is absent. *)
Definition propertyValues (node : SGFNode) (name : string) : list string :=
  default [] (Properties node !! name).

(** [decodePoint] *)
Definition decodePoint (ch : ascii) : Z :=
  let b := Go.byte_val ch in
  if (rune "a" <=? b) && (b <=? rune "x") then b - rune "a"
  else if b =? rune "y" then 24
  else if b =? rune "z" then 25
  else -1.

(** The loop of [parseEncodedMove] and of [parseEncodedMoveOption]: the
    bytes [encoded[i]] and [encoded[i+1]] are the first two of what is left
    of the string. *)
Fixpoint parseEncodedMove_loop (encoded : string) (moveIdx : nat)
    (move : list Z) : nat * list Z :=
  match encoded with
  | String c0 (String c1 rest) =>
    if (moveIdx <? 8)%nat then
      let from := decodePoint c0 in
      let to := decodePoint c1 in
      parseEncodedMove_loop rest (moveIdx + 2)
        (<[(moveIdx + 1)%nat := to]> (<[moveIdx := from]> move))
    else (moveIdx, move)
  | _ => (moveIdx, move)
  end.

(** The array a move string is decoded into, written over [move]. *)
Definition encodeInto (encoded : string) (move : list Z) : list Z :=
  let '(moveIdx, move) := parseEncodedMove_loop encoded 0 move in
  if (moveIdx <? 8)%nat then <[moveIdx := -1]> move else move.

(** [parseEncodedMove] *)
Definition parseEncodedMove (encoded : string) (mr : MoveRecord)
    : MoveRecord :=
  let mr := set_Move (encodeInto encoded (Move mr)) mr in
  set_MoveString (FormatMove (Move mr) (Player mr)) mr.

(** [parseEncodedMoveOption] *)
Definition parseEncodedMoveOption (encoded : string) (opt : MoveOption)
    : MoveOption :=
  let move := encodeInto encoded (OptMove opt) in
  {| OptMove := move; OptMoveString := FormatMove move 0;
     Equity := Equity opt; Player1WinRate := Player1WinRate opt;
     Player1GammonRate := Player1GammonRate opt;
     Player1BackgammonRate := Player1BackgammonRate opt;
     Player2WinRate := Player2WinRate opt;
     Player2GammonRate := Player2GammonRate opt;
     Player2BackgammonRate := Player2BackgammonRate opt;
     AnalysisDepth := AnalysisDepth opt |}.

(** [parseMatchInfo] *)
Definition parseMatchInfo_part (part : string) (mg : Match * Game)
    : Match * Game :=
  let '(match_, game) := mg in
  let part := Go.Trim part "[]" in
  match Go.SplitN2 part ":" with
  | [key; value] =>
    let '(v, err) := Go.Atoi value in
    if String.eqb key "length" then
      if err then mg
      else (set_Metadata (set_MatchLength v (Metadata match_)) match_, game)
    else if String.eqb key "game" then
      if err then mg else (match_, set_GameNumber v game)
    else if String.eqb key "ws" then
      if err then mg else (match_, set_Score (<[0%nat := v]> (Score game)) game)
    else if String.eqb key "bs" then
      if err then mg else (match_, set_Score (<[1%nat := v]> (Score game)) game)
    else mg
  | _ => mg
  end.

Definition parseMatchInfo (mi : string) (match_ : Match) (game : Game)
    : Match * Game :=
  fold_left (fun mg part => parseMatchInfo_part part mg)
    (Go.Split mi "][") (match_, game).

(** [parseRules] *)
Definition parseRules_rule (rule : string) (game : Game) : Game :=
  let rule := Go.TrimSpace rule in
  if String.eqb rule "Crawford" then set_Crawford true game
  else if String.eqb rule "CrawfordGame" then set_CrawfordGame true game
  else if String.eqb rule "Jacoby" then set_Jacoby true game
  else if String.eqb rule "NoCube" then set_CubeEnabled false game
  else if String.eqb rule "Nackgammon" then set_Variation "Nackgammon" game
  else if String.eqb rule "Hypergammon1" then set_Variation "Hypergammon1" game
  else if String.eqb rule "Hypergammon2" then set_Variation "Hypergammon2" game
  else if String.eqb rule "Hypergammon3" then set_Variation "Hypergammon3" game
  else game.

Definition parseRules (ru : string) (game : Game) : Game :=
  let game :=
    fold_left (fun g rule => parseRules_rule rule g) (Go.Split ru ":") game in
  if String.eqb (Variation game) "" then set_Variation "Standard" game
  else game.

(** [parseResult] *)
Definition parseResult (re : string) (game : Game) : Game :=
  if Go.len re <? 3 then game
  else
    let game :=
      if Go.byte_val (Go.index re 0) =? rune "W" then set_Winner 0 game
      else if Go.byte_val (Go.index re 0) =? rune "B" then set_Winner 1 game
      else game in
    let pointsStr := Go.TrimLeft (Go.slice_from re 1) "+" in
    let pointsStr := Go.TrimSuffix pointsStr "R" in
    let '(points, err) := Go.Atoi pointsStr in
    let game := if err then game else set_Points points game in
    if Go.HasSuffix re "R" then set_Resigned true game else game.

(** [extractMetadata]: the match and the game after the assignments, and
    the error returned, which is always nil. *)
Definition setIfPresent (node : SGFNode) (name : string)
    (set : string -> MatchMetadata -> MatchMetadata) (match_ : Match)
    : Match :=
  let v := getProperty node name in
  if String.eqb v "" then match_
  else set_Metadata (set v (Metadata match_)) match_.

Definition extractMetadata (node : SGFNode) (match_ : Match) (game : Game)
    : Match * Game * option error :=
  let match_ := setIfPresent node "AP" set_Application match_ in
  let match_ := setIfPresent node "PW" set_Player1 match_ in
  let match_ := setIfPresent node "PB" set_Player2 match_ in
  let match_ := setIfPresent node "WR" set_Rating1 match_ in
  let match_ := setIfPresent node "BR" set_Rating2 match_ in
  let match_ := setIfPresent node "EV" set_Event match_ in
  let match_ := setIfPresent node "RO" set_Round match_ in
  let match_ := setIfPresent node "PC" set_Place match_ in
  let match_ := setIfPresent node "DT" set_Date match_ in
  let match_ := setIfPresent node "AN" set_Annotator match_ in
  let match_ := setIfPresent node "GC" set_MetaComment match_ in
  let '(match_, game) :=
    let mi := getProperty node "MI" in
    if String.eqb mi "" then (match_, game)
    else parseMatchInfo mi match_ game in
  let game :=
    let ru := getProperty node "RU" in
    if String.eqb ru "" then game else parseRules ru game in
  let game :=
    if String.eqb (getProperty node "CV") "" then game
    else set_AutoDoubles (getPropertyInt node "CV") game in
  let game :=
    let re := getProperty node "RE" in
    if String.eqb re "" then game else parseResult re game in
  (match_, game, None).

Section Converter.
Context `{FloatParser}.

(** [parseFloat32] *)
Definition parseFloat32 (s : string) : float32 * bool :=
  let '(v, err) := ParseFloat s 32 in
  (float32_of_float64 v, err).

(** [parts[i]] *)
Definition part (parts : list string) (i : nat) : string := nth i parts "".

(** The zero value [MoveOption{}]. *)
Definition MoveOption_zero : MoveOption :=
  {| OptMove := zeros 8; OptMoveString := ""; Equity := f_zero;
     Player1WinRate := f_zero; Player1GammonRate := f_zero;
     Player1BackgammonRate := f_zero; Player2WinRate := f_zero;
     Player2GammonRate := f_zero; Player2BackgammonRate := f_zero;
     AnalysisDepth := 0 |}.

(** [parseMoveAnalysis]: what the body of the loop makes of a row of at
    least 10 tokens. *)
Definition moveOptionOf (parts : list string) (plyDepth : Z) : MoveOption :=
  let opt := MoveOption_zero in
  let opt :=
    if 2 <=? Go.len (part parts 0)
    then parseEncodedMoveOption (part parts 0) opt
    else opt in
  let p1win := fst (parseFloat32 (part parts 4)) in
  {| OptMove := OptMove opt; OptMoveString := OptMoveString opt;
     Equity := fst (ParseFloat (part parts 9) 64);
     Player1WinRate := p1win;
     Player1GammonRate := fst (parseFloat32 (part parts 5));
     Player1BackgammonRate := fst (parseFloat32 (part parts 6));
     Player2WinRate := f32_sub f32_one p1win;
     Player2GammonRate := fst (parseFloat32 (part parts 7));
     Player2BackgammonRate := fst (parseFloat32 (part parts 8));
     AnalysisDepth := plyDepth |}.

(** [parseMoveAnalysis]: the loop over the rows. *)
Fixpoint parseMoveAnalysis_loop (analysisStrs : list string) (plyDepth : Z)
    (moves : list MoveOption) : list MoveOption :=
  match analysisStrs with
  | [] => moves
  | aStr :: rest =>
    let parts := Go.Fields aStr in
    if (length parts <? 10)%nat then parseMoveAnalysis_loop rest plyDepth moves
    else
      parseMoveAnalysis_loop rest plyDepth
        (moves ++ [moveOptionOf parts plyDepth])
  end.

(** [parseMoveAnalysis]: the ply depth read from the first value, and the
    rows that are left. *)
Definition plyAndRows (analysisStrs : list string) : Z * list string :=
  match analysisStrs with
  | [] => (0, [])
  | first :: rest =>
    let plyStr := Go.TrimSpace first in
    let '(depth, err) := Go.Atoi plyStr in
    if err then (0, analysisStrs) else (depth, rest)
  end.

(** [parseMoveAnalysis] *)
Definition parseMoveAnalysis (node : SGFNode) (mr : MoveRecord) : MoveRecord :=
  let analysisStrs := propertyValues node "A" in
  match analysisStrs with
  | [] => mr
  | _ =>
    let '(plyDepth, rows) := plyAndRows analysisStrs in
    set_Analysis
      (Some {| Moves := parseMoveAnalysis_loop rows plyDepth [];
               SelectedMove := 0 |}) mr
  end.

(** [parseCubeAnalysis] *)
Definition parseCubeAnalysis (node : SGFNode) (mr : MoveRecord) : MoveRecord :=
  match propertyValues node "DA" with
  | [] => mr
  | da0 :: _ =>
    let parts := Go.Fields da0 in
    if (length parts <? 13)%nat then mr
    else
      let noDouble :=
        if (16 <=? length parts)%nat then fst (ParseFloat (part parts 13) 64)
        else f_zero in
      let doubleTake := f_zero in
      let doublePass := f_zero in
      let best :=
        if MoveType_eqb (Type_ mr) MoveTypeDouble then
          if f64_gt doubleTake noDouble then "double" else "no_double"
        else if MoveType_eqb (Type_ mr) MoveTypeTake
                || MoveType_eqb (Type_ mr) MoveTypeDrop then
          if f64_gt doubleTake doublePass then "take" else "pass"
        else "" in
      set_CubeAnalysis_
        (Some {| CaPlayer1WinRate := fst (parseFloat32 (part parts 7));
                 CaPlayer1GammonRate := fst (parseFloat32 (part parts 10));
                 CaPlayer1BackgammonRate := fst (parseFloat32 (part parts 11));
                 CaPlayer2WinRate := fst (parseFloat32 (part parts 8));
                 CaPlayer2GammonRate := fst (parseFloat32 (part parts 9));
                 CaPlayer2BackgammonRate := f_zero;
                 CubelessEquity := fst (ParseFloat (part parts 12) 64);
                 CubefulNoDouble := noDouble;
                 CubefulDoubleTake := doubleTake;
                 CubefulDoublePass := doublePass;
                 TooGoodPoint := f_zero;
                 BestAction := best;
                 WrongPassTakePercent := f_zero;
                 CaAnalysisDepth := fst (Go.Atoi (part parts 2)) |}) mr
  end.

(** [parseLuck] *)
Definition parseLuck (node : SGFNode) (mr : MoveRecord) : MoveRecord :=
  let luStr := getProperty node "LU" in
  if String.eqb luStr "" then mr
  else
    let parts := Go.Fields luStr in
    if (length parts <? 2)%nat then mr
    else
      set_Luck (Some {| LuckRatingTag := part parts 0;
                        LuckValue := fst (ParseFloat (part parts 1) 64) |}) mr.

(** [parseSkill] *)
Definition parseSkill (node : SGFNode) (mr : MoveRecord) : MoveRecord :=
  let skStr := getProperty node "SK" in
  if String.eqb skStr "" then mr
  else
    let parts := Go.Fields skStr in
    if (length parts <? 2)%nat then mr
    else
      set_Skill (Some {| SkillRatingTag := part parts 0;
                         SkillError := fst (ParseFloat (part parts 1) 64) |}) mr.

(** The two dice read from the first two bytes of a value. *)
Definition diceOf (s : string) : list Z :=
  [fst (Go.Atoi (Go.string_of_byte (Go.index s 0)));
   fst (Go.Atoi (Go.string_of_byte (Go.index s 1)))].

(** [processMove]: the record appended to the moves of the game, and the
    error returned, which is always nil. *)
Definition moveRecordOf (node : SGFNode) (player : Z) (moveStr comment : string)
    : MoveRecord :=
  let mr := set_Comment comment (set_Player player MoveRecord_zero) in
  let mr :=
    if String.eqb moveStr "double" then set_Type_ MoveTypeDouble mr
    else if String.eqb moveStr "take" then set_Type_ MoveTypeTake mr
    else if String.eqb moveStr "drop" || String.eqb moveStr "pass"
    then set_Type_ MoveTypeDrop mr
    else
      let mr := set_Type_ MoveTypeNormal mr in
      if 2 <=? Go.len moveStr then
        let mr := set_Dice (diceOf moveStr) mr in
        if 2 <? Go.len moveStr
        then parseEncodedMove (Go.slice_from moveStr 2) mr
        else mr
      else mr in
  let mr := if hasProperty node "A" then parseMoveAnalysis node mr else mr in
  let mr := if hasProperty node "DA" then parseCubeAnalysis node mr else mr in
  let mr := if hasProperty node "LU" then parseLuck node mr else mr in
  let mr := if hasProperty node "SK" then parseSkill node mr else mr in
  mr.

Definition appendMove (mr : MoveRecord) (game : Game) : Game :=
  set_GameMoves (GameMoves game ++ [mr]) game.

Definition processMove (node : SGFNode) (game : Game) (player : Z)
    (moveStr comment : string) : Game * option error :=
  (appendMove (moveRecordOf node player moveStr comment) game, None).

(** [processSetBoard] *)
Definition addChecker (side : nat) (point : string) (board : list (list Z))
    : list (list Z) :=
  if Go.len point =? 1 then
    let pt := decodePoint (Go.index point 0) in
    if (0 <=? pt) && (pt <? 25) then
      let row := default [] (board !! side) in
      <[side := <[Z.to_nat pt := Go.int_wrap (at_ row (Z.to_nat pt) + 1)]> row]>
        board
    else board
  else board.

Definition processSetBoard (node : SGFNode) (game : Game) (comment : string)
    : Game * option error :=
  let board := [zeros 25; zeros 25] in
  let board :=
    fold_left (fun b point => addChecker 0 point b)
      (propertyValues node "AW") board in
  let board :=
    fold_left (fun b point => addChecker 1 point b)
      (propertyValues node "AB") board in
  let pl := getProperty node "PL" in
  let onRoll :=
    if String.eqb pl "" then 0
    else if String.eqb pl "W" || String.eqb pl "w" then 0 else 1 in
  let pos :=
    {| Board := board; PosCubeValue := 0; PosCubeOwner := 0;
       OnRoll := onRoll; PosDice := zeros 2; PosScore := zeros 2;
       PosMatchLength := 0; PosCrawford := false |} in
  let mr :=
    set_Comment comment
      (set_Position_ (Some pos) (set_Type_ MoveTypeSetBoard MoveRecord_zero)) in
  (appendMove mr game, None).

(** [processNode].  In the branch of the DI property the luck rating is
    read into the local record after the record was copied into the moves
    of the game, so the copy in the game carries none. *)
Definition processNode (node : SGFNode) (game : Game) : Game * option error :=
  let comment := getProperty node "C" in
  let bMove := getProperty node "B" in
  if negb (String.eqb bMove "") then processMove node game 1 bMove comment
  else
    let wMove := getProperty node "W" in
    if negb (String.eqb wMove "") then processMove node game 0 wMove comment
    else if hasProperty node "AE" || hasProperty node "AW"
            || hasProperty node "AB"
    then processSetBoard node game comment
    else
      let game :=
        if hasProperty node "CV" then
          appendMove
            (set_Comment comment
               (set_CubeValue (getPropertyInt node "CV")
                  (set_Type_ MoveTypeSetCube MoveRecord_zero))) game
        else game in
      let game :=
        let cp := getProperty node "CP" in
        if negb (String.eqb cp "") then
          let mr :=
            set_Comment comment (set_Type_ MoveTypeSetCubePos MoveRecord_zero) in
          let mr :=
            if String.eqb cp "c" then set_CubeOwner (-1) mr
            else if String.eqb cp "w" then set_CubeOwner 0 mr
            else if String.eqb cp "b" then set_CubeOwner 1 mr
            else mr in
          appendMove mr game
        else game in
      let game :=
        let di := getProperty node "DI" in
        if negb (String.eqb di "") && (2 <=? Go.len di) then
          let mr :=
            set_Comment comment (set_Type_ MoveTypeSetDice MoveRecord_zero) in
          let mr := set_Dice (diceOf di) mr in
          appendMove mr game
        else game in
      (game, None).

(** [convertGame]: the loop that walks the chain of first children. *)
Fixpoint convertGame_walk (current : SGFNode) (game : Game)
    : Game * option error :=
  match processNode current game with
  | (game, None) =>
    match Children current with
    | child :: _ => convertGame_walk child game
    | [] => (game, None)
    end
  | (game, Some err) => (game, Some err)
  end.

(** The value [&Game{Moves: make([]MoveRecord, 0), CubeEnabled: true}]. *)
Definition Game_new : Game :=
  {| GameNumber := 0; Score := zeros 2; Variation := ""; Crawford := false;
     CrawfordGame := false; Jacoby := false; CubeEnabled := true;
     AutoDoubles := 0; Winner := 0; Points := 0; Resigned := false;
     GameMoves := []; GameComment := "" |}.

(** [convertGame]: the match after the assignments to its metadata, and
    the game or the error returned. *)
Definition convertGame (root : SGFNode) (match_ : Match)
    : Match * (Game + error) :=
  match extractMetadata root match_ Game_new with
  | (match_, game, Some err) => (match_, inr err)
  | (match_, game, None) =>
    match convertGame_walk root game with
    | (_, Some err) => (match_, inr err)
    | (game, None) => (match_, inl game)
    end
  end.

(** The zero value of the metadata. *)
Definition MatchMetadata_zero : MatchMetadata :=
  {| Player1 := ""; Player2 := ""; Rating1 := ""; Rating2 := "";
     MatchLength := 0; Event := ""; Round := ""; Place := ""; Date := "";
     Annotator := ""; MetaComment := ""; Application := "" |}.

(** [convertNodesToMatch]: the loop over the game trees. *)
Fixpoint convertNodesToMatch_loop (nodes : list SGFNode) (match_ : Match)
    : option Match * option error :=
  match nodes with
  | [] => (Some match_, None)
  | gameNode :: rest =>
    match convertGame gameNode match_ with
    | (_, inr err) => (None, Some err)
    | (match_, inl game) =>
      convertNodesToMatch_loop rest
        (set_Games (Games match_ ++ [game]) match_)
    end
  end.

(** [convertNodesToMatch] *)
Definition convertNodesToMatch (nodes : list SGFNode)
    : option Match * option error :=
  match nodes with
  | [] => (None, Some (Errorf "no games found"))
  | _ =>
    convertNodesToMatch_loop nodes
      {| Metadata := MatchMetadata_zero; Games := [] |}
  end.

(** The iterations the loops of the parser are given: each one reads a
    rune of the input, so its length bounds their number. *)
Definition parseFuel (input : list Z) : nat := (length input + 8)%nat.

(** [ParseSGF]: the two results of the Go function; [None] if a loop of
    the model was cut. *)
Definition ParseSGF (input : list Z) (e : error)
    : option (option Match * option error) :=
  let parser := NewSGFParser input e in
  match parseGameTree (parseFuel input) parser with
  | Fuel => None
  | Err err => Some (None, Some (Wrap "failed to parse SGF: " err))
  | Ok nodes _ =>
    match nodes with
    | [] => Some (None, Some (Errorf "empty SGF file"))
    | _ =>
      match convertNodesToMatch nodes with
      | (_, Some err) =>
        Some (None, Some (Wrap "failed to convert SGF to match: " err))
      | (match_, None) => Some (match_, None)
      end
    end
  end.

End Converter.

(** The runes of a text of ASCII characters. *)
Definition runes_of (s : string) : list Z :=
  map Go.byte_val (list_ascii_of_string s).

(** A float parser for the examples: it knows the literals 0.5 and 0.25
    and returns a syntax error for the rest. *)
Definition f_half : float64 := S754_finite false 4503599627370496 (-53).
Definition f_quarter : float64 := S754_finite false 4503599627370496 (-54).

Definition sampleFloats : FloatParser :=
  fun s _ =>
    if String.eqb s "0.5" then (f_half, false)
    else if String.eqb s "0.25" then (f_quarter, false)
    else (f_zero, true).

(** The number of runes the parser can still deliver. *)
Definition pending (p : SGFParser) : nat :=
  (length (reader p) + (if hasChar p then 1 else 0))%nat.

(** ** The runs of the parser, told without the iteration counts *)

(** One turn of the loop of [parseNode] that reads a property. *)
Definition reads_property (p : SGFParser) (nv : string * list string)
    (p' : SGFParser) : Prop :=
  exists f p0 ch p1,
    skipWhitespace f p = Ok tt p0 /\ peekChar p0 = Ok ch p1
    /\ is_letter ch = true /\ parseProperty f p1 = Ok nv p'.

(** The last turn of the loop of [parseNode]: no letter follows. *)
Definition node_ends (p p' : SGFParser) : Prop :=
  exists f p0 ch,
    skipWhitespace f p = Ok tt p0 /\ peekChar p0 = Ok ch p'
    /\ is_letter ch = false.

(** The properties the loop of [parseNode] reads, in the order of the
    text. *)
Inductive reads_properties
    : SGFParser -> list (string * list string) -> SGFParser -> Prop :=
  | reads_no_more p p' :
      node_ends p p' -> reads_properties p [] p'
  | reads_one_more p nv p1 ps p' :
      reads_property p nv p1 -> reads_properties p1 ps p' ->
      reads_properties p (nv :: ps) p'.

(** One turn of the loop of [parseGameTree] that parses a game tree. *)
Definition game_parses (p : SGFParser) (game : SGFNode) (p' : SGFParser)
    : Prop :=
  exists f p0 p1,
    skipWhitespace f p = Ok tt p0 /\ peekChar p0 = Ok (rune "(") p1
    /\ parseGame f p1 = Ok game p'.

(** A turn of the loop of [parseGameTree] in which [parseGame] meets a
    syntax error. *)
Definition game_fails (p : SGFParser) (e : error) : Prop :=
  exists f p0 p1,
    skipWhitespace f p = Ok tt p0 /\ peekChar p0 = Ok (rune "(") p1
    /\ parseGame f p1 = Err e.

(** The game trees parsed one after the other. *)
Inductive games_parse : SGFParser -> list SGFNode -> SGFParser -> Prop :=
  | games_none p : games_parse p [] p
  | games_more p game p1 games p' :
      game_parses p game p1 -> games_parse p1 games p' ->
      games_parse p (game :: games) p'.

(** The last turn of the loop of [parseGameTree]: the input is at its end
    or something else than a game tree follows. *)
Definition tree_ends (p : SGFParser) : Prop :=
  exists f p0,
    skipWhitespace f p = Ok tt p0
    /\ (peekChar p0 = Err EOF
        \/ exists ch p1, peekChar p0 = Ok ch p1 /\ ch <> rune "(").

(** [node.Properties[prop] = values], for a property read. *)
Definition setProperty (props : gmap string (list string))
    (nv : string * list string) : gmap string (list string) :=
  <[nv.1 := nv.2]> props.

(** ** What the conversion makes of a node and of a tree *)

Section Records.
Context `{FloatParser}.

(** The records [processNode] appends for a node. *)
Definition nodeRecords (node : SGFNode) : list MoveRecord :=
  GameMoves (processNode node Game_new).1.

(** The records [convertGame] appends for a tree: those of the nodes on
    the chain of first children. *)
Fixpoint treeRecords (node : SGFNode) : list MoveRecord :=
  nodeRecords node
  ++ match Children node with
     | child :: _ => treeRecords child
     | [] => []
     end.

(** The game [convertGame] makes of a tree. *)
Definition gameOfTree (root : SGFNode) : Game :=
  let game :=
    (extractMetadata root {| Metadata := MatchMetadata_zero; Games := [] |}
       Game_new).1.2 in
  set_GameMoves (GameMoves game ++ treeRecords root) game.

End Records.

(** ** Auxiliary notions of the proofs *)

(** A byte of a decimal numeral: a sign or a digit. *)
Definition numeric (c : ascii) : bool :=
  Ascii.eqb c "-" || Ascii.eqb c "+" || Go.is_digit c.

(** A string of such bytes. *)
Fixpoint all_numeric (s : string) : bool :=
  match s with
  | EmptyString => true
  | String c s' => numeric c && all_numeric s'
  end.

(** What one turn of the loop of [parseMoveAnalysis] adds to the moves. *)
Definition rowOption `{FloatParser} (plyDepth : Z) (aStr : string)
    : list MoveOption :=
  let parts := Go.Fields aStr in
  if (length parts <? 10)%nat then [] else [moveOptionOf parts plyDepth].


(** A node for the examples: a move of side 1 with its analysis, the ply
    depth first and then two rows, of which the second is short; and the
    analysis of a cube decision. *)
Definition sampleRow : string := "lpab E ver 3 0.5 0.25 0.25 0.25 0.25 0.5".

Definition sampleCubeRow : string :=
  "E ver 3 2C 1 0.000000 1 0.5 0.5 0.25 0.25 0.25 0.5 0.25 0.5 0.5".

Definition sampleNode : SGFNode :=
  mkNode (<["B" := ["52lpab"]]>
            (<["A" := ["3"; sampleRow; "lpab E ver 3"]]>
               (<["DA" := [sampleCubeRow; "E ver"]]> ∅))) [].


(** The dice of a record are decimal digits. *)
Definition diceAreDigits (mr : MoveRecord) : Prop :=
  Forall (fun d => 0 <= d <= 9) (Dice mr).


(** ** The round trip of a move through its rendering *)

(** The point codes of a rendering: its bytes without the separators "/"
    and " " that [FormatMove] writes between them. *)
Fixpoint renderedCodes (s : string) : string :=
  match s with
  | "" => ""
  | String c s' =>
    if Ascii.eqb c "/" || Ascii.eqb c " " then renderedCodes s'
    else String c (renderedCodes s')
  end.

(** Re-encoding: the codes of a rendering decoded as [parseEncodedMove]
    decodes a move string, into the zeroed array of a new record. *)
Definition reencode (rendered : string) : list Z :=
  encodeInto (renderedCodes rendered) (zeros 8).

(** An array of 8 slots whose pairs lie in 0..25 and which is terminated
    by -1: there are k < 4 pairs of points and slot 2k holds -1. *)
Definition terminatedMove (move : list Z) : Prop :=
  length move = 8%nat
  /\ exists k, (k < 4)%nat
       /\ (forall i, (i < 2 * k)%nat -> 0 <= at_ move i <= 25)
       /\ at_ move (2 * k) = -1.

(** The array [parseEncodedMove] builds for a list of points: the points,
    then -1 if there is room for it, then zeros. *)
Definition builtMove (points : list Z) : list Z :=
  if (length points <? 8)%nat
  then points ++ -1 :: zeros (7 - length points)
  else points.

(** The claim about dice as the specification states it. *)
Definition diceInRange (mr : MoveRecord) : Prop :=
  Forall (fun d => 1 <= d <= 6) (Dice mr).


(** ** matparser.go: the decoding of a move in MAT notation *)

Section MatMoves.
Context `{Go.UnicodeCase}.

(** [parseMatPoint] *)
Definition parseMatPoint (s : string) : Z :=
  let s := Go.TrimSpace s in
  let s := Go.TrimSuffix s "*" in
  let lower := Go.ToLower s in
  if String.eqb lower "bar" then 24
  else if String.eqb lower "off" then -1
  else
    let '(point, err) := Go.Atoi s in
    if err then -2
    else if (1 <=? point) && (point <=? 24) then point - 1
    else -2.

(** [parseMatMove]: the loop over the parts of the move. *)
Fixpoint parseMatMove_loop (parts : list string) (idx : nat) (move : list Z)
    : list Z :=
  match parts with
  | [] => move
  | part :: rest =>
    if (8 <=? idx)%nat then move
    else
      match Go.Split part "/" with
      | [m0; m1] =>
        let from := parseMatPoint m0 in
        let to := parseMatPoint m1 in
        if (0 <=? from) && (-1 <=? to) then
          parseMatMove_loop rest (idx + 2)
            (<[(idx + 1)%nat := to]> (<[idx := from]> move))
        else parseMatMove_loop rest idx move
      | _ => parseMatMove_loop rest idx move
      end
  end.

(** [parseMatMove] *)
Definition parseMatMove (moveStr : string) : list Z :=
  let move := repeat (-1) 8 in
  if String.eqb moveStr ""
     || Go.Contains (Go.ToLower moveStr) "can't move"
  then move
  else parseMatMove_loop (Go.Fields moveStr) 0 move.

End MatMoves.

(** A case mapping for the examples: it leaves the strings that are not
    ASCII as they are. *)
Definition sampleCase : Go.UnicodeCase := fun s => s.

(** ** Notions of the further properties *)

(** A text with a backslash put before each of its backslashes and closing
    brackets: how a value is written between brackets. *)
Definition escapeRunes (text : list Z) : list Z :=
  flat_map (fun r => if (r =? rune "\") || (r =? rune "]")
                     then [rune "\"; r] else [r]) text.

(** The string [strings.Builder] holds after [WriteRune] of each rune. *)
Definition textOf (text : list Z) : string :=
  fold_right (fun r s => Go.string_of_rune r ++ s) "" text.

(** A string of ASCII letters, and a property name: one or two of them. *)
Fixpoint allLetters (s : string) : bool :=
  match s with
  | "" => true
  | String c s' => is_letter (Go.byte_val c) && allLetters s'
  end.

Definition propertyName (s : string) : Prop :=
  (String.length s = 1%nat \/ String.length s = 2%nat) /\ allLetters s = true.

(** A node with at most one child, whose child is such a node again. *)
Fixpoint linear (node : SGFNode) : Prop :=
  match Children node with
  | [] => True
  | [child] => linear child
  | _ => False
  end.

(** The slots of a move array: 8 of them, each -1 or a point from 0 to
    25. *)
Definition moveSlots (move : list Z) : Prop :=
  length move = 8%nat /\ Forall (fun x => -1 <= x <= 25) move.

(** A record whose move and whose analysed moves are such arrays. *)
Definition recordSlots (mr : MoveRecord) : Prop :=
  moveSlots (Move mr)
  /\ forall ma, Analysis mr = Some ma ->
       Forall (fun opt => moveSlots (OptMove opt)) (Moves ma).

(** The properties of a root node that [extractMetadata] copies into the
    metadata of the match, each with the field it is copied to. *)
Definition metadataProperties : list (string * (MatchMetadata -> string)) :=
  [("AP", Application); ("PW", Player1); ("PB", Player2); ("WR", Rating1);
   ("BR", Rating2); ("EV", Event); ("RO", Round); ("PC", Place);
   ("DT", Date); ("AN", Annotator); ("GC", MetaComment)].

(** The value of a property in the last of the roots that gives one, from
    [start] on. *)
Definition lastGiven (name : string) (roots : list SGFNode) (start : string)
    : string :=
  fold_left (fun acc root =>
               if String.eqb (getProperty root name) "" then acc
               else getProperty root name) roots start.

(** The names [parseRules] gives to the variation of a game. *)
Definition variationNames : list string :=
  ["Standard"; "Nackgammon"; "Hypergammon1"; "Hypergammon2"; "Hypergammon3"].

(** The types of the records [processMove] makes. *)
Definition moveTypes : list MoveType :=
  [MoveTypeNormal; MoveTypeDouble; MoveTypeTake; MoveTypeDrop].

(** A record without analysis, cube analysis, luck and skill. *)
Definition bare (mr : MoveRecord) : Prop :=
  Analysis mr = None /\ CubeAnalysis_ mr = None
  /\ Luck mr = None /\ Skill mr = None.



(** An option of a move analysis as [parseMoveAnalysis] leaves it: with
    the given depth, and with a move string that is the rendering of its
    move for side 0, or with no move string and the zero array when the
    first token of the row has less than two bytes. *)
Definition optionOfDepth (depth : Z) (opt : MoveOption) : Prop :=
  AnalysisDepth opt = depth
  /\ (OptMoveString opt = FormatMove (OptMove opt) 0
      \/ (OptMoveString opt = "" /\ OptMove opt = zeros 8)).

(** The point a value of AW or AB puts a checker on: the value is one
    byte, a letter from a to y. *)
Definition pointOf (point : string) : option nat :=
  if Go.len point =? 1 then
    let pt := decodePoint (Go.index point 0) in
    if (0 <=? pt) && (pt <? 25) then Some (Z.to_nat pt) else None
  else None.

(** The number of the values that put a checker on a point. *)
Fixpoint checkersOn (values : list string) (pt : nat) : Z :=
  match values with
  | [] => 0
  | v :: rest =>
    (if decide (pointOf v = Some pt) then 1 else 0) + checkersOn rest pt
  end.

(** What [addChecker] does to the row of its side. *)
Definition addToRow (row : list Z) (point : string) : list Z :=
  match pointOf point with
  | Some n => <[n := Go.int_wrap (at_ row n + 1)]> row
  | None => row
  end.

(** ** The text of a tree, for the round trip through the parser *)

(** The runes the parser delivers next: the rune that was put back, if
    there is one, and those of its reader. *)
Definition ahead (p : SGFParser) : list Z :=
  if hasChar p then char p :: reader p else reader p.

(** A value, a property, a node and a game tree written out: the value
    between brackets with its backslashes and closing brackets escaped, the
    property as its name and its values, the node as a semicolon and its
    properties, the game tree as its nodes between parentheses. *)
Definition printValue (text : list Z) : list Z :=
  rune "[" :: escapeRunes text ++ [rune "]"].

Definition printProperty (nv : string * list (list Z)) : list Z :=
  runes_of nv.1 ++ flat_map printValue nv.2.

Definition printNode (props : list (string * list (list Z))) : list Z :=
  rune ";" :: flat_map printProperty props.

Definition printGame (nodes : list (list (string * list (list Z))))
    : list Z :=
  rune "(" :: flat_map printNode nodes ++ [rune ")"].

(** A property that can be written out: its name is one or two letters,
    and a name of one letter is followed by a value, so that the name of
    the next property is not taken for its second letter. *)
Definition wellNamed (nv : string * list (list Z)) : Prop :=
  propertyName nv.1 /\ (String.length nv.1 = 1%nat -> nv.2 <> []).

(** What is read of a property and of a node that were written out. *)
Definition readProperty (nv : string * list (list Z)) : string * list string :=
  (nv.1, map textOf nv.2).

Definition readNode (props : list (string * list (list Z))) : SGFNode :=
  mkNode (fold_left setProperty (map readProperty props) ∅) [].

(** The step of the loop of [parseGame] that takes a node into the tree. *)
Definition attach (root node : SGFNode) : SGFNode :=
  if bool_decide (size (Properties root) = 0%nat) then node
  else addAtCurrent root node.

(** What is read of a game tree that was written out. *)
Definition readGame (nodes : list (list (string * list (list Z)))) : SGFNode :=
  fold_left attach (map readNode nodes) (mkNode ∅ []).

(** The chain of the nodes with the given properties. *)
Fixpoint chainOf (nodes : list (gmap string (list string))) : SGFNode :=
  match nodes with
  | [] => mkNode ∅ []
  | props :: rest =>
    mkNode props match rest with
                 | [] => []
                 | _ => [chainOf rest]
                 end
  end.

(** The tree of a game that is written out: the chain of its nodes, each
    with the properties that are read of it. *)
Definition writtenTree (nodes : list (list (string * list (list Z))))
    : SGFNode :=
  chainOf (map (fun props => Properties (readNode props)) nodes).


(** ** The dice of a record, as they stand in the value they are read from *)

(** The decimal digit at a place of a value, and 0 when the byte there is
    no digit. *)
Definition digitAt (s : string) (i : Z) : Z :=
  if Go.is_digit (Go.index s i) then Go.byte_val (Go.index s i) - 48 else 0.

(** The value the move of a node is read from: that of B, and that of W
    when B has none. *)
Definition moveValue (node : SGFNode) : string :=
  if String.eqb (getProperty node "B") "" then getProperty node "W"
  else getProperty node "B".

(** The dice of a record that was made from a node.  A checker move has
    the digits at the first two places of its value, when the value has
    two bytes at least; a record that sets the dice has those of the value
    of DI; every other record has no dice, both are 0. *)
Definition diceRead (node : SGFNode) (mr : MoveRecord) : Prop :=
  match Type_ mr with
  | MoveTypeNormal =>
    Dice mr = if 2 <=? Go.len (moveValue node)
              then [digitAt (moveValue node) 0; digitAt (moveValue node) 1]
              else [0; 0]
  | MoveTypeSetDice =>
    Dice mr = [digitAt (getProperty node "DI") 0;
               digitAt (getProperty node "DI") 1]
  | _ => Dice mr = [0; 0]
  end.

(** The nodes [convertGame] walks over: the chain of first children. *)
Fixpoint chainNodes (node : SGFNode) : list SGFNode :=
  node :: match Children node with
          | child :: _ => chainNodes child
          | [] => []
          end.

(** ** The syntax errors inside a game tree *)





(** * Properties *)

Local Open Scope list_scope.

(** ** The character stream *)

Lemma readChar_not_Fuel p : readChar p <> Fuel.
Proof. unfold readChar. destruct (hasChar p), (reader p); discriminate. Qed.

Lemma peekChar_not_Fuel p : peekChar p <> Fuel.
Proof.
  unfold peekChar, readChar. destruct (hasChar p), (reader p); discriminate.
Qed.

Lemma readChar_pending p ch p1 :
  readChar p = Ok ch p1 ->
  pending p = S (pending p1) /\ hasChar p1 = false /\ char p1 = ch
  /\ rerr p1 = rerr p.
Proof.
  unfold readChar, pending.
  destruct (hasChar p) eqn:Hh.
  - intros [= <- <-]. simpl. repeat split; lia.
  - destruct (reader p) as [|c rest]; [discriminate|].
    intros [= <- <-]. simpl. repeat split; lia.
Qed.

Lemma peekChar_pending p ch p1 :
  peekChar p = Ok ch p1 ->
  pending p1 = pending p /\ hasChar p1 = true /\ char p1 = ch
  /\ rerr p1 = rerr p.
Proof.
  unfold peekChar, readChar, pending.
  destruct (hasChar p) eqn:Hh.
  - intros [= <- <-]. rewrite Hh. repeat split; lia.
  - destruct (reader p) as [|c rest]; [discriminate|].
    intros [= <- <-]. simpl. repeat split; lia.
Qed.

Lemma peekChar_Err p e :
  peekChar p = Err e -> e = rerr p /\ pending p = 0%nat.
Proof.
  unfold peekChar, readChar, pending.
  destruct (hasChar p); [discriminate|].
  destruct (reader p); [|discriminate].
  intros [= <-]. split; reflexivity.
Qed.

Lemma discardChar_peeked p :
  hasChar p = true -> pending p = S (pending (discardChar p)).
Proof.
  unfold discardChar, readChar, pending. intros ->. simpl. lia.
Qed.

Lemma unreadChar_pending p :
  hasChar p = false -> pending (unreadChar p) = S (pending p).
Proof. unfold unreadChar, pending. intros ->. simpl. lia. Qed.

(** ** The loops of the parser end

    A loop that was given more iterations than it needs returns what the Go
    loop returns ([_mono]), and the runes that are left bound the
    iterations it needs ([_total]). *)

Lemma skipWhitespace_mono f : forall f' p r,
  (f <= f')%nat -> skipWhitespace f p = r -> r <> Fuel ->
  skipWhitespace f' p = r.
Proof.
  induction f as [|f IH]; intros f' p r Hle Hr Hn; simpl in Hr;
    [congruence|].
  destruct f' as [|f']; [lia|]. simpl.
  destruct (peekChar p) as [ch p1| |]; try assumption.
  destruct (is_blank ch); [|assumption].
  apply IH; [lia|assumption|assumption].
Qed.

Lemma skipWhitespace_Ok f : forall p r,
  skipWhitespace f p = r -> r <> Fuel ->
  exists p1, r = Ok tt p1 /\ (pending p1 <= pending p)%nat
             /\ rerr p1 = rerr p.
Proof.
  induction f as [|f IH]; intros p r Hr Hn; simpl in Hr; [congruence|].
  destruct (peekChar p) as [ch p1| |] eqn:Hp.
  - destruct (peekChar_pending _ _ _ Hp) as (Hm & Hh & _ & He).
    destruct (is_blank ch).
    + destruct (IH _ _ Hr Hn) as (p2 & -> & Hle & He2).
      exists p2. split; [reflexivity|].
      pose proof (discardChar_peeked _ Hh).
      split; [lia|]. rewrite He2, <- He.
      unfold discardChar, readChar. rewrite Hh. reflexivity.
    + exists p1. subst r. split; [reflexivity|]. split; [lia|assumption].
  - exists p. subst r. split; [reflexivity|]. split; [lia|reflexivity].
  - exists p. subst r. split; [reflexivity|]. split; [lia|reflexivity].
Qed.

Lemma skipWhitespace_total f : forall p,
  (pending p < f)%nat -> skipWhitespace f p <> Fuel.
Proof.
  induction f as [|f IH]; intros p Hlt; [lia|]. simpl.
  destruct (peekChar p) as [ch p1| |] eqn:Hp; try discriminate.
  destruct (peekChar_pending _ _ _ Hp) as (Hm & Hh & _).
  destruct (is_blank ch); [|discriminate].
  apply IH. pose proof (discardChar_peeked _ Hh). lia.
Qed.

Lemma parsePropertyValue_loop_mono f : forall f' p value escaped r,
  (f <= f')%nat -> parsePropertyValue_loop f p value escaped = r ->
  r <> Fuel -> parsePropertyValue_loop f' p value escaped = r.
Proof.
  induction f as [|f IH]; intros f' p value escaped r Hle Hr Hn;
    simpl in Hr; [congruence|].
  destruct f' as [|f']; [lia|]. simpl.
  destruct (readChar p) as [ch p1| |]; try assumption.
  destruct escaped; [apply IH; (lia || assumption)|].
  destruct (ch =? rune "\"); [apply IH; (lia || assumption)|].
  destruct (ch =? rune "]"); [assumption|].
  apply IH; (lia || assumption).
Qed.

Lemma parsePropertyValue_loop_Ok f : forall p value escaped v p1,
  parsePropertyValue_loop f p value escaped = Ok v p1 ->
  (pending p1 < pending p)%nat.
Proof.
  induction f as [|f IH]; intros p value escaped v p1 Hr; simpl in Hr;
    [discriminate|].
  destruct (readChar p) as [ch p2| |] eqn:Hc; try discriminate.
  destruct (readChar_pending _ _ _ Hc) as (Hm & _).
  destruct escaped; [apply IH in Hr; lia|].
  destruct (ch =? rune "\"); [apply IH in Hr; lia|].
  destruct (ch =? rune "]"); [injection Hr as _ <-; lia|].
  apply IH in Hr; lia.
Qed.

Lemma parsePropertyValue_loop_total f : forall p value escaped,
  (pending p < f)%nat -> parsePropertyValue_loop f p value escaped <> Fuel.
Proof.
  induction f as [|f IH]; intros p value escaped Hlt; [lia|]. simpl.
  destruct (readChar p) as [ch p2| |] eqn:Hc; try discriminate.
  - destruct (readChar_pending _ _ _ Hc) as (Hm & _).
    destruct escaped; [apply IH; lia|].
    destruct (ch =? rune "\"); [apply IH; lia|].
    destruct (ch =? rune "]"); [discriminate|].
    apply IH; lia.
  - exfalso. exact (readChar_not_Fuel _ Hc).
Qed.

(** What a callee returned with fewer iterations is what it returns. *)
Ltac callee_mono lem E :=
  erewrite lem; [| | exact E | discriminate]; [|lia]; cbv beta iota.

Lemma parsePropertyValue_mono f f' p r :
  (f <= f')%nat -> parsePropertyValue f p = r -> r <> Fuel ->
  parsePropertyValue f' p = r.
Proof.
  unfold parsePropertyValue. intros Hle Hr Hn.
  destruct (readChar p) as [ch p1| |]; try assumption.
  destruct (ch =? rune "["); [|assumption].
  eapply parsePropertyValue_loop_mono; eassumption.
Qed.

Lemma parsePropertyValue_Ok f p v p1 :
  parsePropertyValue f p = Ok v p1 -> (pending p1 < pending p)%nat.
Proof.
  unfold parsePropertyValue.
  destruct (readChar p) as [ch p2| |] eqn:Hc; try discriminate.
  destruct (readChar_pending _ _ _ Hc) as (Hm & _).
  destruct (ch =? rune "["); [|discriminate].
  intros Hr. apply parsePropertyValue_loop_Ok in Hr. lia.
Qed.

Lemma parsePropertyValue_total f p :
  (pending p < f)%nat -> parsePropertyValue f p <> Fuel.
Proof.
  unfold parsePropertyValue. intros Hlt.
  destruct (readChar p) as [ch p2| |] eqn:Hc; try discriminate.
  destruct (readChar_pending _ _ _ Hc) as (Hm & _).
  destruct (ch =? rune "["); [|discriminate].
  apply parsePropertyValue_loop_total. lia.
Qed.

Lemma parseProperty_name_mono f : forall f' p name r,
  (f <= f')%nat -> parseProperty_name f p name = r -> r <> Fuel ->
  parseProperty_name f' p name = r.
Proof.
  induction f as [|f IH]; intros f' p name r Hle Hr Hn; simpl in Hr;
    [congruence|].
  destruct f' as [|f']; [lia|]. simpl.
  destruct (readChar p) as [ch p1| |]; try assumption.
  destruct (is_letter ch); [|assumption].
  destruct (2 <=? Go.len (name ++ Go.string_of_rune ch)); [assumption|].
  apply IH; (lia || assumption).
Qed.

(** Reading a name never adds to the runes that are left, and takes one
    away when the parser holds a letter it peeked at. *)
Lemma parseProperty_name_Ok f : forall p name n p1,
  parseProperty_name f p name = Ok n p1 ->
  (pending p1 <= pending p)%nat
  /\ (hasChar p = true -> is_letter (char p) = true ->
      (pending p1 < pending p)%nat).
Proof.
  induction f as [|f IH]; intros p name n p1 Hr; simpl in Hr;
    [discriminate|].
  destruct (readChar p) as [ch p2| |] eqn:Hc; try discriminate.
  destruct (readChar_pending _ _ _ Hc) as (Hm & Hh & Hch & _).
  destruct (is_letter ch) eqn:Hl.
  - destruct (2 <=? Go.len (name ++ Go.string_of_rune ch)).
    + injection Hr as _ <-. split; intros; lia.
    + apply IH in Hr. destruct Hr as [Hr _]. split; intros; lia.
  - injection Hr as _ <-.
    pose proof (unreadChar_pending _ Hh) as Hu. split; [lia|].
    intros Hhp Hlp. exfalso.
    unfold readChar in Hc. rewrite Hhp in Hc. injection Hc as Hc _.
    congruence.
Qed.

Lemma parseProperty_name_total f : forall p name,
  (pending p < f)%nat -> parseProperty_name f p name <> Fuel.
Proof.
  induction f as [|f IH]; intros p name Hlt; [lia|]. simpl.
  destruct (readChar p) as [ch p2| |] eqn:Hc; try discriminate.
  - destruct (readChar_pending _ _ _ Hc) as (Hm & _).
    destruct (is_letter ch); [|discriminate].
    destruct (2 <=? Go.len (name ++ Go.string_of_rune ch)); [discriminate|].
    apply IH; lia.
  - exfalso. exact (readChar_not_Fuel _ Hc).
Qed.

Lemma parseProperty_values_mono f : forall f' p values r,
  (f <= f')%nat -> parseProperty_values f p values = r -> r <> Fuel ->
  parseProperty_values f' p values = r.
Proof.
  induction f as [|f IH]; intros f' p values r Hle Hr Hn; simpl in Hr;
    [congruence|].
  destruct f' as [|f']; [lia|]. simpl.
  destruct (skipWhitespace f p) as [[] p0| |] eqn:Hs; try congruence;
    callee_mono skipWhitespace_mono Hs; [|assumption].
  destruct (peekChar p0) as [ch p1| |]; try assumption.
  destruct (ch =? rune "["); [|assumption].
  destruct (parsePropertyValue f p1) as [v p2| |] eqn:Hv; try congruence;
    callee_mono parsePropertyValue_mono Hv; [|assumption].
  apply IH; (lia || assumption).
Qed.

Lemma parseProperty_values_Ok f : forall p values vs p1,
  parseProperty_values f p values = Ok vs p1 ->
  (pending p1 <= pending p)%nat.
Proof.
  induction f as [|f IH]; intros p values vs p1 Hr; simpl in Hr;
    [discriminate|].
  destruct (skipWhitespace f p) as [[] p0| |] eqn:Hs; try discriminate.
  destruct (skipWhitespace_Ok _ _ _ Hs) as (p0' & [= <-] & Hle0 & _);
    [discriminate|].
  destruct (peekChar p0) as [ch p2| |] eqn:Hp; try discriminate.
  destruct (peekChar_pending _ _ _ Hp) as (Hm & _).
  destruct (ch =? rune "[").
  - destruct (parsePropertyValue f p2) as [v p3| |] eqn:Hv; try discriminate.
    apply parsePropertyValue_Ok in Hv. apply IH in Hr. lia.
  - injection Hr as _ <-. lia.
Qed.

Lemma parseProperty_values_total f : forall p values,
  (pending p + 1 < f)%nat -> parseProperty_values f p values <> Fuel.
Proof.
  induction f as [|f IH]; intros p values Hlt; [lia|]. simpl.
  destruct (skipWhitespace f p) as [[] p0| |] eqn:Hs; try discriminate.
  - destruct (skipWhitespace_Ok _ _ _ Hs) as (p0' & [= <-] & Hle0 & _);
      [discriminate|].
    destruct (peekChar p0) as [ch p2| |] eqn:Hp; try discriminate.
    + destruct (peekChar_pending _ _ _ Hp) as (Hm & _).
      destruct (ch =? rune "["); [|discriminate].
      destruct (parsePropertyValue f p2) as [v p3| |] eqn:Hv;
        try discriminate.
      * apply parsePropertyValue_Ok in Hv. apply IH. lia.
      * exfalso. revert Hv. apply parsePropertyValue_total. lia.
    + exfalso. exact (peekChar_not_Fuel _ Hp).
  - exfalso. revert Hs. apply skipWhitespace_total. lia.
Qed.

Lemma parseProperty_mono f f' p r :
  (f <= f')%nat -> parseProperty f p = r -> r <> Fuel ->
  parseProperty f' p = r.
Proof.
  unfold parseProperty. intros Hle Hr Hn.
  destruct (parseProperty_name f p "") as [name p1| |] eqn:Hname;
    try congruence; callee_mono parseProperty_name_mono Hname;
    [|assumption].
  destruct (parseProperty_values f p1 []) as [vs p2| |] eqn:Hvs;
    try congruence; callee_mono parseProperty_values_mono Hvs; assumption.
Qed.

Lemma parseProperty_Ok f p nv p1 :
  parseProperty f p = Ok nv p1 ->
  (pending p1 <= pending p)%nat
  /\ (hasChar p = true -> is_letter (char p) = true ->
      (pending p1 < pending p)%nat).
Proof.
  unfold parseProperty.
  destruct (parseProperty_name f p "") as [name p2| |] eqn:Hname;
    try discriminate.
  destruct (parseProperty_values f p2 []) as [vs p3| |] eqn:Hvs;
    try discriminate.
  intros [= _ <-].
  apply parseProperty_name_Ok in Hname. destruct Hname as [H1 H2].
  apply parseProperty_values_Ok in Hvs.
  split; [lia|]. intros Hh Hl. specialize (H2 Hh Hl). lia.
Qed.

Lemma parseProperty_total f p :
  (pending p + 1 < f)%nat -> parseProperty f p <> Fuel.
Proof.
  unfold parseProperty. intros Hlt.
  destruct (parseProperty_name f p "") as [name p2| |] eqn:Hname;
    try discriminate.
  - apply parseProperty_name_Ok in Hname as [H1 _].
    destruct (parseProperty_values f p2 []) as [vs p3| |] eqn:Hvs;
      try discriminate.
    exfalso. revert Hvs. apply parseProperty_values_total. lia.
  - exfalso. revert Hname. apply parseProperty_name_total. lia.
Qed.

Lemma parseNode_loop_mono f : forall f' p props r,
  (f <= f')%nat -> parseNode_loop f p props = r -> r <> Fuel ->
  parseNode_loop f' p props = r.
Proof.
  induction f as [|f IH]; intros f' p props r Hle Hr Hn; simpl in Hr;
    [congruence|].
  destruct f' as [|f']; [lia|]. simpl.
  destruct (skipWhitespace f p) as [[] p0| |] eqn:Hs; try congruence;
    callee_mono skipWhitespace_mono Hs; [|assumption].
  destruct (peekChar p0) as [ch p1| |]; try assumption.
  destruct (is_letter ch); [|assumption].
  destruct (parseProperty f p1) as [[name vs] p2| |] eqn:Hv; try congruence;
    callee_mono parseProperty_mono Hv; [|assumption].
  apply IH; (lia || assumption).
Qed.

Lemma parseNode_loop_Ok f : forall p props node p1,
  parseNode_loop f p props = Ok node p1 -> (pending p1 <= pending p)%nat.
Proof.
  induction f as [|f IH]; intros p props node p1 Hr; simpl in Hr;
    [discriminate|].
  destruct (skipWhitespace f p) as [[] p0| |] eqn:Hs; try discriminate.
  destruct (skipWhitespace_Ok _ _ _ Hs) as (p0' & [= <-] & Hle0 & _);
    [discriminate|].
  destruct (peekChar p0) as [ch p2| |] eqn:Hp; try discriminate.
  destruct (peekChar_pending _ _ _ Hp) as (Hm & _).
  destruct (is_letter ch).
  - destruct (parseProperty f p2) as [[name vs] p3| |] eqn:Hv;
      try discriminate.
    apply parseProperty_Ok in Hv as [Hv _]. apply IH in Hr. lia.
  - injection Hr as _ <-. lia.
Qed.

Lemma parseNode_loop_total f : forall p props,
  (pending p + 2 < f)%nat -> parseNode_loop f p props <> Fuel.
Proof.
  induction f as [|f IH]; intros p props Hlt; [lia|]. simpl.
  destruct (skipWhitespace f p) as [[] p0| |] eqn:Hs; try discriminate.
  - destruct (skipWhitespace_Ok _ _ _ Hs) as (p0' & [= <-] & Hle0 & _);
      [discriminate|].
    destruct (peekChar p0) as [ch p2| |] eqn:Hp; try discriminate.
    + destruct (peekChar_pending _ _ _ Hp) as (Hm & Hh & Hc & _).
      destruct (is_letter ch) eqn:Hl; [|discriminate].
      destruct (parseProperty f p2) as [[name vs] p3| |] eqn:Hv;
        try discriminate.
      * apply parseProperty_Ok in Hv as [_ Hv].
        apply IH. rewrite Hc in Hv. specialize (Hv Hh Hl). lia.
      * exfalso. revert Hv. apply parseProperty_total. lia.
    + exfalso. exact (peekChar_not_Fuel _ Hp).
  - exfalso. revert Hs. apply skipWhitespace_total. lia.
Qed.

Lemma parseNode_mono f f' p r :
  (f <= f')%nat -> parseNode f p = r -> r <> Fuel -> parseNode f' p = r.
Proof.
  unfold parseNode. intros Hle Hr Hn.
  destruct (readChar p) as [ch p1| |]; try assumption.
  destruct (ch =? rune ";"); [|assumption].
  eapply parseNode_loop_mono; eassumption.
Qed.

Lemma parseNode_Ok f p node p1 :
  parseNode f p = Ok node p1 -> (pending p1 < pending p)%nat.
Proof.
  unfold parseNode.
  destruct (readChar p) as [ch p2| |] eqn:Hc; try discriminate.
  destruct (readChar_pending _ _ _ Hc) as (Hm & _).
  destruct (ch =? rune ";"); [|discriminate].
  intros Hr. apply parseNode_loop_Ok in Hr. lia.
Qed.

Lemma parseNode_total f p :
  (pending p + 2 < f)%nat -> parseNode f p <> Fuel.
Proof.
  unfold parseNode. intros Hlt.
  destruct (readChar p) as [ch p2| |] eqn:Hc; try discriminate.
  destruct (readChar_pending _ _ _ Hc) as (Hm & _).
  destruct (ch =? rune ";"); [|discriminate].
  apply parseNode_loop_total. lia.
Qed.

Lemma skipVariation_mono f : forall f' p depth r,
  (f <= f')%nat -> skipVariation f p depth = r -> r <> Fuel ->
  skipVariation f' p depth = r.
Proof.
  induction f as [|f IH]; intros f' p depth r Hle Hr Hn; simpl in Hr;
    [congruence|].
  destruct f' as [|f']; [lia|]. simpl.
  destruct (0 <? depth); [|assumption].
  destruct (readChar p) as [ch p1| |]; try assumption.
  destruct (ch =? rune "("); [apply IH; (lia || assumption)|].
  destruct (ch =? rune ")"); apply IH; (lia || assumption).
Qed.

Lemma skipVariation_Ok f : forall p depth p1,
  skipVariation f p depth = Ok tt p1 -> (pending p1 <= pending p)%nat.
Proof.
  induction f as [|f IH]; intros p depth p1 Hr; simpl in Hr;
    [discriminate|].
  destruct (0 <? depth); [|injection Hr as <-; lia].
  destruct (readChar p) as [ch p2| |] eqn:Hc; try discriminate.
  destruct (readChar_pending _ _ _ Hc) as (Hm & _).
  destruct (ch =? rune "("); [apply IH in Hr; lia|].
  destruct (ch =? rune ")"); apply IH in Hr; lia.
Qed.

Lemma skipVariation_total f : forall p depth,
  (pending p < f)%nat -> skipVariation f p depth <> Fuel.
Proof.
  induction f as [|f IH]; intros p depth Hlt; [lia|]. simpl.
  destruct (0 <? depth); [|discriminate].
  destruct (readChar p) as [ch p2| |] eqn:Hc; try discriminate.
  - destruct (readChar_pending _ _ _ Hc) as (Hm & _).
    destruct (ch =? rune "("); [apply IH; lia|].
    destruct (ch =? rune ")"); apply IH; lia.
  - exfalso. exact (readChar_not_Fuel _ Hc).
Qed.

Lemma parseGame_loop_mono f : forall f' p root r,
  (f <= f')%nat -> parseGame_loop f p root = r -> r <> Fuel ->
  parseGame_loop f' p root = r.
Proof.
  induction f as [|f IH]; intros f' p root r Hle Hr Hn; simpl in Hr;
    [congruence|].
  destruct f' as [|f']; [lia|]. simpl.
  destruct (skipWhitespace f p) as [[] p0| |] eqn:Hs; try congruence;
    callee_mono skipWhitespace_mono Hs; [|assumption].
  destruct (peekChar p0) as [ch p1| |]; try assumption.
  destruct (ch =? rune ")"); [assumption|].
  destruct (ch =? rune ";").
  - destruct (parseNode f p1) as [node p2| |] eqn:Hv; try congruence;
      callee_mono parseNode_mono Hv; [|assumption].
    destruct (bool_decide (size (Properties root) = 0%nat));
      apply IH; (lia || assumption).
  - destruct (ch =? rune "("); [|assumption].
    destruct (skipVariation f (discardChar p1) 1) as [[] p3| |] eqn:Hv;
      try congruence; callee_mono skipVariation_mono Hv; [|assumption].
    apply IH; (lia || assumption).
Qed.

Lemma parseGame_loop_Ok f : forall p root node p1,
  parseGame_loop f p root = Ok node p1 -> (pending p1 < pending p)%nat.
Proof.
  induction f as [|f IH]; intros p root node p1 Hr; simpl in Hr;
    [discriminate|].
  destruct (skipWhitespace f p) as [[] p0| |] eqn:Hs; try discriminate.
  destruct (skipWhitespace_Ok _ _ _ Hs) as (p0' & [= <-] & Hle0 & _);
    [discriminate|].
  destruct (peekChar p0) as [ch p2| |] eqn:Hp; try discriminate.
  destruct (peekChar_pending _ _ _ Hp) as (Hm & Hh & _).
  pose proof (discardChar_peeked _ Hh) as Hd.
  destruct (ch =? rune ")"); [injection Hr as _ <-; lia|].
  destruct (ch =? rune ";").
  - destruct (parseNode f p2) as [n p3| |] eqn:Hv; try discriminate.
    apply parseNode_Ok in Hv.
    destruct (bool_decide (size (Properties root) = 0%nat));
      apply IH in Hr; lia.
  - destruct (ch =? rune "("); [|discriminate].
    destruct (skipVariation f (discardChar p2) 1) as [[] p3| |] eqn:Hv;
      try discriminate.
    apply skipVariation_Ok in Hv. apply IH in Hr. lia.
Qed.

Lemma parseGame_loop_total f : forall p root,
  (pending p + 3 < f)%nat -> parseGame_loop f p root <> Fuel.
Proof.
  induction f as [|f IH]; intros p root Hlt; [lia|]. simpl.
  destruct (skipWhitespace f p) as [[] p0| |] eqn:Hs; try discriminate.
  - destruct (skipWhitespace_Ok _ _ _ Hs) as (p0' & [= <-] & Hle0 & _);
      [discriminate|].
    destruct (peekChar p0) as [ch p2| |] eqn:Hp; try discriminate.
    + destruct (peekChar_pending _ _ _ Hp) as (Hm & Hh & _).
      pose proof (discardChar_peeked _ Hh) as Hd.
      destruct (ch =? rune ")"); [discriminate|].
      destruct (ch =? rune ";").
      * destruct (parseNode f p2) as [n p3| |] eqn:Hv; try discriminate.
        -- apply parseNode_Ok in Hv.
           destruct (bool_decide (size (Properties root) = 0%nat));
             apply IH; lia.
        -- exfalso. revert Hv. apply parseNode_total. lia.
      * destruct (ch =? rune "("); [|discriminate].
        destruct (skipVariation f (discardChar p2) 1) as [[] p3| |] eqn:Hv;
          try discriminate.
        -- apply skipVariation_Ok in Hv. apply IH. lia.
        -- exfalso. revert Hv. apply skipVariation_total. lia.
    + exfalso. exact (peekChar_not_Fuel _ Hp).
  - exfalso. revert Hs. apply skipWhitespace_total. lia.
Qed.

Lemma parseGame_mono f f' p r :
  (f <= f')%nat -> parseGame f p = r -> r <> Fuel -> parseGame f' p = r.
Proof.
  unfold parseGame. intros Hle Hr Hn.
  destruct (readChar p) as [ch p1| |]; try assumption.
  destruct (ch =? rune "("); [|assumption].
  eapply parseGame_loop_mono; eassumption.
Qed.

Lemma parseGame_Ok f p node p1 :
  parseGame f p = Ok node p1 -> (pending p1 < pending p)%nat.
Proof.
  unfold parseGame.
  destruct (readChar p) as [ch p2| |] eqn:Hc; try discriminate.
  destruct (readChar_pending _ _ _ Hc) as (Hm & _).
  destruct (ch =? rune "("); [|discriminate].
  intros Hr. apply parseGame_loop_Ok in Hr. lia.
Qed.

Lemma parseGame_total f p :
  (pending p + 3 < f)%nat -> parseGame f p <> Fuel.
Proof.
  unfold parseGame. intros Hlt.
  destruct (readChar p) as [ch p2| |] eqn:Hc; try discriminate.
  destruct (readChar_pending _ _ _ Hc) as (Hm & _).
  destruct (ch =? rune "("); [|discriminate].
  apply parseGame_loop_total. lia.
Qed.

Lemma parseGameTree_loop_mono f : forall f' p games r,
  (f <= f')%nat -> parseGameTree_loop f p games = r -> r <> Fuel ->
  parseGameTree_loop f' p games = r.
Proof.
  induction f as [|f IH]; intros f' p games r Hle Hr Hn; simpl in Hr;
    [congruence|].
  destruct f' as [|f']; [lia|]. simpl.
  destruct (skipWhitespace f p) as [[] p0| |] eqn:Hs; try congruence;
    callee_mono skipWhitespace_mono Hs; [|assumption].
  destruct (peekChar p0) as [ch p1| |]; try assumption.
  destruct (ch =? rune "("); [|assumption].
  destruct (parseGame f p1) as [node p2| |] eqn:Hv; try congruence;
    callee_mono parseGame_mono Hv; [|assumption].
  apply IH; (lia || assumption).
Qed.

Lemma parseGameTree_loop_total f : forall p games,
  (pending p + 4 < f)%nat -> parseGameTree_loop f p games <> Fuel.
Proof.
  induction f as [|f IH]; intros p games Hlt; [lia|]. simpl.
  destruct (skipWhitespace f p) as [[] p0| |] eqn:Hs; try discriminate.
  - destruct (skipWhitespace_Ok _ _ _ Hs) as (p0' & [= <-] & Hle0 & _);
      [discriminate|].
    destruct (peekChar p0) as [ch p2| |] eqn:Hp.
    + destruct (peekChar_pending _ _ _ Hp) as (Hm & Hh & _).
      destruct (ch =? rune "("); [|discriminate].
      destruct (parseGame f p2) as [n p3| |] eqn:Hv; try discriminate.
      * apply parseGame_Ok in Hv. apply IH. lia.
      * exfalso. revert Hv. apply parseGame_total. lia.
    + destruct (error_eqb_EOF e); discriminate.
    + exfalso. exact (peekChar_not_Fuel _ Hp).
  - exfalso. revert Hs. apply skipWhitespace_total. lia.
Qed.

(** [ParseSGF] always returns. *)
Lemma parseGameTree_total input e :
  parseGameTree (parseFuel input) (NewSGFParser input e) <> Fuel.
Proof.
  apply parseGameTree_loop_total.
  unfold pending, parseFuel, NewSGFParser. simpl. lia.
Qed.

(** A result reached with some count is the result with any count that
    is enough for the runes left. *)
Lemma skipWhitespace_agree f f' p r :
  skipWhitespace f p = r -> r <> Fuel -> (pending p < f')%nat ->
  skipWhitespace f' p = r.
Proof.
  intros Hr Hn Hlt. destruct (le_ge_dec f f') as [Hle|Hge].
  - eapply skipWhitespace_mono; eassumption.
  - pose proof (skipWhitespace_total f' p Hlt) as Ht.
    rewrite <- Hr. symmetry.
    eapply skipWhitespace_mono; [exact Hge|reflexivity|exact Ht].
Qed.

Lemma parseProperty_agree f f' p r :
  parseProperty f p = r -> r <> Fuel -> (pending p + 1 < f')%nat ->
  parseProperty f' p = r.
Proof.
  intros Hr Hn Hlt. destruct (le_ge_dec f f') as [Hle|Hge].
  - eapply parseProperty_mono; eassumption.
  - pose proof (parseProperty_total f' p Hlt) as Ht.
    rewrite <- Hr. symmetry.
    eapply parseProperty_mono; [exact Hge|reflexivity|exact Ht].
Qed.

Lemma parseGame_agree f f' p r :
  parseGame f p = r -> r <> Fuel -> (pending p + 3 < f')%nat ->
  parseGame f' p = r.
Proof.
  intros Hr Hn Hlt. destruct (le_ge_dec f f') as [Hle|Hge].
  - eapply parseGame_mono; eassumption.
  - pose proof (parseGame_total f' p Hlt) as Ht.
    rewrite <- Hr. symmetry.
    eapply parseGame_mono; [exact Hge|reflexivity|exact Ht].
Qed.

(** C6: for every character c that [readChar] returned, [unreadChar]
    followed by [peekChar] returns exactly c and leaves the parser as it
    was, so that the next [readChar] delivers c again. *)
Theorem unread_then_peek p c p1 :
  readChar p = Ok c p1 ->
  peekChar (unreadChar p1) = Ok c (unreadChar p1)
  /\ readChar (unreadChar p1) = Ok c p1.
Proof.
  intros Hr. destruct (readChar_pending _ _ _ Hr) as (_ & Hh & Hc & _).
  destruct p1 as [rd re ch hc]. simpl in Hh, Hc. subst hc ch.
  split; reflexivity.
Qed.

Lemma unread_then_peek_witness :
  readChar (NewSGFParser (runes_of "W[31ab]") EOF)
  = Ok (rune "W") (mkParser (runes_of "[31ab]") EOF (rune "W") false)
  /\ peekChar (unreadChar (mkParser (runes_of "[31ab]") EOF (rune "W") false))
     = Ok (rune "W")
          (unreadChar (mkParser (runes_of "[31ab]") EOF (rune "W") false))
  /\ readChar (unreadChar (mkParser (runes_of "[31ab]") EOF (rune "W") false))
     = Ok (rune "W") (mkParser (runes_of "[31ab]") EOF (rune "W") false).
Proof.
  split; [reflexivity|].
  apply (unread_then_peek (NewSGFParser (runes_of "W[31ab]") EOF)).
  reflexivity.
Defined.

(** ** The properties of a node *)

Lemma setProperty_others ps : forall (props : gmap string (list string)) name,
  name ∉ ps.*1 -> fold_left setProperty ps props !! name = props !! name.
Proof.
  induction ps as [|[n v] ps IH]; intros props name Hnot; [reflexivity|].
  simpl. rewrite IH.
  - unfold setProperty. simpl. apply lookup_insert_ne.
    intros ->. apply Hnot. simpl. left.
  - intros Hin. apply Hnot. simpl. right. exact Hin.
Qed.

Lemma setProperty_last before name v after
    (props : gmap string (list string)) :
  name ∉ after.*1 ->
  fold_left setProperty (before ++ (name, v) :: after) props !! name = Some v.
Proof.
  intros Hnot. rewrite fold_left_app. simpl.
  rewrite setProperty_others by exact Hnot.
  unfold setProperty. simpl. apply lookup_insert_eq.
Qed.

Lemma parseNode_loop_reads f : forall p props node p',
  parseNode_loop f p props = Ok node p' ->
  exists ps, reads_properties p ps p'
             /\ node = mkNode (fold_left setProperty ps props) [].
Proof.
  induction f as [|f IH]; intros p props node p' Hr; simpl in Hr;
    [discriminate|].
  destruct (skipWhitespace f p) as [[] p0| |] eqn:Hs; try discriminate.
  destruct (peekChar p0) as [ch p1| |] eqn:Hp; try discriminate.
  destruct (is_letter ch) eqn:Hl.
  - destruct (parseProperty f p1) as [[name vs] p2| |] eqn:Hv;
      try discriminate.
    destruct (IH _ _ _ _ Hr) as (ps & Hps & ->).
    exists ((name, vs) :: ps). split; [|reflexivity].
    eapply reads_one_more; [|exact Hps].
    exists f, p0, ch, p1. auto.
  - injection Hr as <- <-. exists []. split; [|reflexivity].
    apply reads_no_more. exists f, p0, ch. auto.
Qed.

(** C10: the property map of a parsed node holds, for each name, the value
    list of the last property read under that name: the value list of a
    later occurrence replaces that of an earlier one, whose values are
    lost, and a name that was not read is absent. *)
Theorem parseNode_later_property_replaces f p node p' :
  parseNode f p = Ok node p' ->
  exists p1 ps,
    readChar p = Ok (rune ";") p1 /\ reads_properties p1 ps p'
    /\ (forall before name values after,
          ps = before ++ (name, values) :: after -> name ∉ after.*1 ->
          Properties node !! name = Some values)
    /\ (forall name, name ∉ ps.*1 -> Properties node !! name = None).
Proof.
  unfold parseNode. intros Hr.
  destruct (readChar p) as [ch p1| |] eqn:Hc; try discriminate.
  destruct (ch =? rune ";") eqn:Hch; [|discriminate].
  apply Z.eqb_eq in Hch. subst ch.
  destruct (parseNode_loop_reads _ _ _ _ _ Hr) as (ps & Hps & ->).
  exists p1, ps. split; [reflexivity|]. split; [exact Hps|]. split.
  - intros before name values after -> Hnot. simpl.
    apply setProperty_last. exact Hnot.
  - intros name Hnot. simpl. rewrite setProperty_others by exact Hnot.
    apply lookup_empty.
Qed.

Lemma parseNode_later_property_replaces_witness :
  parseNode 20 (NewSGFParser (runes_of ";C[a]C[b])") EOF)
  = Ok (mkNode {["C" := ["b"]]} []) (mkParser [] EOF (rune ")") true)
  /\ exists p1 ps,
       readChar (NewSGFParser (runes_of ";C[a]C[b])") EOF)
       = Ok (rune ";") p1
       /\ reads_properties p1 ps (mkParser [] EOF (rune ")") true)
       /\ (forall before name values after,
             ps = before ++ (name, values) :: after ->
             name ∉ after.*1 ->
             Properties (mkNode {["C" := ["b"]]} []) !! name = Some values)
       /\ (forall name, name ∉ ps.*1 ->
             Properties (mkNode {["C" := ["b"]]} []) !! name = None).
Proof.
  split; [vm_compute; reflexivity|].
  apply (parseNode_later_property_replaces 20
           (NewSGFParser (runes_of ";C[a]C[b])") EOF)).
  vm_compute. reflexivity.
Defined.

(** ** Syntax errors *)

Lemma parseGameTree_loop_games p games p' :
  games_parse p games p' ->
  forall F acc, (pending p + 4 < F)%nat ->
  exists F', (pending p' + 4 < F')%nat
    /\ parseGameTree_loop F p acc = parseGameTree_loop F' p' (acc ++ games).
Proof.
  induction 1 as [p|p game p1 games p' Hg _ IH]; intros F acc HF.
  - exists F. rewrite app_nil_r. split; [exact HF|reflexivity].
  - destruct Hg as (f & p0 & pk & Hs & Hp & Hgame).
    destruct F as [|F]; [lia|].
    destruct (skipWhitespace_Ok _ _ _ Hs) as (p0' & [= <-] & Hle0 & _);
      [discriminate|].
    destruct (peekChar_pending _ _ _ Hp) as (Hm & _).
    pose proof (parseGame_Ok _ _ _ _ Hgame) as Hlt.
    destruct (IH F (acc ++ [game])) as (F' & HF' & Heq); [lia|].
    exists F'. split; [exact HF'|].
    simpl.
    rewrite (skipWhitespace_agree f F p _ Hs) by (discriminate || lia).
    rewrite Hp. rewrite Z.eqb_refl.
    rewrite (parseGame_agree f F pk _ Hgame) by (discriminate || lia).
    rewrite Heq. rewrite <- app_assoc. reflexivity.
Qed.

Lemma parseGameTree_loop_fails p e :
  game_fails p e ->
  forall F acc, (pending p + 4 < F)%nat ->
  parseGameTree_loop F p acc = Err e.
Proof.
  intros (f & p0 & pk & Hs & Hp & Hgame) F acc HF.
  destruct F as [|F]; [lia|].
  destruct (skipWhitespace_Ok _ _ _ Hs) as (p0' & [= <-] & Hle0 & _);
    [discriminate|].
  destruct (peekChar_pending _ _ _ Hp) as (Hm & _).
  simpl.
  rewrite (skipWhitespace_agree f F p _ Hs) by (discriminate || lia).
  rewrite Hp. rewrite Z.eqb_refl.
  rewrite (parseGame_agree f F pk _ Hgame) by (discriminate || lia).
  reflexivity.
Qed.

Lemma NewSGFParser_pending input e :
  (pending (NewSGFParser input e) + 4 < parseFuel input)%nat.
Proof. unfold pending, parseFuel, NewSGFParser. simpl. lia. Qed.

(** [ParseSGF] returns for every input, and what it returns is never
    both a match and an error. *)
Lemma ParseSGF_returns `{FloatParser} input e0 :
  exists result,
    ParseSGF input e0 = Some result
    /\ (result.2 <> None -> result.1 = None).
Proof.
  unfold ParseSGF.
  destruct (parseGameTree (parseFuel input) (NewSGFParser input e0))
    as [nodes p| |] eqn:Hp.
  - destruct nodes as [|n nodes]; [eexists; split; [reflexivity|auto]|].
    destruct (convertNodesToMatch (n :: nodes)) as [m [err|]];
      eexists; (split; [reflexivity|simpl; congruence]).
  - eexists; split; [reflexivity|auto].
  - exfalso. exact (parseGameTree_total _ _ Hp).
Qed.

(** The three kinds of syntax error inside a game tree, each after a game
    tree that was parsed: a character that cannot follow, a value that is
    not closed, a game tree that is not closed. *)
Example syntax_errors `{FloatParser} :
  ParseSGF (runes_of "(;B[52lpab])(;W[64ab]5)") EOF
  = Some (None, Some (Wrap "failed to parse SGF: "
                        (Errorf "unexpected character in game tree: 5")))
  /\ ParseSGF (runes_of "(;B[52lpab])(;W[64ab") EOF
     = Some (None, Some (Wrap "failed to parse SGF: "
                           (Wrap "error parsing property: " EOF)))
  /\ ParseSGF (runes_of "(;B[52lpab])(") EOF
     = Some (None, Some (Wrap "failed to parse SGF: " EOF)).
Proof. repeat split; vm_compute; reflexivity. Qed.

(** ** The conversion of the trees *)

Lemma SGFNode_chain_ind (P : SGFNode -> Prop) :
  (forall ps, P (mkNode ps [])) ->
  (forall ps child rest, P child -> P (mkNode ps (child :: rest))) ->
  forall node, P node.
Proof.
  intros Hleaf Hchild. fix IH 1. intros [ps [|child rest]].
  - apply Hleaf.
  - apply Hchild. apply IH.
Qed.

Section ConversionProperties.
Context `{FloatParser}.

Lemma processNode_appends node game :
  processNode node game
  = (set_GameMoves (GameMoves game ++ nodeRecords node) game, None).
Proof.
  unfold nodeRecords, processNode, processMove, processSetBoard, appendMove.
  destruct game.
  repeat match goal with
         | |- context [if ?c then _ else _] => destruct c
         end;
    cbn; rewrite <- ?app_assoc, ?app_nil_r; reflexivity.
Qed.

Lemma convertGame_walk_appends : forall node game,
  convertGame_walk node game
  = (set_GameMoves (GameMoves game ++ treeRecords node) game, None).
Proof.
  induction node as [ps|ps child rest IH] using SGFNode_chain_ind;
    intros game.
  - simpl. rewrite processNode_appends. simpl.
    rewrite app_nil_r. reflexivity.
  - simpl. rewrite processNode_appends. simpl. rewrite IH.
    destruct game. simpl. rewrite <- app_assoc. reflexivity.
Qed.

Lemma parseMatchInfo_part_game part m m' g :
  (parseMatchInfo_part part (m, g)).2 = (parseMatchInfo_part part (m', g)).2
  /\ Games (parseMatchInfo_part part (m, g)).1 = Games m.
Proof.
  unfold parseMatchInfo_part.
  destruct (Go.SplitN2 (Go.Trim part "[]") ":") as [|k [|v [|]]];
    try (split; reflexivity).
  destruct (Go.Atoi v) as [n err].
  repeat match goal with
         | |- context [if ?c then _ else _] => destruct c
         end; split; reflexivity.
Qed.

Lemma parseMatchInfo_game mi m m' g :
  (parseMatchInfo mi m g).2 = (parseMatchInfo mi m' g).2
  /\ Games (parseMatchInfo mi m g).1 = Games m.
Proof.
  unfold parseMatchInfo. generalize (Go.Split mi "][").
  intros parts. revert m m' g.
  induction parts as [|part parts IH]; intros m m' g; [split; reflexivity|].
  cbn [fold_left].
  destruct (parseMatchInfo_part_game part m m' g) as [Hg HG].
  destruct (parseMatchInfo_part part (m, g)) as [m1 g1] eqn:E1.
  destruct (parseMatchInfo_part part (m', g)) as [m1' g1'] eqn:E1'.
  simpl in Hg, HG. subst g1'.
  destruct (IH m1 m1' g1) as [IHg IHG]. split; [exact IHg|].
  rewrite IHG. exact HG.
Qed.

Lemma setIfPresent_Games node name set m :
  Games (setIfPresent node name set m) = Games m.
Proof.
  unfold setIfPresent. destruct (String.eqb _ _); reflexivity.
Qed.

(** The game read from the root node does not depend on the match, and
    the games of the match are left as they are. *)
Lemma extractMetadata_game node m m' g :
  (extractMetadata node m g).1.2 = (extractMetadata node m' g).1.2
  /\ Games (extractMetadata node m g).1.1 = Games m
  /\ (extractMetadata node m g).2 = None.
Proof.
  unfold extractMetadata.
  set (m1 := setIfPresent node "GC" _ _).
  set (m1' := setIfPresent node "GC" _ _).
  assert (HG : Games m1 = Games m)
    by (unfold m1; rewrite !setIfPresent_Games; reflexivity).
  clearbody m1 m1'.
  destruct (String.eqb (getProperty node "MI") "").
  - simpl. repeat split. exact HG.
  - destruct (parseMatchInfo_game (getProperty node "MI") m1 m1' g)
      as [Hg HG'].
    destruct (parseMatchInfo (getProperty node "MI") m1 g) as [m2 g2].
    destruct (parseMatchInfo (getProperty node "MI") m1' g) as [m2' g2'].
    simpl in *. subst g2'. repeat split. congruence.
Qed.

Lemma convertGame_game root m :
  exists m', convertGame root m = (m', inl (gameOfTree root))
             /\ Games m' = Games m.
Proof.
  unfold convertGame, gameOfTree.
  destruct (extractMetadata_game root m
              {| Metadata := MatchMetadata_zero; Games := [] |} Game_new)
    as (Hg & HG & He).
  destruct (extractMetadata root m Game_new) as [[m1 g1] e1].
  simpl in Hg, HG, He. subst e1. rewrite convertGame_walk_appends.
  exists m1. rewrite <- Hg. split; [reflexivity|exact HG].
Qed.

Lemma convertNodesToMatch_loop_games : forall nodes m,
  exists m', convertNodesToMatch_loop nodes m = (Some m', None)
             /\ Games m' = Games m ++ map gameOfTree nodes.
Proof.
  induction nodes as [|node nodes IH]; intros m.
  - exists m. simpl. rewrite app_nil_r. split; reflexivity.
  - simpl. destruct (convertGame_game node m) as (m1 & -> & HG).
    destruct (IH (set_Games (Games m1 ++ [gameOfTree node]) m1))
      as (m' & -> & HG').
    exists m'. split; [reflexivity|].
    rewrite HG'. simpl. rewrite HG, <- app_assoc. reflexivity.
Qed.

(** The conversion makes one game of each tree, in the order of the trees,
    and each game is made of its own tree only. *)
Lemma convertNodesToMatch_games node nodes :
  exists m, convertNodesToMatch (node :: nodes) = (Some m, None)
            /\ Games m = map gameOfTree (node :: nodes).
Proof.
  unfold convertNodesToMatch.
  destruct (convertNodesToMatch_loop_games (node :: nodes)
              {| Metadata := MatchMetadata_zero; Games := [] |})
    as (m & Hm & HG).
  exists m. split; [exact Hm|exact HG].
Qed.

End ConversionProperties.

(** ** Several game trees and variations *)

Lemma parseGameTree_loop_ends p :
  tree_ends p ->
  forall F acc, (pending p + 4 < F)%nat ->
  exists p', parseGameTree_loop F p acc = Ok acc p'.
Proof.
  intros (f & p0 & Hs & Hend) F acc HF.
  destruct F as [|F]; [lia|]. simpl.
  rewrite (skipWhitespace_agree f F p _ Hs) by (discriminate || lia).
  destruct Hend as [Hp|(ch & p1 & Hp & Hch)]; rewrite Hp.
  - exists p0. reflexivity.
  - apply Z.eqb_neq in Hch. rewrite Hch. exists p1. reflexivity.
Qed.

(** When the game trees of an input are parsed one after the other up to
    the end of the input, [ParseSGF] returns a match with one game for
    each tree, in the order of the trees, and each game is made of its
    own tree only. *)
Lemma ParseSGF_games `{FloatParser} input e0 game games p :
  games_parse (NewSGFParser input e0) (game :: games) p ->
  tree_ends p ->
  exists m, ParseSGF input e0 = Some (Some m, None)
            /\ Games m = map gameOfTree (game :: games).
Proof.
  intros Hgames Hend. unfold ParseSGF, parseGameTree.
  destruct (parseGameTree_loop_games _ _ _ Hgames (parseFuel input) [])
    as (F' & HF' & ->); [apply NewSGFParser_pending|].
  destruct (parseGameTree_loop_ends _ Hend F' ([] ++ game :: games) HF')
    as (p' & ->).
  destruct (convertNodesToMatch_games game games) as (m & Hm & HG).
  exists m. simpl. simpl in Hm. rewrite Hm. split; [reflexivity|exact HG].
Qed.

(** The runs of [parseGameTree] and what [ParseSGF] returns: behind the
    game trees that were parsed, an error of [parseGame] is returned behind
    the prefix of [ParseSGF] and no match; where the loop ends, the games
    parsed so far are returned, and the error "empty SGF file" when there
    is none. *)
Lemma parse_aborts_or_ends `{FloatParser} input e0 games p :
  games_parse (NewSGFParser input e0) games p ->
  (forall e, game_fails p e ->
     ParseSGF input e0 = Some (None, Some (Wrap "failed to parse SGF: " e)))
  /\ (tree_ends p ->
      match games with
      | [] => ParseSGF input e0 = Some (None, Some (Errorf "empty SGF file"))
      | _ :: _ =>
        exists m, ParseSGF input e0 = Some (Some m, None)
                  /\ Games m = map gameOfTree games
      end).
Proof.
  intros Hgames. split.
  - intros e Hfail. unfold ParseSGF, parseGameTree.
    destruct (parseGameTree_loop_games _ _ _ Hgames (parseFuel input) [])
      as (F' & HF' & ->); [apply NewSGFParser_pending|].
    rewrite (parseGameTree_loop_fails _ _ Hfail) by exact HF'.
    reflexivity.
  - intros Hend. destruct games as [|game games].
    + unfold ParseSGF, parseGameTree.
      destruct (parseGameTree_loop_games _ _ _ Hgames (parseFuel input) [])
        as (F' & HF' & ->); [apply NewSGFParser_pending|].
      destruct (parseGameTree_loop_ends _ Hend F' ([] ++ []) HF')
        as (p' & ->).
      reflexivity.
    + exact (ParseSGF_games input e0 game games p Hgames Hend).
Qed.


(** C8 fails on the code: the loop that passes over a variation counts
    every parenthesis, also one that stands in a property value.  In the
    first input the first of two game trees has a variation whose comment
    holds a closing parenthesis; [ParseSGF] returns one game, with the move
    of the main line and a second move read from the text of the
    variation, and nothing for the second tree.  In the second input the
    comment of the variation ends with a smiley and the parse is
    abandoned. *)
Theorem variation_value_parenthesis `{FloatParser} :
  (exists m,
     ParseSGF (runes_of "(;B[52lpab](;C[);W[31ab\](]))(;W[64ab])") EOF
     = Some (Some m, None)
     /\ map (fun g => map (fun mr => (Player mr, Dice mr, Move mr))
                        (GameMoves g)) (Games m)
        = [[(1, [5; 2], [11; 15; 0; 1; -1; 0; 0; 0]);
            (0, [3; 1], [0; 1; -1; -1; -1; 0; 0; 0])]])
  /\ ParseSGF (runes_of "(;B[52lpab](;W[31ab]C[nice :)]))(;W[64ab])") EOF
     = Some (None,
             Some (Wrap "failed to parse SGF: "
                     (Errorf "unexpected character in game tree: ]"))).
Proof.
  split.
  - eexists. split; [vm_compute; reflexivity|vm_compute; reflexivity].
  - vm_compute. reflexivity.
Qed.

(** ** The tests of the package, run on the model *)

(** [TestParseMatchInfo] *)
Example test_parseMatchInfo :
  let zero := {| Metadata := MatchMetadata_zero; Games := [] |} in
  let '(m, g) := parseMatchInfo "[length:7][game:1][ws:0][bs:0]" zero Game_new in
  MatchLength (Metadata m) = 7 /\ GameNumber g = 1.
Proof. split; reflexivity. Qed.

(** [TestParseRules] *)
Example test_parseRules :
  let view g := (Crawford g, Jacoby g, CubeEnabled g, Variation g) in
  view (parseRules "Crawford:CrawfordGame" Game_new)
  = (true, false, true, "Standard")
  /\ view (parseRules "Jacoby" Game_new) = (false, true, true, "Standard")
  /\ view (parseRules "NoCube" Game_new) = (false, false, false, "Standard")
  /\ view (parseRules "Nackgammon" Game_new)
     = (false, false, true, "Nackgammon").
Proof. repeat split. Qed.

(** [TestParseResult] *)
Example test_parseResult :
  let view g := (Winner g, Points g, Resigned g) in
  view (parseResult "W+2" (set_Winner (-1) Game_new)) = (0, 2, false)
  /\ view (parseResult "B+1R" (set_Winner (-1) Game_new)) = (1, 1, true).
Proof. split; reflexivity. Qed.

(** [TestDecodePoint] *)
Example test_decodePoint :
  map decodePoint ["a"; "b"; "x"; "y"; "z"]%char = [0; 1; 23; 24; 25].
Proof. reflexivity. Qed.

(** [TestFormatMove] *)
Example test_FormatMove :
  FormatMove [-1; -1; -1; -1; -1; -1; -1; -1] 0 = "no move"
  /\ FormatMove [5; 3; -1; -1; -1; -1; -1; -1] 0 = "f/d".
Proof. split; reflexivity. Qed.

(** ** Tokens, trimming and integers *)

Example Fields_example :
  Go.Fields "  lpab E ver 3 " = ["lpab"; "E"; "ver"; "3"].
Proof. reflexivity. Qed.

Example TrimSpace_example : Go.TrimSpace "  a b  " = "a b".
Proof. reflexivity. Qed.

Example Atoi_example :
  Go.Atoi "-12" = (-12, false) /\ Go.Atoi "1x" = (0, true)
  /\ Go.Atoi "+" = (0, true) /\ Go.Atoi "" = (0, true)
  /\ Go.Atoi "9223372036854775808" = (9223372036854775807, true).
Proof. repeat split. Qed.

Lemma byte_val_range c : 0 <= Go.byte_val c <= 255.
Proof.
  unfold Go.byte_val. pose proof (N_ascii_bounded c). lia.
Qed.

Lemma numeric_byte_val c :
  numeric c = true -> 43 <= Go.byte_val c <= 57.
Proof.
  unfold numeric, Go.is_digit. intros Hn.
  apply orb_true_iff in Hn as [Hn|Hn].
  - apply orb_true_iff in Hn as [Hn|Hn]; apply Ascii.eqb_eq in Hn;
      subst c; vm_compute; split; discriminate.
  - lia.
Qed.

Lemma space_width_numeric c s :
  numeric c = true -> Go.space_width (String c s) = 0%nat.
Proof.
  intros Hn. apply numeric_byte_val in Hn. unfold Go.space_width.
  assert (Ha : Go.ascii_space (Go.byte_val c) = false)
    by (unfold Go.ascii_space; lia).
  rewrite Ha.
  assert (H1 : (Go.byte_val c =? 194) = false) by lia.
  assert (H2 : (Go.byte_val c =? 225) = false) by lia.
  assert (H3 : (Go.byte_val c =? 226) = false) by lia.
  assert (H4 : (Go.byte_val c =? 227) = false) by lia.
  rewrite H1, H2, H3, H4. simpl.
  destruct s as [|c1 [|c2 s2]]; reflexivity.
Qed.

Lemma digits_go_numeric s : forall acc n,
  Go.digits_go s acc = Some n -> all_numeric s = true.
Proof.
  induction s as [|c s IH]; intros acc n Hd; [reflexivity|].
  simpl in Hd. destruct (Go.is_digit c) eqn:Hc; [|discriminate].
  simpl. unfold numeric. rewrite Hc, orb_true_r. simpl. eauto.
Qed.

Lemma Atoi_numeric s n :
  Go.Atoi s = (n, false) -> s <> EmptyString /\ all_numeric s = true.
Proof.
  unfold Go.Atoi. destruct s as [|c rest]; [discriminate|].
  intros Ha. split; [discriminate|].
  destruct (Ascii.eqb c "-" || Ascii.eqb c "+") eqn:Hsign.
  - unfold Go.digits in Ha. destruct rest as [|c1 rest1]; [discriminate|].
    destruct (Go.digits_go (String c1 rest1) 0) as [m|] eqn:Hd;
      [|discriminate].
    apply digits_go_numeric in Hd.
    cbn [all_numeric]. unfold numeric at 1. rewrite Hsign. exact Hd.
  - unfold Go.digits in Ha.
    destruct (Go.digits_go (String c rest) 0) as [m|] eqn:Hd;
      [|discriminate].
    apply digits_go_numeric in Hd. exact Hd.
Qed.

Lemma fields_go_leading s : forall skip,
  Go.fields_go s skip "" = Go.fields_go (Go.trim_left_go s skip) 0 "".
Proof.
  induction s as [|c s IH]; intros skip; [reflexivity|].
  destruct skip as [|k].
  - cbn [Go.fields_go Go.trim_left_go].
    destruct (Go.space_width (String c s)) as [|k] eqn:Hw.
    + cbn [Go.fields_go]. rewrite Hw. reflexivity.
    + simpl. apply IH.
  - cbn [Go.fields_go Go.trim_left_go]. apply IH.
Qed.

Lemma fields_go_all_space s : forall skip,
  Go.all_space_go s skip = true -> Go.fields_go s skip "" = [].
Proof.
  induction s as [|c s IH]; intros skip Hs; [reflexivity|].
  destruct skip as [|k]; cbn [Go.fields_go Go.all_space_go] in *.
  - destruct (Go.space_width (String c s)) as [|k]; [discriminate|].
    simpl. apply IH. exact Hs.
  - apply IH. exact Hs.
Qed.

Lemma fields_go_trailing s tok :
  Go.all_space s = true -> Go.fields_go s 0 tok = Go.emit tok.
Proof.
  unfold Go.all_space. destruct s as [|c s]; [reflexivity|].
  cbn [Go.fields_go Go.all_space_go].
  destruct (Go.space_width (String c s)) as [|k]; [discriminate|].
  intros Hs. rewrite (fields_go_all_space _ _ Hs). apply app_nil_r.
Qed.

Lemma trim_right_space_split s :
  exists r, s = (Go.trim_right_space s ++ r)%string
            /\ Go.all_space r = true.
Proof.
  induction s as [|c s (r & Hs & Hr)].
  - exists EmptyString. split; reflexivity.
  - cbn [Go.trim_right_space].
    destruct (Go.all_space (String c s)) eqn:Ha.
    + exists (String c s). split; [reflexivity|exact Ha].
    + exists r. split; [|exact Hr].
      change (String c s = String c (Go.trim_right_space s ++ r)%string).
      f_equal. exact Hs.
Qed.

Lemma append_String c (s t : string) :
  (String c s ++ t)%string = String c (s ++ t).
Proof. reflexivity. Qed.

Lemma append_empty_r (s : string) : (s ++ "")%string = s.
Proof.
  induction s as [|c s IH]; [reflexivity|].
  rewrite append_String. f_equal. exact IH.
Qed.

Lemma append_assoc (s t u : string) :
  ((s ++ t) ++ u)%string = (s ++ (t ++ u))%string.
Proof.
  induction s as [|c s IH]; [reflexivity|].
  rewrite !append_String. f_equal. exact IH.
Qed.

Lemma fields_go_numeric t : forall r tok,
  all_numeric t = true ->
  Go.fields_go (t ++ r)%string 0 tok = Go.fields_go r 0 (tok ++ t)%string.
Proof.
  induction t as [|c t IH]; intros r tok Hn.
  - rewrite append_empty_r. reflexivity.
  - cbn [all_numeric] in Hn. apply andb_true_iff in Hn as [Hc Ht].
    rewrite append_String. cbn [Go.fields_go].
    rewrite (space_width_numeric c (t ++ r)%string Hc).
    rewrite IH by exact Ht.
    rewrite append_assoc. reflexivity.
Qed.

(** A value that reads as an integer once trimmed has one token. *)
Lemma Atoi_TrimSpace_Fields s n :
  Go.Atoi (Go.TrimSpace s) = (n, false) ->
  Go.Fields s = [Go.TrimSpace s].
Proof.
  intros Ha. apply Atoi_numeric in Ha as [Hne Hnum].
  unfold Go.Fields. rewrite fields_go_leading.
  unfold Go.TrimSpace in *.
  destruct (trim_right_space_split (Go.trim_left_go s 0)) as (r & Hs & Hr).
  rewrite Hs at 1. rewrite fields_go_numeric by exact Hnum.
  rewrite fields_go_trailing by exact Hr. simpl.
  destruct (Go.trim_right_space (Go.trim_left_go s 0)); [congruence|].
  reflexivity.
Qed.

(** ** The rows of the move analysis *)

Section AnalysisProperties.
Context `{FloatParser}.

Lemma parseMoveAnalysis_loop_rows rows : forall ply moves,
  parseMoveAnalysis_loop rows ply moves
  = moves ++ flat_map (rowOption ply) rows.
Proof.
  induction rows as [|row rows IH]; intros ply moves.
  - simpl. rewrite app_nil_r. reflexivity.
  - cbn [parseMoveAnalysis_loop flat_map]. unfold rowOption at 1.
    destruct (length (Go.Fields row) <? 10)%nat.
    + apply IH.
    + rewrite IH, <- app_assoc. reflexivity.
Qed.

(** A row of ten tokens or more is not the value the ply depth is read
    from, so it is among the rows the loop runs over. *)
Lemma plyAndRows_keeps row values :
  In row values -> (10 <= length (Go.Fields row))%nat ->
  In row (plyAndRows values).2.
Proof.
  unfold plyAndRows. destruct values as [|first rest]; [intros []|].
  intros Hin Hlen.
  destruct (Go.Atoi (Go.TrimSpace first)) as [depth [|]] eqn:Ha;
    [exact Hin|].
  destruct Hin as [->|Hin]; [|exact Hin].
  apply Atoi_TrimSpace_Fields in Ha. rewrite Ha in Hlen. simpl in Hlen. lia.
Qed.

Lemma parseLuck_Analysis node mr :
  Analysis (parseLuck node mr) = Analysis mr.
Proof.
  unfold parseLuck. destruct (String.eqb _ _); [reflexivity|].
  destruct (length _ <? 2)%nat; reflexivity.
Qed.

Lemma parseSkill_Analysis node mr :
  Analysis (parseSkill node mr) = Analysis mr.
Proof.
  unfold parseSkill. destruct (String.eqb _ _); [reflexivity|].
  destruct (length _ <? 2)%nat; reflexivity.
Qed.

Lemma parseLuck_CubeAnalysis node mr :
  CubeAnalysis_ (parseLuck node mr) = CubeAnalysis_ mr.
Proof.
  unfold parseLuck. destruct (String.eqb _ _); [reflexivity|].
  destruct (length _ <? 2)%nat; reflexivity.
Qed.

Lemma parseSkill_CubeAnalysis node mr :
  CubeAnalysis_ (parseSkill node mr) = CubeAnalysis_ mr.
Proof.
  unfold parseSkill. destruct (String.eqb _ _); [reflexivity|].
  destruct (length _ <? 2)%nat; reflexivity.
Qed.

Lemma parseLuck_Dice node mr :
  Dice (parseLuck node mr) = Dice mr.
Proof.
  unfold parseLuck. destruct (String.eqb _ _); [reflexivity|].
  destruct (length _ <? 2)%nat; reflexivity.
Qed.

Lemma parseSkill_Dice node mr :
  Dice (parseSkill node mr) = Dice mr.
Proof.
  unfold parseSkill. destruct (String.eqb _ _); [reflexivity|].
  destruct (length _ <? 2)%nat; reflexivity.
Qed.

Lemma parseLuck_Type node mr :
  Type_ (parseLuck node mr) = Type_ mr.
Proof.
  unfold parseLuck. destruct (String.eqb _ _); [reflexivity|].
  destruct (length _ <? 2)%nat; reflexivity.
Qed.

Lemma parseSkill_Type node mr :
  Type_ (parseSkill node mr) = Type_ mr.
Proof.
  unfold parseSkill. destruct (String.eqb _ _); [reflexivity|].
  destruct (length _ <? 2)%nat; reflexivity.
Qed.

Lemma parseCubeAnalysis_Analysis node mr :
  Analysis (parseCubeAnalysis node mr) = Analysis mr.
Proof.
  unfold parseCubeAnalysis. destruct (propertyValues node "DA"); [reflexivity|].
  destruct (length _ <? 13)%nat; reflexivity.
Qed.

Lemma parseCubeAnalysis_Dice node mr :
  Dice (parseCubeAnalysis node mr) = Dice mr.
Proof.
  unfold parseCubeAnalysis. destruct (propertyValues node "DA"); [reflexivity|].
  destruct (length _ <? 13)%nat; reflexivity.
Qed.

Lemma parseCubeAnalysis_Type node mr :
  Type_ (parseCubeAnalysis node mr) = Type_ mr.
Proof.
  unfold parseCubeAnalysis. destruct (propertyValues node "DA"); [reflexivity|].
  destruct (length _ <? 13)%nat; reflexivity.
Qed.

Lemma parseMoveAnalysis_Dice node mr :
  Dice (parseMoveAnalysis node mr) = Dice mr.
Proof.
  unfold parseMoveAnalysis. destruct (propertyValues node "A"); [reflexivity|].
  destruct (plyAndRows _); reflexivity.
Qed.

Lemma parseMoveAnalysis_Type node mr :
  Type_ (parseMoveAnalysis node mr) = Type_ mr.
Proof.
  unfold parseMoveAnalysis. destruct (propertyValues node "A"); [reflexivity|].
  destruct (plyAndRows _); reflexivity.
Qed.

Lemma propertyValues_hasProperty node name v vs :
  propertyValues node name = v :: vs -> hasProperty node name = true.
Proof.
  unfold propertyValues, hasProperty.
  destruct (Properties node !! name); [reflexivity|discriminate].
Qed.

(** The analysis and the cube analysis of the record [processMove]
    appends are those [parseMoveAnalysis] and [parseCubeAnalysis] read. *)
Lemma moveRecordOf_Analysis node player moveStr comment v vs :
  propertyValues node "A" = v :: vs ->
  exists mr, Analysis (moveRecordOf node player moveStr comment)
             = Analysis (parseMoveAnalysis node mr).
Proof.
  intros HA. unfold moveRecordOf.
  rewrite (propertyValues_hasProperty _ _ _ _ HA).
  match goal with
  | |- context [parseMoveAnalysis node ?m] => exists m
  end.
  destruct (hasProperty node "SK"), (hasProperty node "LU"),
    (hasProperty node "DA");
    rewrite ?parseSkill_Analysis, ?parseLuck_Analysis,
      ?parseCubeAnalysis_Analysis; reflexivity.
Qed.

Lemma moveRecordOf_CubeAnalysis node player moveStr comment v vs :
  propertyValues node "DA" = v :: vs ->
  exists mr, CubeAnalysis_ (moveRecordOf node player moveStr comment)
             = CubeAnalysis_ (parseCubeAnalysis node mr)
             /\ Type_ mr = Type_ (moveRecordOf node player moveStr comment).
Proof.
  intros HA. unfold moveRecordOf.
  rewrite (propertyValues_hasProperty _ _ _ _ HA).
  match goal with
  | |- context [parseCubeAnalysis node ?m] => exists m
  end.
  destruct (hasProperty node "SK"), (hasProperty node "LU");
    rewrite ?parseSkill_CubeAnalysis, ?parseLuck_CubeAnalysis,
      ?parseSkill_Type, ?parseLuck_Type, ?parseCubeAnalysis_Type;
    split; reflexivity.
Qed.

End AnalysisProperties.

(** The arithmetic of [float32] on the parsed values: 1 - 0.5 and
    1 - 0.25. *)
Example float32_examples :
  f32_sub f32_one (float32_of_float64 f_half) = float32_of_float64 f_half
  /\ f32_sub f32_one (float32_of_float64 f_quarter)
     = S754_finite false 12582912 (-24).
Proof. split; reflexivity. Qed.

(** C1: for every row of the A property that splits into at least 10
    tokens, the record [processMove] appends carries a move option whose
    own total-win, gammon-win and backgammon-win rates are tokens 4, 5 and
    6, whose opponent gammon-win and backgammon-win rates are tokens 7 and
    8, whose equity is token 9, and whose opponent total-win rate is 1
    minus the own total-win rate that was parsed. *)
Theorem move_row_layout `{FloatParser} node player moveStr comment row parts :
  In row (propertyValues node "A") ->
  Go.Fields row = parts ->
  (10 <= length parts)%nat ->
  exists ma opt,
    Analysis (moveRecordOf node player moveStr comment) = Some ma
    /\ In opt (Moves ma)
    /\ Player1WinRate opt = (parseFloat32 (part parts 4)).1
    /\ Player1GammonRate opt = (parseFloat32 (part parts 5)).1
    /\ Player1BackgammonRate opt = (parseFloat32 (part parts 6)).1
    /\ Player2GammonRate opt = (parseFloat32 (part parts 7)).1
    /\ Player2BackgammonRate opt = (parseFloat32 (part parts 8)).1
    /\ Equity opt = (ParseFloat (part parts 9) 64).1
    /\ Player2WinRate opt = f32_sub f32_one (Player1WinRate opt).
Proof.
  intros Hin Hparts Hlen.
  destruct (propertyValues node "A") as [|v vs] eqn:HA; [destruct Hin|].
  destruct (moveRecordOf_Analysis node player moveStr comment v vs HA)
    as (mr & ->).
  unfold parseMoveAnalysis. rewrite HA.
  assert (Hkeep : In row (plyAndRows (v :: vs)).2)
    by (apply plyAndRows_keeps; [exact Hin|rewrite Hparts; exact Hlen]).
  destruct (plyAndRows (v :: vs)) as [ply rows]. simpl in Hkeep.
  eexists. exists (moveOptionOf parts ply).
  split; [reflexivity|]. split; [|repeat split].
  cbn [Moves]. rewrite parseMoveAnalysis_loop_rows. simpl.
  apply in_flat_map. exists row. split; [exact Hkeep|].
  unfold rowOption. rewrite Hparts.
  replace (length parts <? 10)%nat with false
    by (symmetry; apply Nat.ltb_ge; exact Hlen).
  left. reflexivity.
Qed.

(** C5: a row that splits into fewer than 10 tokens adds no move option,
    wherever it stands among the rows: the loop goes on with the rows that
    follow and returns what it returns without that row; and
    [processMove] returns no error. *)
Theorem short_row_skipped `{FloatParser} before row after ply moves
    node game player moveStr comment :
  (length (Go.Fields row) < 10)%nat ->
  parseMoveAnalysis_loop [row] ply moves = moves
  /\ parseMoveAnalysis_loop (before ++ row :: after) ply moves
     = parseMoveAnalysis_loop (before ++ after) ply moves
  /\ (processMove node game player moveStr comment).2 = None.
Proof.
  intros Hlen.
  assert (Hrow : rowOption ply row = []).
  { unfold rowOption.
    replace (length (Go.Fields row) <? 10)%nat with true
      by (symmetry; apply Nat.ltb_lt; exact Hlen).
    reflexivity. }
  split; [|split; [|reflexivity]].
  - rewrite parseMoveAnalysis_loop_rows. simpl. rewrite Hrow.
    simpl. apply app_nil_r.
  - rewrite !parseMoveAnalysis_loop_rows, !flat_map_app. simpl.
    rewrite Hrow. reflexivity.
Qed.

(** C2: when the first value of the DA property splits into at least 13
    tokens, the record [processMove] appends carries a cube analysis whose
    own win, opponent win, opponent gammon-win, own gammon-win and own
    backgammon-win rates are tokens 7 to 11 in this order, whose cubeless
    equity is token 12, whose cubeful no-double equity is token 13 if the
    row has at least 16 tokens and zero otherwise, and whose double/take
    and double/pass equities are zero; the values after the first are not
    looked at. *)
Theorem cube_row_layout `{FloatParser} node player moveStr comment
    da0 rest parts :
  propertyValues node "DA" = da0 :: rest ->
  Go.Fields da0 = parts ->
  (13 <= length parts)%nat ->
  (exists ca,
     CubeAnalysis_ (moveRecordOf node player moveStr comment) = Some ca
     /\ CaPlayer1WinRate ca = (parseFloat32 (part parts 7)).1
     /\ CaPlayer2WinRate ca = (parseFloat32 (part parts 8)).1
     /\ CaPlayer2GammonRate ca = (parseFloat32 (part parts 9)).1
     /\ CaPlayer1GammonRate ca = (parseFloat32 (part parts 10)).1
     /\ CaPlayer1BackgammonRate ca = (parseFloat32 (part parts 11)).1
     /\ CubelessEquity ca = (ParseFloat (part parts 12) 64).1
     /\ CubefulNoDouble ca
        = (if (16 <=? length parts)%nat
           then (ParseFloat (part parts 13) 64).1 else f_zero)
     /\ CubefulDoubleTake ca = f_zero
     /\ CubefulDoublePass ca = f_zero)
  /\ (forall node' rest' mr,
        propertyValues node' "DA" = da0 :: rest' ->
        parseCubeAnalysis node' mr = parseCubeAnalysis node mr).
Proof.
  intros HDA Hparts Hlen. split.
  - destruct (moveRecordOf_CubeAnalysis node player moveStr comment _ _ HDA)
      as (mr & -> & _).
    unfold parseCubeAnalysis. rewrite HDA, Hparts.
    replace (length parts <? 13)%nat with false
      by (symmetry; apply Nat.ltb_ge; exact Hlen).
    eexists. split; [reflexivity|]. repeat split.
  - intros node' rest' mr HDA'. unfold parseCubeAnalysis.
    rewrite HDA, HDA'. reflexivity.
Qed.

Lemma move_row_layout_witness :
  In sampleRow (propertyValues sampleNode "A")
  /\ (10 <= length (Go.Fields sampleRow))%nat
  /\ exists ma opt,
       Analysis (@moveRecordOf sampleFloats sampleNode 1 "52lpab" "")
       = Some ma
       /\ In opt (Moves ma)
       /\ Player1WinRate opt
          = (@parseFloat32 sampleFloats (part (Go.Fields sampleRow) 4)).1
       /\ Player1GammonRate opt
          = (@parseFloat32 sampleFloats (part (Go.Fields sampleRow) 5)).1
       /\ Player1BackgammonRate opt
          = (@parseFloat32 sampleFloats (part (Go.Fields sampleRow) 6)).1
       /\ Player2GammonRate opt
          = (@parseFloat32 sampleFloats (part (Go.Fields sampleRow) 7)).1
       /\ Player2BackgammonRate opt
          = (@parseFloat32 sampleFloats (part (Go.Fields sampleRow) 8)).1
       /\ Equity opt = (sampleFloats (part (Go.Fields sampleRow) 9) 64).1
       /\ Player2WinRate opt = f32_sub f32_one (Player1WinRate opt).
Proof.
  split; [vm_compute; right; left; reflexivity|].
  split; [vm_compute; lia|].
  apply (@move_row_layout sampleFloats sampleNode 1 "52lpab" "" sampleRow
           (Go.Fields sampleRow)).
  - vm_compute. right. left. reflexivity.
  - reflexivity.
  - vm_compute. lia.
Defined.

Lemma short_row_skipped_witness :
  (length (Go.Fields "lpab E ver 3") < 10)%nat
  /\ @parseMoveAnalysis_loop sampleFloats ["lpab E ver 3"] 3 [] = []
  /\ @parseMoveAnalysis_loop sampleFloats
       ([sampleRow] ++ "lpab E ver 3" :: [sampleRow]) 3 []
     = @parseMoveAnalysis_loop sampleFloats
         ([sampleRow] ++ [sampleRow]) 3 []
  /\ (@processMove sampleFloats sampleNode Game_new 1 "52lpab" "").2 = None.
Proof.
  split; [vm_compute; lia|].
  apply (@short_row_skipped sampleFloats [sampleRow] "lpab E ver 3"
           [sampleRow] 3 [] sampleNode Game_new 1 "52lpab" "").
  vm_compute. lia.
Defined.

Lemma cube_row_layout_witness :
  propertyValues sampleNode "DA" = [sampleCubeRow; "E ver"]
  /\ (13 <= length (Go.Fields sampleCubeRow))%nat
  /\ (exists ca,
        CubeAnalysis_ (@moveRecordOf sampleFloats sampleNode 1 "double" "")
        = Some ca
        /\ CaPlayer1WinRate ca
           = (@parseFloat32 sampleFloats (part (Go.Fields sampleCubeRow) 7)).1
        /\ CaPlayer2WinRate ca
           = (@parseFloat32 sampleFloats (part (Go.Fields sampleCubeRow) 8)).1
        /\ CaPlayer2GammonRate ca
           = (@parseFloat32 sampleFloats (part (Go.Fields sampleCubeRow) 9)).1
        /\ CaPlayer1GammonRate ca
           = (@parseFloat32 sampleFloats (part (Go.Fields sampleCubeRow) 10)).1
        /\ CaPlayer1BackgammonRate ca
           = (@parseFloat32 sampleFloats (part (Go.Fields sampleCubeRow) 11)).1
        /\ CubelessEquity ca
           = (sampleFloats (part (Go.Fields sampleCubeRow) 12) 64).1
        /\ CubefulNoDouble ca
           = (if (16 <=? length (Go.Fields sampleCubeRow))%nat
              then (sampleFloats (part (Go.Fields sampleCubeRow) 13) 64).1
              else f_zero)
        /\ CubefulDoubleTake ca = f_zero
        /\ CubefulDoublePass ca = f_zero)
     /\ (forall node' rest' mr,
           propertyValues node' "DA" = sampleCubeRow :: rest' ->
           @parseCubeAnalysis sampleFloats node' mr
           = @parseCubeAnalysis sampleFloats sampleNode mr).
Proof.
  split; [vm_compute; reflexivity|].
  split; [vm_compute; lia|].
  apply (@cube_row_layout sampleFloats sampleNode 1 "double" ""
           sampleCubeRow ["E ver"] (Go.Fields sampleCubeRow)).
  - vm_compute. reflexivity.
  - reflexivity.
  - vm_compute. lia.
Defined.

(** ** The dice *)

Lemma Atoi_string_of_byte c :
  (Go.Atoi (Go.string_of_byte c)).1
  = if Go.is_digit c then Go.byte_val c - 48 else 0.
Proof.
  destruct c as [[] [] [] [] [] [] [] []]; vm_compute; reflexivity.
Qed.

Lemma die_digit c : 0 <= (Go.Atoi (Go.string_of_byte c)).1 <= 9.
Proof.
  rewrite Atoi_string_of_byte. unfold Go.is_digit.
  destruct (_ && _) eqn:E; lia.
Qed.

Lemma diceOf_digits s : Forall (fun d => 0 <= d <= 9) (diceOf s).
Proof.
  unfold diceOf. repeat first [apply Forall_nil_2 | apply Forall_cons_2];
    apply die_digit.
Qed.

Lemma zeros_digits n : Forall (fun d => 0 <= d <= 9) (zeros n).
Proof. unfold zeros. induction n; simpl; constructor; (lia || assumption). Qed.

Section DiceProperties.
Context `{FloatParser}.

Lemma moveRecordOf_Dice node player moveStr comment :
  Dice (moveRecordOf node player moveStr comment) = zeros 2
  \/ Dice (moveRecordOf node player moveStr comment) = diceOf moveStr.
Proof.
  unfold moveRecordOf.
  destruct (hasProperty node "SK"), (hasProperty node "LU"),
    (hasProperty node "DA"), (hasProperty node "A");
    rewrite ?parseSkill_Dice, ?parseLuck_Dice, ?parseCubeAnalysis_Dice,
      ?parseMoveAnalysis_Dice;
    repeat match goal with
           | |- context [if ?c then _ else _] => destruct c
           end; auto.
Qed.

Lemma nodeRecords_dice node : Forall diceAreDigits (nodeRecords node).
Proof.
  unfold nodeRecords, processNode, processMove, processSetBoard, appendMove.
  assert (Hmove : forall player moveStr comment,
             diceAreDigits (moveRecordOf node player moveStr comment)).
  { intros player moveStr comment. unfold diceAreDigits.
    destruct (moveRecordOf_Dice node player moveStr comment) as [-> | ->];
      [apply zeros_digits|apply diceOf_digits]. }
  repeat match goal with
         | |- context [if ?c then _ else _] => destruct c
         end;
    cbn [fst snd GameMoves set_GameMoves Game_new app];
    repeat first [apply Forall_nil_2 | apply Forall_cons_2];
    first [apply Hmove | apply die_digit | lia].
Qed.

Lemma treeRecords_dice : forall node, Forall diceAreDigits (treeRecords node).
Proof.
  induction node as [ps|ps child rest IH] using SGFNode_chain_ind.
  - simpl. rewrite app_nil_r. apply nodeRecords_dice.
  - simpl. apply Forall_app. split; [apply nodeRecords_dice|exact IH].
Qed.

End DiceProperties.

Section DiceOfConversion.
Context `{FloatParser}.

Lemma parseMatchInfo_GameMoves mi m g :
  GameMoves (parseMatchInfo mi m g).2 = GameMoves g.
Proof.
  unfold parseMatchInfo. generalize (Go.Split mi "][").
  intros parts. revert m g.
  induction parts as [|p parts IH]; intros m g; [reflexivity|].
  cbn [fold_left].
  destruct (parseMatchInfo_part p (m, g)) as [m1 g1] eqn:E.
  rewrite IH. unfold parseMatchInfo_part in E.
  destruct (Go.SplitN2 (Go.Trim p "[]") ":") as [|k [|v [|]]];
    try (injection E as _ <-; reflexivity).
  destruct (Go.Atoi v) as [n err].
  repeat match type of E with
         | context [if ?c then _ else _] => destruct c
         end; injection E as _ <-; reflexivity.
Qed.

Lemma parseRules_GameMoves ru g : GameMoves (parseRules ru g) = GameMoves g.
Proof.
  unfold parseRules. generalize (Go.Split ru ":"). intros rules.
  assert (Hfold : forall g0,
             GameMoves (fold_left (fun g1 rule => parseRules_rule rule g1)
                          rules g0) = GameMoves g0).
  { induction rules as [|r rules IH]; intros g0; [reflexivity|].
    cbn [fold_left]. rewrite IH. unfold parseRules_rule.
    repeat match goal with
           | |- context [if ?c then _ else _] => destruct c
           end; reflexivity. }
  destruct (String.eqb _ _); [cbn [GameMoves set_Variation]|]; apply Hfold.
Qed.

Lemma parseResult_GameMoves re g : GameMoves (parseResult re g) = GameMoves g.
Proof.
  unfold parseResult.
  destruct (Go.len re <? 3); [reflexivity|].
  destruct (Go.Atoi _) as [points err].
  repeat match goal with
         | |- context [if ?c then _ else _] => destruct c
         end; reflexivity.
Qed.

Lemma extractMetadata_GameMoves node m g :
  GameMoves (extractMetadata node m g).1.2 = GameMoves g.
Proof.
  unfold extractMetadata.
  set (m1 := setIfPresent node "GC" _ _). clearbody m1.
  assert (HMI : GameMoves
                  (if String.eqb (getProperty node "MI") ""
                   then (m1, g)
                   else parseMatchInfo (getProperty node "MI") m1 g).2
                = GameMoves g)
    by (destruct (String.eqb _ _);
        [reflexivity|apply parseMatchInfo_GameMoves]).
  destruct (if String.eqb (getProperty node "MI") "" then (m1, g)
            else parseMatchInfo (getProperty node "MI") m1 g) as [m2 g2].
  cbn [fst snd] in *.
  repeat match goal with
         | |- context [if ?c then _ else _] => destruct c
         end;
    rewrite ?parseResult_GameMoves; cbn [GameMoves set_AutoDoubles];
    rewrite ?parseRules_GameMoves; exact HMI.
Qed.

Lemma gameOfTree_GameMoves root :
  GameMoves (gameOfTree root) = treeRecords root.
Proof.
  unfold gameOfTree. cbn [GameMoves set_GameMoves].
  rewrite extractMetadata_GameMoves. reflexivity.
Qed.

Lemma diceOf_digitAt s : diceOf s = [digitAt s 0; digitAt s 1].
Proof.
  unfold diceOf, digitAt. rewrite !Atoi_string_of_byte. reflexivity.
Qed.

(** The type and the dice of the record of a move, by its value. *)
Lemma moveRecordOf_type_dice node player moveStr comment :
  (Type_ (moveRecordOf node player moveStr comment) = MoveTypeNormal
   /\ Dice (moveRecordOf node player moveStr comment)
      = if 2 <=? Go.len moveStr
        then [digitAt moveStr 0; digitAt moveStr 1] else [0; 0])
  \/ ((Type_ (moveRecordOf node player moveStr comment) = MoveTypeDouble
       \/ Type_ (moveRecordOf node player moveStr comment) = MoveTypeTake
       \/ Type_ (moveRecordOf node player moveStr comment) = MoveTypeDrop)
      /\ Dice (moveRecordOf node player moveStr comment) = [0; 0]).
Proof.
  unfold moveRecordOf.
  destruct (hasProperty node "SK"), (hasProperty node "LU"),
    (hasProperty node "DA"), (hasProperty node "A");
    rewrite ?parseSkill_Dice, ?parseLuck_Dice, ?parseCubeAnalysis_Dice,
      ?parseMoveAnalysis_Dice, ?parseSkill_Type, ?parseLuck_Type,
      ?parseCubeAnalysis_Type, ?parseMoveAnalysis_Type;
    (destruct (String.eqb moveStr "double");
     [right; split; [left; reflexivity|reflexivity]|]);
    (destruct (String.eqb moveStr "take");
     [right; split; [right; left; reflexivity|reflexivity]|]);
    (destruct (String.eqb moveStr "drop" || String.eqb moveStr "pass");
     [right; split; [right; right; reflexivity|reflexivity]|]);
    left; (destruct (2 <=? Go.len moveStr); [|split; reflexivity]);
    (destruct (2 <? Go.len moveStr));
    (split; [reflexivity|]); cbn [Dice set_Dice parseEncodedMove set_Move
                                     set_MoveString];
    apply diceOf_digitAt.
Qed.

Lemma moveRecordOf_diceRead node player comment :
  diceRead node (moveRecordOf node player (moveValue node) comment).
Proof.
  unfold diceRead.
  destruct (moveRecordOf_type_dice node player (moveValue node) comment)
    as [[-> ->]|[[-> | [-> | ->]] ->]]; reflexivity.
Qed.

(** The dice of each record of a node are read from the value of the
    node. *)
Lemma nodeRecords_diceRead node :
  Forall (fun mr => diceAreDigits mr /\ diceRead node mr) (nodeRecords node).
Proof.
  pose proof (nodeRecords_dice node) as Hdigits.
  apply Forall_and. split; [exact Hdigits|]. clear Hdigits.
  pose proof (moveRecordOf_diceRead node) as Hmove. unfold moveValue in Hmove.
  unfold nodeRecords, processNode, processMove, processSetBoard, appendMove.
  destruct (String.eqb (getProperty node "B") "") eqn:HB; cbn [negb].
  - destruct (String.eqb (getProperty node "W") "") eqn:HW; cbn [negb].
    + repeat match goal with
             | |- context [if ?c then _ else _] => destruct c
             end;
        cbn [fst snd GameMoves set_GameMoves Game_new app];
        repeat first [apply Forall_nil_2 | apply Forall_cons_2];
        unfold diceRead; cbn [Type_ Dice set_Type_ set_Dice set_Comment
                                set_CubeValue set_CubeOwner set_Position_
                                MoveRecord_zero];
        first [reflexivity | apply diceOf_digitAt].
    + cbn [fst snd GameMoves set_GameMoves Game_new app].
      repeat first [apply Forall_nil_2 | apply Forall_cons_2]. apply Hmove.
  - cbn [fst snd GameMoves set_GameMoves Game_new app].
    repeat first [apply Forall_nil_2 | apply Forall_cons_2]. apply Hmove.
Qed.

Lemma treeRecords_diceRead : forall root,
  Forall (fun mr =>
            diceAreDigits mr
            /\ exists node, node ∈ chainNodes root /\ mr ∈ nodeRecords node
                            /\ diceRead node mr) (treeRecords root).
Proof.
  induction root as [ps|ps child rest IH] using SGFNode_chain_ind.
  - simpl. rewrite app_nil_r. apply Forall_forall. intros mr Hin.
    pose proof (nodeRecords_diceRead (mkNode ps [])) as Hn.
    rewrite Forall_forall in Hn. destruct (Hn mr Hin) as [Hd Hr].
    split; [exact Hd|]. exists (mkNode ps []).
    split; [constructor|]. split; assumption.
  - simpl. apply Forall_app. split.
    + apply Forall_forall. intros mr Hin.
      pose proof (nodeRecords_diceRead (mkNode ps (child :: rest))) as Hn.
      rewrite Forall_forall in Hn. destruct (Hn mr Hin) as [Hd Hr].
      split; [exact Hd|]. exists (mkNode ps (child :: rest)).
      split; [constructor|]. split; assumption.
    + eapply Forall_impl; [exact IH|]. cbn beta.
      intros mr [Hd (node & Hnode & Hin & Hr)]. split; [exact Hd|].
      exists node. split; [constructor; exact Hnode|].
      split; assumption.
Qed.

(** C9, as the code has it: every record in a converted match has dice
    that are decimal digits, values in 0..9, and it is a record of a node
    on the chain of its game tree from whose value its dice are read.  A
    die is the digit that stands at its place in the value of the move or
    of DI, and 0 when the byte there is not a digit or the record carries
    no dice. *)
Theorem converted_dice_are_digits nodes m :
  convertNodesToMatch nodes = (Some m, None) ->
  Forall2 (fun root game =>
             Forall (fun mr =>
                       diceAreDigits mr
                       /\ exists node,
                            node ∈ chainNodes root /\ mr ∈ nodeRecords node
                            /\ diceRead node mr) (GameMoves game))
    nodes (Games m).
Proof.
  destruct nodes as [|node nodes]; [discriminate|].
  destruct (convertNodesToMatch_games node nodes) as (m' & -> & HG).
  intros [= <-]. rewrite HG. generalize (node :: nodes). intros roots.
  induction roots as [|root roots IH]; [constructor|].
  cbn [map]. constructor; [|exact IH].
  rewrite gameOfTree_GameMoves. apply treeRecords_diceRead.
Qed.

End DiceOfConversion.

Lemma converted_dice_are_digits_witness :
  exists m,
    @convertNodesToMatch sampleFloats [sampleNode] = (Some m, None)
    /\ map (fun game => map Dice (GameMoves game)) (Games m) = [[[5; 2]]]
    /\ Forall2 (fun root game =>
                  Forall (fun mr =>
                            diceAreDigits mr
                            /\ exists node,
                                 node ∈ chainNodes root
                                 /\ mr ∈ @nodeRecords sampleFloats node
                                 /\ diceRead node mr) (GameMoves game))
         [sampleNode] (Games m).
Proof.
  eexists. split; [vm_compute; reflexivity|].
  split; [vm_compute; reflexivity|].
  apply (@converted_dice_are_digits sampleFloats [sampleNode]).
  vm_compute. reflexivity.
Defined.

(** C9 as it is stated fails: the dice are not checked against 1..6.  The
    move B[79yu] is converted to a checker move with the dice 7 and 9, and
    the property DI[00] to a dice-set record with the dice 0 and 0. *)
Lemma dice_outside_1_to_6 :
  exists m game mr,
    @ParseSGF sampleFloats (runes_of "(;B[79yu];DI[00])") EOF
    = Some (Some m, None)
    /\ In game (Games m) /\ In mr (GameMoves game)
    /\ Type_ mr = MoveTypeNormal /\ Dice mr = [7; 9]
    /\ ~ diceInRange mr.
Proof.
  eexists. eexists. eexists.
  split; [vm_compute; reflexivity|].
  split; [left; reflexivity|].
  split; [left; reflexivity|].
  split; [reflexivity|]. split; [reflexivity|].
  unfold diceInRange. cbn [Dice]. intros HF.
  apply Forall_cons_1 in HF as [H7 _]. lia.
Qed.

(** ** Rendering and re-encoding a move *)

Lemma at_here x l : at_ (x :: l) 0 = x.
Proof. reflexivity. Qed.

Lemma at_next x l i : at_ (x :: l) (S i) = at_ l i.
Proof. reflexivity. Qed.

Lemma letter_facts p :
  0 <= p <= 23 ->
  exists c, pointToString p = String c ""
            /\ decodePoint c = p
            /\ Ascii.eqb c "/" = false /\ Ascii.eqb c " " = false.
Proof.
  intros Hp. rewrite <- (Z2Nat.id p) by lia.
  assert (Hn : (Z.to_nat p < 24)%nat) by lia.
  generalize dependent (Z.to_nat p). intros n Hn.
  do 24 (destruct n as [|n];
         [eexists; repeat split; vm_compute; reflexivity|]).
  lia.
Qed.

Lemma renderedCodes_letter c s :
  Ascii.eqb c "/" = false -> Ascii.eqb c " " = false ->
  renderedCodes (String c s) = String c (renderedCodes s).
Proof. intros H1 H2. cbn [renderedCodes]. rewrite H1, H2. reflexivity. Qed.

Lemma renderedCodes_slash s : renderedCodes (String "/" s) = renderedCodes s.
Proof. reflexivity. Qed.

Lemma renderedCodes_space s : renderedCodes (String " " s) = renderedCodes s.
Proof. reflexivity. Qed.

Ltac at_simpl := rewrite ?at_next, ?at_here.

Ltac point_letter p Hp :=
  let c := fresh "c" in
  let Hs := fresh "Hs" in
  let Hd := fresh "Hd" in
  let H1 := fresh "H1" in
  let H2 := fresh "H2" in
  let Hn := fresh "Hn" in
  destruct (letter_facts p Hp) as (c & Hs & Hd & H1 & H2);
  assert (Hn : (p =? -1) = false) by lia;
  rewrite ?Hn, ?Hs.

(** The arrays [parseEncodedMove] builds from one to four pairs of board
    points are reproduced when their rendering for side 0 is re-encoded. *)
Lemma round_trip_of_pairs points :
  Forall (fun p => 0 <= p <= 23) points ->
  In (length points) [2; 4; 6; 8]%nat ->
  reencode (FormatMove (builtMove points) 0) = builtMove points.
Proof.
  intros Hall Hlen.
  destruct Hlen as [Hlen|[Hlen|[Hlen|[Hlen|[]]]]];
    repeat (destruct points as [|? points]; try discriminate Hlen);
    clear Hlen;
    repeat match goal with
           | H : Forall _ (_ :: _) |- _ =>
             apply Forall_cons_1 in H; destruct H as [? H]
           end;
    unfold builtMove;
    cbn [length Nat.ltb Nat.leb app Nat.sub zeros repeat];
    unfold FormatMove; at_simpl;
    cbn [FormatMove_loop Nat.add Nat.ltb Nat.leb]; at_simpl;
    cbn [Z.eqb Pos.eqb];
    repeat match goal with
           | H : 0 <= ?p <= 23 |- _ => point_letter p H; clear H
           end;
    cbv [String.append]; unfold reencode;
    repeat first [ rewrite renderedCodes_letter by assumption
                 | rewrite renderedCodes_slash
                 | rewrite renderedCodes_space ];
    unfold encodeInto;
    cbn [renderedCodes parseEncodedMove_loop Nat.ltb Nat.leb Nat.add];
    repeat match goal with
           | H : decodePoint _ = _ |- _ => rewrite H; clear H
           end;
    reflexivity.
Qed.

Lemma builtMove_terminated points :
  Forall (fun p => 0 <= p <= 23) points ->
  In (length points) [2; 4; 6]%nat ->
  terminatedMove (builtMove points).
Proof.
  intros Hall Hlen. unfold terminatedMove, builtMove.
  assert (Hlt : (length points <? 8)%nat = true)
    by (apply Nat.ltb_lt; simpl in Hlen; lia).
  rewrite Hlt. split.
  - rewrite length_app. cbn [length]. unfold zeros.
    rewrite repeat_length. simpl in Hlen. lia.
  - exists (Nat.div2 (length points)).
    assert (Hk : (2 * Nat.div2 (length points))%nat = length points)
      by (destruct Hlen as [<-|[<-|[<-|[]]]]; reflexivity).
    rewrite Hk. split; [simpl in Hlen; lia|]. split.
    + intros i Hi. unfold at_. rewrite lookup_app_l by exact Hi.
      destruct (points !! i) as [x|] eqn:Hx.
      * rewrite Forall_forall in Hall. simpl.
        assert (Hr := Hall x (list_elem_of_lookup_2 _ _ _ Hx)). simpl in Hr. lia.
      * apply lookup_ge_None in Hx. lia.
    + unfold at_. rewrite lookup_app_r by lia.
      rewrite Nat.sub_diag. reflexivity.
Qed.

(** C4, as the code has it: an array of one to three pairs of board points
    0..23, followed by -1 and then by zeros, which is the terminated array
    [parseEncodedMove] builds, is reproduced when its rendering for side 0
    is re-encoded. *)
Theorem built_move_round_trip points :
  Forall (fun p => 0 <= p <= 23) points ->
  In (length points) [2; 4; 6]%nat ->
  terminatedMove (builtMove points)
  /\ reencode (FormatMove (builtMove points) 0) = builtMove points.
Proof.
  intros Hall Hlen. split; [apply builtMove_terminated; assumption|].
  apply round_trip_of_pairs; [exact Hall|].
  simpl in *. tauto.
Qed.

Lemma built_move_round_trip_witness :
  Forall (fun p => 0 <= p <= 23) [11; 15; 0; 1]
  /\ terminatedMove (builtMove [11; 15; 0; 1])
  /\ reencode (FormatMove (builtMove [11; 15; 0; 1]) 0)
     = builtMove [11; 15; 0; 1].
Proof.
  assert (Hall : Forall (fun p => 0 <= p <= 23) [11; 15; 0; 1])
    by (repeat first [apply Forall_nil_2 | apply Forall_cons_2]; lia).
  split; [exact Hall|].
  apply (built_move_round_trip [11; 15; 0; 1] Hall).
  right. left. reflexivity.
Defined.

(** C4 as it is stated fails.  The bar is rendered as a word, which the
    decoder of letters does not read back, whether the slots after the
    terminator hold zeros, as [parseEncodedMove] leaves them, or -1.  An
    array of board points is not reproduced either when -1 fills the
    slots after the terminator, when it is rendered for side 1, or when it
    has no pair at all; and two arrays that differ after the terminator
    have the same rendering, so that no reading of the rendering
    reproduces both. *)
Lemma bar_point_not_read_back :
  terminatedMove [24; 20; -1; 0; 0; 0; 0; 0]
  /\ reencode (FormatMove [24; 20; -1; 0; 0; 0; 0; 0] 0)
     <> [24; 20; -1; 0; 0; 0; 0; 0]
  /\ terminatedMove [24; 20; -1; -1; -1; -1; -1; -1]
  /\ reencode (FormatMove [24; 20; -1; -1; -1; -1; -1; -1] 0)
     <> [24; 20; -1; -1; -1; -1; -1; -1]
  /\ reencode (FormatMove [5; 3; -1; -1; -1; -1; -1; -1] 0)
     = [5; 3; -1; 0; 0; 0; 0; 0]
  /\ reencode (FormatMove [5; 3; -1; 0; 0; 0; 0; 0] 1)
     = [18; 20; -1; 0; 0; 0; 0; 0]
  /\ reencode (FormatMove [-1; 0; 0; 0; 0; 0; 0; 0] 0)
     = [13; 14; 12; 14; 21; 4; -1; 0]
  /\ terminatedMove [5; 3; -1; -1; -1; -1; -1; -1]
  /\ terminatedMove [5; 3; -1; 0; 0; 0; 0; 0]
  /\ FormatMove [5; 3; -1; -1; -1; -1; -1; -1] 0
     = FormatMove [5; 3; -1; 0; 0; 0; 0; 0] 0.
Proof.
  assert (Hterm : forall a b rest,
             0 <= a <= 25 -> 0 <= b <= 25 -> length rest = 5%nat ->
             terminatedMove (a :: b :: -1 :: rest)).
  { intros a b rest Ha Hb Hrest.
    split; [simpl; rewrite Hrest; reflexivity|].
    exists 1%nat. split; [lia|]. split; [|reflexivity].
    intros [|[|i]] Hi; [rewrite ?at_next, ?at_here; lia..|lia]. }
  split; [apply Hterm; (lia || reflexivity)|].
  split; [vm_compute; discriminate|].
  split; [apply Hterm; (lia || reflexivity)|].
  split; [vm_compute; discriminate|].
  do 3 (split; [reflexivity|]).
  split; [apply Hterm; (lia || reflexivity)|].
  split; [apply Hterm; (lia || reflexivity)|].
  reflexivity.
Qed.

(** ** The rendering of the bar and of the off point *)

Lemma pointToString_cases :
  pointToString 24 = "bar" /\ pointToString 25 = "off"
  /\ forall p, p <> 24 -> p <> 25 ->
       pointToString p = Go.string_of_rune (Go.rune_of_int (97 + p)).
Proof.
  split; [reflexivity|]. split; [reflexivity|].
  intros p H24 H25. unfold pointToString.
  apply Z.eqb_neq in H24, H25. rewrite H24, H25. reflexivity.
Qed.

(** One turn of the loop of [FormatMove] for side 1: both points of the
    pair are mirrored before they are rendered. *)
Lemma FormatMove_loop_side_1 n i move result :
  at_ move i <> -1 ->
  FormatMove_loop (S n) i move 1 result
  = FormatMove_loop n (i + 2) move 1
      ((if (0 <? i)%nat then result ++ " " else result)
       ++ pointToString (Go.int_wrap (23 - at_ move i)) ++ "/"
       ++ pointToString (Go.int_wrap (23 - at_ move (i + 1))))%string.
Proof.
  intros Hne. cbn [FormatMove_loop].
  apply Z.eqb_neq in Hne. rewrite Hne. reflexivity.
Qed.

(** C3 fails on the code for side 1: the points are mirrored before the
    bar and the off point are looked for, so the bar, 24, becomes -1 and
    the off point, 25, becomes -2, and they are rendered as the two
    characters before 'a'.  The move B[31yt], from the bar to point 19, is
    rendered for side 1 as a backquote and e, where side 0 has the word
    bar; bearing off from point 5 is rendered as s and an underscore, where
    side 0 has the word off. *)
Theorem bar_mirrored_for_side_1 `{FloatParser} :
  FormatMove [24; 19; -1; 0; 0; 0; 0; 0] 1 = "`/e"
  /\ FormatMove [24; 19; -1; 0; 0; 0; 0; 0] 0 = "bar/t"
  /\ FormatMove [5; 25; -1; 0; 0; 0; 0; 0] 1 = "s/_"
  /\ FormatMove [5; 25; -1; 0; 0; 0; 0; 0] 0 = "f/off"
  /\ Move (moveRecordOf (mkNode ∅ []) 1 "31yt" "")
     = [24; 19; -1; 0; 0; 0; 0; 0]
  /\ MoveString (moveRecordOf (mkNode ∅ []) 1 "31yt" "") = "`/e".
Proof.
  do 4 (split; [reflexivity|]).
  split; vm_compute; reflexivity.
Qed.

(** * Further properties of the code *)

(** ** More on the character stream *)

(** After [peekChar] the next [readChar] is the one there would have been
    without it, and a second [peekChar] changes nothing. *)
Theorem peek_then_read p c p1 :
  peekChar p = Ok c p1 ->
  peekChar p1 = Ok c p1 /\ readChar p1 = readChar p.
Proof.
  unfold peekChar, readChar. destruct (hasChar p) eqn:Hh.
  - intros [= <- <-]. rewrite Hh. split; reflexivity.
  - destruct (reader p) as [|ch rest]; [discriminate|].
    intros [= <- <-]. simpl. split; reflexivity.
Qed.

Lemma peek_then_read_witness :
  peekChar (NewSGFParser (runes_of "(;") EOF)
  = Ok (rune "(") (mkParser (runes_of ";") EOF (rune "(") true)
  /\ peekChar (mkParser (runes_of ";") EOF (rune "(") true)
     = Ok (rune "(") (mkParser (runes_of ";") EOF (rune "(") true)
  /\ readChar (mkParser (runes_of ";") EOF (rune "(") true)
     = readChar (NewSGFParser (runes_of "(;") EOF).
Proof.
  split; [reflexivity|].
  apply (peek_then_read (NewSGFParser (runes_of "(;") EOF)). reflexivity.
Defined.

(** [skipWhitespace] passes a run of blanks and stops with the first rune
    that is no blank peeked at. *)
Theorem skipWhitespace_passes_blanks blanks c rest e ch fuel :
  Forall (fun b => is_blank b = true) blanks ->
  is_blank c = false ->
  (length blanks < fuel)%nat ->
  skipWhitespace fuel (mkParser (blanks ++ c :: rest) e ch false)
  = Ok tt (mkParser rest e c true).
Proof.
  revert ch fuel.
  induction blanks as [|b blanks IH]; intros ch fuel Hall Hc Hf.
  - destruct fuel as [|fuel]; [simpl in Hf; lia|].
    simpl. rewrite Hc. reflexivity.
  - apply Forall_cons_1 in Hall as [Hb Hall].
    destruct fuel as [|fuel]; [simpl in Hf; lia|].
    simpl. rewrite Hb.
    apply IH; [exact Hall|exact Hc|simpl in Hf; lia].
Qed.

Lemma skipWhitespace_passes_blanks_witness :
  skipWhitespace 5 (mkParser ([32; 10; 9] ++ rune "(" :: runes_of ";)")
                      EOF 0 false)
  = Ok tt (mkParser (runes_of ";)") EOF (rune "(") true).
Proof.
  apply (skipWhitespace_passes_blanks [32; 10; 9] (rune "(") (runes_of ";)")).
  - repeat first [apply Forall_nil_2 | apply Forall_cons_2]; reflexivity.
  - reflexivity.
  - simpl. lia.
Defined.

(** ** Values and names of properties *)

Lemma parsePropertyValue_loop_escaped text : forall value rest e ch fuel,
  (length (escapeRunes text) < fuel)%nat ->
  parsePropertyValue_loop fuel
    (mkParser (escapeRunes text ++ rune "]" :: rest) e ch false) value false
  = Ok (value ++ textOf text)%string (mkParser rest e (rune "]") false).
Proof.
  induction text as [|r text IH]; intros value rest e ch fuel Hf.
  - destruct fuel as [|fuel]; [simpl in Hf; lia|].
    simpl. rewrite append_empty_r. reflexivity.
  - unfold escapeRunes in *. cbn [flat_map] in *.
    destruct ((r =? rune "\") || (r =? rune "]")) eqn:Hr.
    + cbn [app length] in *.
      destruct fuel as [|[|fuel]]; [lia|lia|].
      cbn [parsePropertyValue_loop readChar hasChar reader rerr char].
      rewrite Z.eqb_refl.
      cbn [parsePropertyValue_loop readChar hasChar reader rerr char].
      rewrite IH by lia. cbn [textOf fold_right].
      rewrite append_assoc. reflexivity.
    + cbn [app length] in *.
      destruct fuel as [|fuel]; [lia|].
      cbn [parsePropertyValue_loop readChar hasChar reader rerr char].
      apply orb_false_iff in Hr as [H1 H2]. rewrite H1, H2.
      rewrite IH by lia. cbn [textOf fold_right].
      rewrite append_assoc. reflexivity.
Qed.

(** A text written between brackets with a backslash before each of its
    backslashes and closing brackets is read back as it was, rune by rune,
    and the parser is left behind the closing bracket. *)
Theorem parsePropertyValue_reads_escaped text rest p p1 fuel :
  readChar p = Ok (rune "[") p1 ->
  reader p1 = escapeRunes text ++ rune "]" :: rest ->
  (length (escapeRunes text) < fuel)%nat ->
  parsePropertyValue fuel p
  = Ok (textOf text) (mkParser rest (rerr p1) (rune "]") false).
Proof.
  intros Hread Hreader Hf. unfold parsePropertyValue. rewrite Hread.
  rewrite Z.eqb_refl.
  destruct (readChar_pending _ _ _ Hread) as (_ & Hh & _ & _).
  destruct p1 as [rd re c h]. simpl in Hreader, Hh. subst rd h.
  apply (parsePropertyValue_loop_escaped text "").
  exact Hf.
Qed.

Lemma parsePropertyValue_reads_escaped_witness :
  parsePropertyValue 10
    (NewSGFParser (rune "[" :: escapeRunes (runes_of "a]b\c")
                     ++ rune "]" :: runes_of ")") EOF)
  = Ok "a]b\c" (mkParser (runes_of ")") EOF (rune "]") false).
Proof.
  apply (parsePropertyValue_reads_escaped (runes_of "a]b\c") (runes_of ")")
           (NewSGFParser (rune "[" :: escapeRunes (runes_of "a]b\c")
                            ++ rune "]" :: runes_of ")") EOF)
           (mkParser (escapeRunes (runes_of "a]b\c")
                        ++ rune "]" :: runes_of ")") EOF (rune "[") false)).
  - reflexivity.
  - reflexivity.
  - vm_compute. lia.
Defined.

Lemma string_of_rune_letter ch :
  is_letter ch = true ->
  Go.string_of_rune ch = String (Go.byte_of ch) ""
  /\ Go.byte_val (Go.byte_of ch) = ch.
Proof.
  intros Hl. unfold is_letter, rune in Hl.
  assert (Hr : 65 <= ch <= 122).
  { change (Go.byte_val "A") with 65 in Hl. change (Go.byte_val "Z") with 90 in Hl.
    change (Go.byte_val "a") with 97 in Hl. change (Go.byte_val "z") with 122 in Hl.
    lia. }
  split.
  - unfold Go.string_of_rune, Go.encode_valid.
    replace ((ch <? 0) || (1114111 <? ch) || ((55296 <=? ch) && (ch <=? 57343)))
      with false by lia.
    replace (ch <=? 127) with true by lia. reflexivity.
  - unfold Go.byte_val, Go.byte_of. rewrite N_ascii_embedding; lia.
Qed.

Lemma allLetters_snoc s c :
  allLetters (s ++ String c "")%string
  = allLetters s && is_letter (Go.byte_val c).
Proof.
  induction s as [|d s IH].
  - change ("" ++ String c "")%string with (String c ""). cbn [allLetters].
    destruct (is_letter (Go.byte_val c)); reflexivity.
  - rewrite append_String. cbn [allLetters]. rewrite IH, andb_assoc.
    reflexivity.
Qed.

Lemma length_snoc (s : string) c :
  String.length (s ++ String c "")%string = S (String.length s).
Proof.
  induction s as [|d s IH]; [reflexivity|].
  rewrite append_String. cbn [String.length]. rewrite IH. reflexivity.
Qed.

Lemma parseProperty_name_letters f : forall p name n p1,
  parseProperty_name f p name = Ok n p1 ->
  allLetters name = true -> (String.length name <= 1)%nat ->
  allLetters n = true /\ (String.length n <= 2)%nat
  /\ (String.length name <= String.length n)%nat
  /\ (hasChar p = true -> is_letter (char p) = true ->
      (1 <= String.length n)%nat).
Proof.
  induction f as [|f IH]; intros p name n p1 Hrun Hall Hlen; [discriminate|].
  simpl in Hrun. destruct (readChar p) as [ch p0| |] eqn:Hread;
    try discriminate.
  assert (Hch : hasChar p = true -> ch = char p).
  { intros Hh. unfold readChar in Hread. rewrite Hh in Hread.
    injection Hread as <- _. reflexivity. }
  destruct (is_letter ch) eqn:Hl.
  - destruct (string_of_rune_letter ch Hl) as [Hs Hb].
    rewrite Hs in Hrun.
    assert (Hall' : allLetters (name ++ String (Go.byte_of ch) "")%string = true).
    { rewrite allLetters_snoc, Hall, Hb, Hl. reflexivity. }
    pose proof (length_snoc name (Go.byte_of ch)) as Hlen'.
    unfold Go.len in Hrun. rewrite Hlen' in Hrun.
    destruct (2 <=? Z.of_nat (S (String.length name))) eqn:H2.
    + injection Hrun as <- <-. rewrite Hlen'.
      split; [exact Hall'|]. split; [lia|]. split; [lia|]. intros _ _. lia.
    + apply Z.leb_gt in H2.
      apply IH in Hrun as (Ha & Hb2 & Hc & _); [|exact Hall'|lia].
      rewrite Hlen' in Hc.
      split; [exact Ha|]. split; [lia|]. split; [lia|]. intros _ _. lia.
  - injection Hrun as <- <-.
    split; [exact Hall|]. split; [lia|]. split; [lia|]. intros Hh Hc.
    rewrite <- (Hch Hh) in Hc. congruence.
Qed.

Lemma parseProperty_name_ok f p nv p1 :
  parseProperty f p = Ok nv p1 ->
  hasChar p = true -> is_letter (char p) = true -> propertyName nv.1.
Proof.
  unfold parseProperty. intros Hrun Hh Hl.
  destruct (parseProperty_name f p "") as [name p0| |] eqn:Hname;
    try discriminate.
  destruct (parseProperty_values f p0 []) as [values p2| |]; try discriminate.
  injection Hrun as <- <-. simpl.
  apply parseProperty_name_letters in Hname as (Ha & Hb & _ & Hc);
    [|reflexivity|simpl; lia].
  specialize (Hc Hh Hl). split; [lia|exact Ha].
Qed.

Lemma parseNode_loop_names f : forall p props node p1,
  parseNode_loop f p props = Ok node p1 ->
  map_Forall (fun name _ => propertyName name) props ->
  Children node = []
  /\ map_Forall (fun name _ => propertyName name) (Properties node).
Proof.
  induction f as [|f IH]; intros p props node p1 Hrun Hnames; [discriminate|].
  simpl in Hrun.
  destruct (skipWhitespace f p) as [[] p0| |]; try discriminate.
  destruct (peekChar p0) as [ch p2| |] eqn:Hpeek; try discriminate.
  destruct (is_letter ch) eqn:Hl.
  - destruct (parseProperty f p2) as [[prop values] p3| |] eqn:Hprop;
      try discriminate.
    apply IH in Hrun; [exact Hrun|].
    apply map_Forall_insert_2; [|exact Hnames].
    destruct (peekChar_pending _ _ _ Hpeek) as (_ & Hh & Hc & _).
    apply (parseProperty_name_ok f p2 (prop, values) p3 Hprop Hh).
    rewrite Hc. exact Hl.
  - injection Hrun as <- <-. split; [reflexivity|exact Hnames].
Qed.

(** ** The nodes and the chain a game tree is parsed into *)

(** A node that was parsed has no children yet, and each of its
    properties is named by one or two ASCII letters. *)
Theorem parseNode_property_names f p node p' :
  parseNode f p = Ok node p' ->
  Children node = []
  /\ forall name values,
       Properties node !! name = Some values -> propertyName name.
Proof.
  unfold parseNode. intros Hrun.
  destruct (readChar p) as [ch p1| |]; try discriminate.
  destruct (ch =? rune ";"); try discriminate.
  apply parseNode_loop_names in Hrun as [Hc Hn]; [|apply map_Forall_empty].
  split; [exact Hc|]. intros name values Hlook. exact (Hn name values Hlook).
Qed.

Lemma parseNode_property_names_witness :
  parseNode 20 (NewSGFParser (runes_of ";B[52lpab]C [x]Abc[1])") EOF)
  = Ok (mkNode (<["c" := ["1"]]> (<["Ab" := []]> (<["C" := ["x"]]>
                  (<["B" := ["52lpab"]]> ∅)))) [])
       (mkParser [] EOF (rune ")") true)
  /\ Children (mkNode (<["c" := ["1"]]> (<["Ab" := []]> (<["C" := ["x"]]>
                  (<["B" := ["52lpab"]]> ∅)))) []) = []
  /\ forall name values,
       Properties (mkNode (<["c" := ["1"]]> (<["Ab" := []]> (<["C" := ["x"]]>
                  (<["B" := ["52lpab"]]> ∅)))) []) !! name = Some values ->
       propertyName name.
Proof.
  split; [vm_compute; reflexivity|].
  apply (parseNode_property_names 20
           (NewSGFParser (runes_of ";B[52lpab]C [x]Abc[1])") EOF) _
           (mkParser [] EOF (rune ")") true)).
  vm_compute. reflexivity.
Defined.

Lemma parseNode_leaf f p node p' :
  parseNode f p = Ok node p' -> Children node = [].
Proof.
  unfold parseNode. intros Hrun.
  destruct (readChar p) as [ch p1| |]; try discriminate.
  destruct (ch =? rune ";"); try discriminate.
  apply parseNode_loop_names in Hrun as [Hc _]; [exact Hc|].
  apply map_Forall_empty.
Qed.

Lemma addAtCurrent_linear node : forall root,
  linear root -> Children node = [] ->
  linear (addAtCurrent root node)
  /\ Properties (addAtCurrent root node) = Properties root
  /\ Children (addAtCurrent root node) <> [].
Proof.
  intros root. induction root as [ps|ps child rest IH] using SGFNode_chain_ind;
    intros Hlin Hleaf.
  - destruct node as [nps ncs]. simpl in Hleaf. subst ncs.
    simpl. repeat split; discriminate.
  - simpl in Hlin. destruct rest as [|r rest]; [|contradiction].
    destruct (IH Hlin Hleaf) as (Hl & _ & _).
    simpl. repeat split; [exact Hl|discriminate].
Qed.

Lemma parseGame_loop_chain f : forall p root node p',
  parseGame_loop f p root = Ok node p' ->
  linear root -> (Properties root = ∅ -> Children root = []) ->
  linear node /\ (Properties node = ∅ -> Children node = []).
Proof.
  induction f as [|f IH]; intros p root node p' Hrun Hlin Hempty;
    [discriminate|].
  simpl in Hrun.
  destruct (skipWhitespace f p) as [[] p0| |]; try discriminate.
  destruct (peekChar p0) as [ch p1| |]; try discriminate.
  destruct (ch =? rune ")").
  { injection Hrun as <- <-. split; assumption. }
  destruct (ch =? rune ";").
  { destruct (parseNode f p1) as [n p2| |] eqn:Hnode; try discriminate.
    pose proof (parseNode_leaf _ _ _ _ Hnode) as Hleaf.
    destruct (bool_decide (size (Properties root) = 0%nat)) eqn:Hsize.
    - apply IH in Hrun; [exact Hrun| |intros _; exact Hleaf].
      destruct n as [ps cs]. simpl in Hleaf. subst cs. exact I.
    - destruct (addAtCurrent_linear n root Hlin Hleaf) as (Hl & Hp & _).
      apply IH in Hrun; [exact Hrun|exact Hl|].
      rewrite Hp. intros Hnone. apply bool_decide_eq_false in Hsize.
      rewrite Hnone, map_size_empty in Hsize. contradiction. }
  destruct (ch =? rune "("); [|discriminate].
  destruct (skipVariation f (discardChar p1) 1) as [[] p3| |];
    try discriminate.
  apply IH in Hrun; [exact Hrun|exact Hlin|exact Hempty].
Qed.

(** The tree of a game is a chain: every node has at most one child, the
    variations having been passed over; and a root without properties has
    no child, a node that follows it having taken its place. *)
Theorem parseGame_builds_chain f p node p' :
  parseGame f p = Ok node p' ->
  linear node /\ (Properties node = ∅ -> Children node = []).
Proof.
  unfold parseGame. intros Hrun.
  destruct (readChar p) as [ch p1| |]; try discriminate.
  destruct (ch =? rune "("); try discriminate.
  apply parseGame_loop_chain in Hrun; [exact Hrun|exact I|reflexivity].
Qed.

Lemma parseGame_builds_chain_witness :
  parseGame 40 (NewSGFParser (runes_of "(;;B[52lpab](;W[31ab]);W[64ab])") EOF)
  = Ok (mkNode {["B" := ["52lpab"]]} [mkNode {["W" := ["64ab"]]} []])
       (mkParser [] EOF (rune ")") false)
  /\ linear (mkNode {["B" := ["52lpab"]]} [mkNode {["W" := ["64ab"]]} []])
  /\ (Properties (mkNode {["B" := ["52lpab"]]} [mkNode {["W" := ["64ab"]]} []])
      = ∅ ->
      Children (mkNode {["B" := ["52lpab"]]} [mkNode {["W" := ["64ab"]]} []])
      = []).
Proof.
  split; [vm_compute; reflexivity|].
  apply (parseGame_builds_chain 40
           (NewSGFParser (runes_of "(;;B[52lpab](;W[31ab]);W[64ab])") EOF) _
           (mkParser [] EOF (rune ")") false)).
  vm_compute. reflexivity.
Defined.

(** ** What [ParseSGF] can return *)

(** [ParseSGF] returns for every input, and what it returns is an error of
    the tree parser, the error of an input without a game tree, or a match
    with one game for each tree.  The conversion of the nodes never fails:
    its error is not among the results. *)
Theorem ParseSGF_outcomes `{FloatParser} input e0 :
  (exists e, ParseSGF input e0
             = Some (None, Some (Wrap "failed to parse SGF: " e)))
  \/ ParseSGF input e0 = Some (None, Some (Errorf "empty SGF file"))
  \/ (exists m p node nodes,
        ParseSGF input e0 = Some (Some m, None)
        /\ parseGameTree (parseFuel input) (NewSGFParser input e0)
           = Ok (node :: nodes) p
        /\ Games m = map gameOfTree (node :: nodes)).
Proof.
  unfold ParseSGF.
  destruct (parseGameTree (parseFuel input) (NewSGFParser input e0))
    as [nodes p|e|] eqn:Hp.
  - destruct nodes as [|n nodes]; [right; left; reflexivity|].
    right; right.
    destruct (convertNodesToMatch_games n nodes) as (m & Hm & Hg).
    exists m, p, n, nodes. rewrite Hm. repeat split. exact Hg.
  - left. exists e. reflexivity.
  - exfalso. exact (parseGameTree_total _ _ Hp).
Qed.

(** ** The decoding of moves *)

(** [decodePoint] gives a value from -1 to 25, and -1 for exactly the
    bytes that are no letter from a to z. *)
Theorem decodePoint_range ch :
  -1 <= decodePoint ch <= 25
  /\ (decodePoint ch = -1
      <-> ~ (rune "a" <= Go.byte_val ch <= rune "z")).
Proof.
  unfold decodePoint, rune.
  change (Go.byte_val "a") with 97. change (Go.byte_val "x") with 120.
  change (Go.byte_val "y") with 121. change (Go.byte_val "z") with 122.
  cbv zeta.
  destruct ((97 <=? Go.byte_val ch) && (Go.byte_val ch <=? 120)) eqn:H1;
    [|destruct (Go.byte_val ch =? 121) eqn:H2;
      [|destruct (Go.byte_val ch =? 122) eqn:H3]]; lia.
Qed.

Lemma decodePoint_bounds ch : -1 <= decodePoint ch <= 25.
Proof.
  unfold decodePoint, rune.
  change (Go.byte_val "a") with 97. change (Go.byte_val "x") with 120.
  change (Go.byte_val "y") with 121. change (Go.byte_val "z") with 122.
  cbv zeta.
  destruct ((97 <=? Go.byte_val ch) && (Go.byte_val ch <=? 120)) eqn:H1;
    [|destruct (Go.byte_val ch =? 121) eqn:H2;
      [|destruct (Go.byte_val ch =? 122) eqn:H3]]; lia.
Qed.

Lemma parseEncodedMove_loop_slots encoded : forall moveIdx move,
  (moveSlots move -> moveSlots (parseEncodedMove_loop encoded moveIdx move).2)
  /\ forall c,
       moveSlots move ->
       moveSlots (parseEncodedMove_loop (String c encoded) moveIdx move).2.
Proof.
  induction encoded as [|c0 encoded IH]; intros moveIdx move.
  - split; [|intros c]; intros Hm; exact Hm.
  - split; [apply IH|]. intros c [Hlen Hall].
    cbn [parseEncodedMove_loop].
    destruct (moveIdx <? 8)%nat; [|split; assumption].
    apply IH. split.
    + rewrite !length_insert. exact Hlen.
    + apply Forall_insert; [apply Forall_insert; [exact Hall|]|];
        apply decodePoint_bounds.
Qed.

Lemma encodeInto_slots encoded move :
  moveSlots move -> moveSlots (encodeInto encoded move).
Proof.
  intros Hm. unfold encodeInto.
  pose proof (proj1 (parseEncodedMove_loop_slots encoded 0 move) Hm) as Hr.
  destruct (parseEncodedMove_loop encoded 0 move) as [moveIdx move'].
  simpl in Hr. destruct (moveIdx <? 8)%nat; [|exact Hr].
  destruct Hr as [Hlen Hall]. split.
  - rewrite length_insert. exact Hlen.
  - apply Forall_insert; [exact Hall|lia].
Qed.

Lemma zeros_slots : moveSlots (zeros 8).
Proof.
  split; [reflexivity|].
  repeat first [apply Forall_nil_2 | apply Forall_cons_2]; lia.
Qed.

Lemma hasProperty_empty name : hasProperty (mkNode ∅ []) name = false.
Proof. unfold hasProperty. cbn [Properties]. rewrite lookup_empty. reflexivity. Qed.

Section RecordProperties.
Context `{FloatParser}.

(** What [parseMoveAnalysis], [parseCubeAnalysis], [parseLuck] and
    [parseSkill] leave alone is, in the record of a move, what the move
    string alone gives. *)
Lemma moveRecordOf_keeps {A} (F : MoveRecord -> A) :
  (forall v r, F (set_Analysis v r) = F r) ->
  (forall v r, F (set_CubeAnalysis_ v r) = F r) ->
  (forall v r, F (set_Luck v r) = F r) ->
  (forall v r, F (set_Skill v r) = F r) ->
  forall node player moveStr comment,
    F (moveRecordOf node player moveStr comment)
    = F (moveRecordOf (mkNode ∅ []) player moveStr comment).
Proof.
  intros HA HC HL HS node player moveStr comment.
  assert (KA : forall mr, F (parseMoveAnalysis node mr) = F mr).
  { intros mr. unfold parseMoveAnalysis.
    destruct (propertyValues node "A"); [reflexivity|].
    destruct (plyAndRows _). apply HA. }
  assert (KC : forall mr, F (parseCubeAnalysis node mr) = F mr).
  { intros mr. unfold parseCubeAnalysis.
    destruct (propertyValues node "DA"); [reflexivity|].
    destruct (length _ <? 13)%nat; [reflexivity|apply HC]. }
  assert (KL : forall mr, F (parseLuck node mr) = F mr).
  { intros mr. unfold parseLuck. destruct (String.eqb _ _); [reflexivity|].
    destruct (length _ <? 2)%nat; [reflexivity|apply HL]. }
  assert (KS : forall mr, F (parseSkill node mr) = F mr).
  { intros mr. unfold parseSkill. destruct (String.eqb _ _); [reflexivity|].
    destruct (length _ <? 2)%nat; [reflexivity|apply HS]. }
  unfold moveRecordOf. rewrite !hasProperty_empty.
  destruct (hasProperty node "SK"), (hasProperty node "LU"),
    (hasProperty node "DA"), (hasProperty node "A");
    rewrite ?KS, ?KL, ?KC, ?KA; reflexivity.
Qed.

Lemma moveRecordOf_Move node player moveStr comment :
  moveSlots (Move (moveRecordOf node player moveStr comment)).
Proof.
  rewrite (moveRecordOf_keeps Move) by reflexivity.
  unfold moveRecordOf. rewrite !hasProperty_empty.
  repeat match goal with
         | |- context [if ?c then _ else _] => destruct c
         end;
    try apply zeros_slots.
  unfold parseEncodedMove. cbn. apply encodeInto_slots, zeros_slots.
Qed.

Lemma moveOptionOf_slots parts ply : moveSlots (OptMove (moveOptionOf parts ply)).
Proof.
  unfold moveOptionOf. cbn [OptMove].
  destruct (2 <=? Go.len (part parts 0)); [|apply zeros_slots].
  unfold parseEncodedMoveOption. cbn [OptMove MoveOption_zero].
  apply encodeInto_slots, zeros_slots.
Qed.

Lemma parseMoveAnalysis_slots node mr ma :
  Analysis (parseMoveAnalysis node mr) = Some ma ->
  (forall ma0, Analysis mr = Some ma0 ->
     Forall (fun opt => moveSlots (OptMove opt)) (Moves ma0)) ->
  Forall (fun opt => moveSlots (OptMove opt)) (Moves ma).
Proof.
  unfold parseMoveAnalysis.
  destruct (propertyValues node "A") as [|v vs]; [intros Hma Hold; auto|].
  destruct (plyAndRows (v :: vs)) as [ply rows].
  cbn [Analysis set_Analysis]. intros [= <-] _. cbn [Moves].
  rewrite parseMoveAnalysis_loop_rows. simpl.
  induction rows as [|row rows IH]; [constructor|].
  cbn [flat_map]. apply Forall_app. split; [|exact IH].
  unfold rowOption. destruct (length _ <? 10)%nat; [constructor|].
  repeat first [apply Forall_nil_2 | apply Forall_cons_2].
  apply moveOptionOf_slots.
Qed.

Lemma moveRecordOf_slots node player moveStr comment :
  recordSlots (moveRecordOf node player moveStr comment).
Proof.
  split; [apply moveRecordOf_Move|].
  unfold moveRecordOf.
  destruct (hasProperty node "SK"), (hasProperty node "LU"),
    (hasProperty node "DA");
    rewrite ?parseSkill_Analysis, ?parseLuck_Analysis,
      ?parseCubeAnalysis_Analysis;
    (destruct (hasProperty node "A");
     [intros ma Hma; apply (parseMoveAnalysis_slots _ _ _ Hma)|]);
    repeat match goal with
           | |- context [if ?c then _ else _] => destruct c
           end; cbn; intros; discriminate.
Qed.

Lemma nodeRecords_slots node : Forall recordSlots (nodeRecords node).
Proof.
  unfold nodeRecords, processNode, processMove, processSetBoard, appendMove.
  repeat match goal with
         | |- context [if ?c then _ else _] => destruct c
         end;
    cbn [fst snd GameMoves set_GameMoves Game_new app];
    repeat first [apply Forall_nil_2 | apply Forall_cons_2];
    first [apply moveRecordOf_slots
          | split; [apply zeros_slots|cbn; intros; discriminate]].
Qed.

Lemma treeRecords_slots : forall node, Forall recordSlots (treeRecords node).
Proof.
  induction node as [ps|ps child rest IH] using SGFNode_chain_ind.
  - simpl. rewrite app_nil_r. apply nodeRecords_slots.
  - simpl. apply Forall_app. split; [apply nodeRecords_slots|exact IH].
Qed.

(** In a converted match the move of every record, and of every move its
    analysis lists, is an array of 8 slots that hold -1 or a point from 0
    to 25, whatever the bytes of the move string were. *)
Theorem converted_moves_are_slots nodes m :
  convertNodesToMatch nodes = (Some m, None) ->
  Forall (fun game => Forall recordSlots (GameMoves game)) (Games m).
Proof.
  destruct nodes as [|node nodes]; [discriminate|].
  destruct (convertNodesToMatch_games node nodes) as (m' & -> & HG).
  intros [= <-]. rewrite HG. apply Forall_map.
  apply Forall_forall. intros root _.
  rewrite gameOfTree_GameMoves. apply treeRecords_slots.
Qed.

End RecordProperties.

Lemma converted_moves_are_slots_witness :
  exists m,
    @convertNodesToMatch sampleFloats [sampleNode] = (Some m, None)
    /\ Forall (fun game => Forall recordSlots (GameMoves game)) (Games m).
Proof.
  eexists. split; [vm_compute; reflexivity|].
  apply (@converted_moves_are_slots sampleFloats [sampleNode]).
  vm_compute. reflexivity.
Defined.

(** A move string of four pairs fills the array: its first eight bytes are
    decoded into the eight slots, no terminator is written, and the bytes
    that follow are not looked at. *)
Theorem encodeInto_four_pairs s t move :
  String.length s = 8%nat -> length move = 8%nat ->
  encodeInto (s ++ t) move = map decodePoint (list_ascii_of_string s).
Proof.
  intros Hs Hm.
  do 8 (destruct s as [|? s]; [discriminate|]).
  destruct s; [|discriminate].
  do 8 (destruct move as [|? move]; [discriminate|]).
  destruct move; [|discriminate].
  rewrite !append_String. change ("" ++ t)%string with t.
  destruct t as [|t0 [|t1 t]]; reflexivity.
Qed.

Lemma encodeInto_four_pairs_witness :
  String.length "lpabxyzA" = 8%nat /\ length (zeros 8) = 8%nat
  /\ encodeInto ("lpabxyzA" ++ "cdefg") (zeros 8)
     = map decodePoint (list_ascii_of_string "lpabxyzA").
Proof.
  split; [reflexivity|]. split; [reflexivity|].
  apply (encodeInto_four_pairs "lpabxyzA" "cdefg" (zeros 8)); reflexivity.
Defined.

(** ** The metadata of the match and of the games *)

Lemma parseMatchInfo_part_keeps {A B} (F : MatchMetadata -> A) (G : Game -> B) :
  (forall v md, F (set_MatchLength v md) = F md) ->
  (forall v g, G (set_GameNumber v g) = G g) ->
  (forall v g, G (set_Score v g) = G g) ->
  forall part m g,
    F (Metadata (parseMatchInfo_part part (m, g)).1) = F (Metadata m)
    /\ G (parseMatchInfo_part part (m, g)).2 = G g.
Proof.
  intros HF HG1 HG2 part m g. unfold parseMatchInfo_part.
  destruct (Go.SplitN2 (Go.Trim part "[]") ":") as [|k [|v [|]]];
    try (split; reflexivity).
  destruct (Go.Atoi v) as [n err].
  repeat match goal with
         | |- context [if ?c then _ else _] => destruct c
         end; cbn [fst snd Metadata set_Metadata];
    rewrite ?HF, ?HG1, ?HG2; split; reflexivity.
Qed.

Lemma parseMatchInfo_keeps {A B} (F : MatchMetadata -> A) (G : Game -> B) :
  (forall v md, F (set_MatchLength v md) = F md) ->
  (forall v g, G (set_GameNumber v g) = G g) ->
  (forall v g, G (set_Score v g) = G g) ->
  forall mi m g,
    F (Metadata (parseMatchInfo mi m g).1) = F (Metadata m)
    /\ G (parseMatchInfo mi m g).2 = G g.
Proof.
  intros HF HG1 HG2 mi m g. unfold parseMatchInfo.
  generalize (Go.Split mi "]["). intros parts. revert m g.
  induction parts as [|p parts IH]; intros m g; [split; reflexivity|].
  cbn [fold_left].
  destruct (parseMatchInfo_part_keeps F G HF HG1 HG2 p m g) as [H1 H2].
  destruct (parseMatchInfo_part p (m, g)) as [m1 g1].
  destruct (IH m1 g1) as [H3 H4]. cbn [fst snd] in H1, H2.
  rewrite H3, H4, H1, H2. split; reflexivity.
Qed.

Lemma parseRules_fold_keeps {B} (G : Game -> B) :
  (forall v g, G (set_Crawford v g) = G g) ->
  (forall v g, G (set_CrawfordGame v g) = G g) ->
  (forall v g, G (set_Jacoby v g) = G g) ->
  (forall v g, G (set_CubeEnabled v g) = G g) ->
  (forall v g, G (set_Variation v g) = G g) ->
  forall ru g, G (parseRules ru g) = G g.
Proof.
  intros H1 H2 H3 H4 H5 ru g. unfold parseRules.
  generalize (Go.Split ru ":"). intros rules.
  assert (Hfold : forall g0,
             G (fold_left (fun g1 rule => parseRules_rule rule g1) rules g0)
             = G g0).
  { induction rules as [|r rules IH]; intros g0; [reflexivity|].
    cbn [fold_left]. rewrite IH. unfold parseRules_rule.
    repeat match goal with
           | |- context [if ?c then _ else _] => destruct c
           end; rewrite ?H1, ?H2, ?H3, ?H4, ?H5; reflexivity. }
  destruct (String.eqb _ _); rewrite ?H5; apply Hfold.
Qed.

Lemma setIfPresent_other {A} (F : MatchMetadata -> A) node name set m :
  (forall v md, F (set v md) = F md) ->
  F (Metadata (setIfPresent node name set m)) = F (Metadata m).
Proof.
  intros HF. unfold setIfPresent. destruct (String.eqb _ _); [reflexivity|].
  cbn [Metadata set_Metadata]. apply HF.
Qed.

Lemma setIfPresent_self (F : MatchMetadata -> string) node name set m :
  (forall v md, F (set v md) = v) ->
  F (Metadata (setIfPresent node name set m))
  = if String.eqb (getProperty node name) "" then F (Metadata m)
    else getProperty node name.
Proof.
  intros HF. unfold setIfPresent. destruct (String.eqb _ _); [reflexivity|].
  cbn [Metadata set_Metadata]. apply HF.
Qed.

Lemma extractMetadata_match {A} (F : MatchMetadata -> A) node m g :
  (forall v md, F (set_MatchLength v md) = F md) ->
  F (Metadata (extractMetadata node m g).1.1)
  = F (Metadata
         (setIfPresent node "GC" set_MetaComment
         (setIfPresent node "AN" set_Annotator
         (setIfPresent node "DT" set_Date
         (setIfPresent node "PC" set_Place
         (setIfPresent node "RO" set_Round
         (setIfPresent node "EV" set_Event
         (setIfPresent node "BR" set_Rating2
         (setIfPresent node "WR" set_Rating1
         (setIfPresent node "PB" set_Player2
         (setIfPresent node "PW" set_Player1
         (setIfPresent node "AP" set_Application m)))))))))))).
Proof.
  intros HF. unfold extractMetadata.
  set (m1 := setIfPresent node "GC" _ _). clearbody m1.
  destruct (String.eqb (getProperty node "MI") "") eqn:HMI.
  - reflexivity.
  - pose proof (parseMatchInfo_keeps F GameMoves HF
                  ltac:(reflexivity) ltac:(reflexivity)
                  (getProperty node "MI") m1 g) as [H1 _].
    destruct (parseMatchInfo (getProperty node "MI") m1 g) as [m2 g2].
    exact H1.
Qed.

Section MetadataProperties.
Context `{FloatParser}.

Lemma convertGame_match root m :
  (convertGame root m).1 = (extractMetadata root m Game_new).1.1.
Proof.
  unfold convertGame.
  destruct (extractMetadata root m Game_new) as [[m1 g1] [e|]];
    [reflexivity|].
  destruct (convertGame_walk root g1) as [g2 [e|]]; reflexivity.
Qed.

Lemma convertGame_metadata root m :
  Forall (fun nf : string * (MatchMetadata -> string) =>
            nf.2 (Metadata (convertGame root m).1)
            = if String.eqb (getProperty root nf.1) "" then nf.2 (Metadata m)
              else getProperty root nf.1) metadataProperties.
Proof.
  rewrite convertGame_match. unfold metadataProperties.
  repeat first [apply Forall_nil_2 | apply Forall_cons_2]; cbn [fst snd];
    rewrite extractMetadata_match by reflexivity;
    repeat (rewrite setIfPresent_other by reflexivity);
    rewrite setIfPresent_self by reflexivity;
    repeat (rewrite setIfPresent_other by reflexivity);
    reflexivity.
Qed.

Lemma convertNodesToMatch_loop_metadata : forall nodes m m',
  convertNodesToMatch_loop nodes m = (Some m', None) ->
  Forall (fun nf : string * (MatchMetadata -> string) =>
            nf.2 (Metadata m') = lastGiven nf.1 nodes (nf.2 (Metadata m)))
    metadataProperties.
Proof.
  induction nodes as [|node nodes IH]; intros m m' Hrun.
  - injection Hrun as <-. apply Forall_forall. reflexivity.
  - cbn [convertNodesToMatch_loop] in Hrun.
    pose proof (convertGame_metadata node m) as Hstep.
    destruct (convertGame node m) as [m1 [game|e]]; [|discriminate].
    apply IH in Hrun. cbn [fst] in Hstep.
    rewrite Forall_forall in *. intros nf Hin.
    rewrite (Hrun nf Hin). cbn [Metadata set_Games].
    rewrite (Hstep nf Hin). reflexivity.
Qed.

(** Each text field of the metadata of a converted match holds the value
    of its property in the last game tree whose root gives a value that is
    not empty, and is empty when no root gives one: the roots of later
    trees write over what earlier ones gave. *)
Theorem metadata_of_last_tree nodes m :
  convertNodesToMatch nodes = (Some m, None) ->
  Forall (fun nf : string * (MatchMetadata -> string) =>
            nf.2 (Metadata m) = lastGiven nf.1 nodes "")
    metadataProperties.
Proof.
  destruct nodes as [|node nodes]; [discriminate|].
  unfold convertNodesToMatch. intros Hrun.
  apply convertNodesToMatch_loop_metadata in Hrun.
  rewrite Forall_forall in *. intros nf Hin. rewrite (Hrun nf Hin).
  unfold metadataProperties in Hin.
  repeat (apply elem_of_cons in Hin as [->|Hin]; [reflexivity|]).
  apply elem_of_nil in Hin. contradiction.
Qed.

End MetadataProperties.

Lemma metadata_of_last_tree_witness :
  exists m,
    @convertNodesToMatch sampleFloats
      [mkNode (<["PW" := ["anna"]]> {["PB" := ["bob"]]}) [];
       mkNode (<["PW" := ["carl"]]> {["PB" := [""]]}) []]
    = (Some m, None)
    /\ Player1 (Metadata m) = "carl" /\ Player2 (Metadata m) = "bob"
    /\ Forall (fun nf : string * (MatchMetadata -> string) =>
                 nf.2 (Metadata m)
                 = lastGiven nf.1
                     [mkNode (<["PW" := ["anna"]]> {["PB" := ["bob"]]}) [];
                      mkNode (<["PW" := ["carl"]]> {["PB" := [""]]}) []] "")
         metadataProperties.
Proof.
  eexists. split; [vm_compute; reflexivity|].
  split; [reflexivity|]. split; [reflexivity|].
  apply (@metadata_of_last_tree sampleFloats
           [mkNode (<["PW" := ["anna"]]> {["PB" := ["bob"]]}) [];
            mkNode (<["PW" := ["carl"]]> {["PB" := [""]]}) []]).
  vm_compute. reflexivity.
Defined.

Lemma parseResult_keeps {B} (G : Game -> B) :
  (forall v g, G (set_Winner v g) = G g) ->
  (forall v g, G (set_Points v g) = G g) ->
  (forall v g, G (set_Resigned v g) = G g) ->
  forall re g, G (parseResult re g) = G g.
Proof.
  intros H1 H2 H3 re g. unfold parseResult.
  destruct (Go.len re <? 3); [reflexivity|].
  destruct (Go.Atoi _) as [points err].
  repeat match goal with
         | |- context [if ?c then _ else _] => destruct c
         end; rewrite ?H3, ?H2, ?H1; reflexivity.
Qed.

Lemma parseResult_Winner re g :
  Winner (parseResult re g)
  = if Go.len re <? 3 then Winner g
    else if Go.byte_val (Go.index re 0) =? rune "W" then 0
    else if Go.byte_val (Go.index re 0) =? rune "B" then 1
    else Winner g.
Proof.
  unfold parseResult.
  destruct (Go.len re <? 3); [reflexivity|].
  destruct (Go.Atoi _) as [points err].
  repeat match goal with
         | |- context [if ?c then _ else _] => destruct c
         end; reflexivity.
Qed.

Lemma parseRules_rule_Variation rule g :
  In (Variation g) ("" :: variationNames) ->
  In (Variation (parseRules_rule rule g)) ("" :: variationNames).
Proof.
  intros Hin. unfold parseRules_rule.
  repeat match goal with
         | |- context [if ?c then _ else _] => destruct c
         end; try exact Hin; cbn; tauto.
Qed.

Lemma parseRules_Variation ru g :
  In (Variation g) ("" :: variationNames) ->
  In (Variation (parseRules ru g)) variationNames.
Proof.
  intros Hin. unfold parseRules.
  generalize (Go.Split ru ":"). intros rules.
  assert (Hfold : In (Variation
                        (fold_left (fun g1 rule => parseRules_rule rule g1)
                           rules g)) ("" :: variationNames)).
  { revert g Hin. induction rules as [|r rules IH]; intros g Hin;
      [exact Hin|].
    cbn [fold_left]. apply IH, parseRules_rule_Variation, Hin. }
  destruct (String.eqb _ "") eqn:E.
  - cbn. tauto.
  - destruct Hfold as [Hempty|Hname]; [|exact Hname].
    rewrite <- Hempty in E. discriminate.
Qed.

(** The game [extractMetadata] leaves: the game after the match
    information, given to the rules, the cube value and the result in this
    order. *)
Lemma extractMetadata_steps node m g :
  exists m1,
    (extractMetadata node m g).1.2
    = let g1 :=
        (if String.eqb (getProperty node "MI") "" then (m1, g)
         else parseMatchInfo (getProperty node "MI") m1 g).2 in
      let g2 :=
        if String.eqb (getProperty node "RU") "" then g1
        else parseRules (getProperty node "RU") g1 in
      let g3 :=
        if String.eqb (getProperty node "CV") "" then g2
        else set_AutoDoubles (getPropertyInt node "CV") g2 in
      if String.eqb (getProperty node "RE") "" then g3
      else parseResult (getProperty node "RE") g3.
Proof.
  unfold extractMetadata.
  set (m1 := setIfPresent node "GC" _ _). exists m1. clearbody m1.
  destruct (if String.eqb (getProperty node "MI") "" then (m1, g)
            else parseMatchInfo (getProperty node "MI") m1 g) as [m2 g2].
  reflexivity.
Qed.

Section GameProperties.
Context `{FloatParser}.

(** The winner of a converted game is side 1 when the result of its root
    has three bytes or more and starts with B, and side 0 in every other
    case: a game without a result has the winner 0, and the value -1 of a
    game that is not finished is never given. *)
Theorem converted_game_winner root :
  Winner (gameOfTree root)
  = if (3 <=? Go.len (getProperty root "RE"))
       && (Go.byte_val (Go.index (getProperty root "RE") 0) =? rune "B")
    then 1 else 0.
Proof.
  unfold gameOfTree. cbn [Winner set_GameMoves].
  destruct (extractMetadata_steps root
              {| Metadata := MatchMetadata_zero; Games := [] |} Game_new)
    as [m1 ->].
  cbv zeta.
  set (g1 := (if String.eqb (getProperty root "MI") "" then _ else _).2).
  assert (H1 : Winner g1 = 0).
  { subst g1. destruct (String.eqb (getProperty root "MI") "");
      [reflexivity|].
    apply (parseMatchInfo_keeps Application Winner); reflexivity. }
  clearbody g1.
  set (g2 := if String.eqb (getProperty root "RU") "" then _ else _).
  assert (H2 : Winner g2 = 0).
  { subst g2. destruct (String.eqb (getProperty root "RU") "");
      [exact H1|].
    rewrite (parseRules_fold_keeps Winner) by reflexivity. exact H1. }
  clearbody g2.
  set (g3 := if String.eqb (getProperty root "CV") "" then _ else _).
  assert (H3 : Winner g3 = 0).
  { subst g3. destruct (String.eqb (getProperty root "CV") "");
      [exact H2|exact H2]. }
  clearbody g3.
  destruct (String.eqb (getProperty root "RE") "") eqn:HRE.
  - apply String.eqb_eq in HRE. rewrite HRE, H3. reflexivity.
  - rewrite parseResult_Winner, H3.
    replace (3 <=? Go.len (getProperty root "RE"))
      with (negb (Go.len (getProperty root "RE") <? 3)) by lia.
    destruct (Go.len (getProperty root "RE") <? 3); [reflexivity|].
    cbn [negb andb].
    destruct (Go.byte_val (Go.index (getProperty root "RE") 0) =? rune "W")
      eqn:HW; [|destruct (_ =? rune "B"); reflexivity].
    apply Z.eqb_eq in HW. rewrite HW. reflexivity.
Qed.

(** The variation of a converted game is one of the five names that
    [parseRules] gives when its root has rules that are not empty, and it
    is empty, not Standard, when the root has none. *)
Theorem converted_game_variation root :
  (getProperty root "RU" = "" -> Variation (gameOfTree root) = "")
  /\ (getProperty root "RU" <> "" ->
      In (Variation (gameOfTree root)) variationNames).
Proof.
  unfold gameOfTree. cbn [Variation set_GameMoves].
  destruct (extractMetadata_steps root
              {| Metadata := MatchMetadata_zero; Games := [] |} Game_new)
    as [m1 ->].
  cbv zeta.
  set (g1 := (if String.eqb (getProperty root "MI") "" then _ else _).2).
  assert (H1 : Variation g1 = "").
  { subst g1. destruct (String.eqb (getProperty root "MI") "");
      [reflexivity|].
    apply (parseMatchInfo_keeps Application Variation); reflexivity. }
  clearbody g1.
  assert (Hlast : forall g3,
             Variation (if String.eqb (getProperty root "RE") "" then g3
                        else parseResult (getProperty root "RE") g3)
             = Variation g3).
  { intros g3. destruct (String.eqb (getProperty root "RE") "");
      [reflexivity|].
    apply (parseResult_keeps Variation); reflexivity. }
  rewrite Hlast.
  assert (Hcv : forall g2,
             Variation (if String.eqb (getProperty root "CV") "" then g2
                        else set_AutoDoubles (getPropertyInt root "CV") g2)
             = Variation g2).
  { intros g2. destruct (String.eqb (getProperty root "CV") "");
      reflexivity. }
  rewrite Hcv. split.
  - intros ->. exact H1.
  - intros Hru. apply String.eqb_neq in Hru. rewrite Hru.
    apply parseRules_Variation. rewrite H1. left. reflexivity.
Qed.

End GameProperties.

Lemma converted_game_variation_witness :
  getProperty (mkNode {["RU" := ["Jacoby:Nackgammon"]]} []) "RU" <> ""
  /\ Variation (@gameOfTree sampleFloats
                  (mkNode {["RU" := ["Jacoby:Nackgammon"]]} []))
     = "Nackgammon"
  /\ In (Variation (@gameOfTree sampleFloats
                      (mkNode {["RU" := ["Jacoby:Nackgammon"]]} [])))
        variationNames.
Proof.
  split; [vm_compute; discriminate|].
  split; [vm_compute; reflexivity|].
  apply (@converted_game_variation sampleFloats
           (mkNode {["RU" := ["Jacoby:Nackgammon"]]} [])).
  vm_compute. discriminate.
Defined.

(** ** The records of a node *)

Section NodeProperties.
Context `{FloatParser}.

Lemma moveRecordOf_Type node player moveStr comment :
  In (Type_ (moveRecordOf node player moveStr comment)) moveTypes.
Proof.
  rewrite (moveRecordOf_keeps Type_) by reflexivity.
  unfold moveRecordOf. rewrite !hasProperty_empty.
  repeat match goal with
         | |- context [if ?c then _ else _] => destruct c
         end; cbn; tauto.
Qed.

Lemma moveRecordOf_Comment node player moveStr comment :
  Comment (moveRecordOf node player moveStr comment) = comment.
Proof.
  rewrite (moveRecordOf_keeps Comment) by reflexivity.
  unfold moveRecordOf. rewrite !hasProperty_empty.
  repeat match goal with
         | |- context [if ?c then _ else _] => destruct c
         end; reflexivity.
Qed.

(** A node makes three records at most, and each of them carries the
    comment of the node. *)
Theorem node_records_comment node :
  (length (nodeRecords node) <= 3)%nat
  /\ Forall (fun mr => Comment mr = getProperty node "C") (nodeRecords node).
Proof.
  unfold nodeRecords, processNode, processMove, processSetBoard, appendMove.
  repeat match goal with
         | |- context [if ?c then _ else _] => destruct c
         end;
    cbn [fst snd GameMoves set_GameMoves Game_new app length];
    (split; [lia|]);
    repeat first [apply Forall_nil_2 | apply Forall_cons_2];
    first [apply moveRecordOf_Comment | reflexivity].
Qed.

(** Only the record of a move carries an analysis, a cube analysis, a luck
    or a skill rating.  The records that set the board, the cube or the
    dice carry none: the luck rating of a node that sets the dice is read
    after the record was added to the game, and is lost. *)
Theorem setup_records_are_bare node :
  Forall (fun mr => In (Type_ mr) moveTypes \/ bare mr) (nodeRecords node).
Proof.
  unfold nodeRecords, processNode, processMove, processSetBoard, appendMove.
  repeat match goal with
         | |- context [if ?c then _ else _] => destruct c
         end;
    cbn [fst snd GameMoves set_GameMoves Game_new app];
    repeat first [apply Forall_nil_2 | apply Forall_cons_2];
    first [left; apply moveRecordOf_Type
          | right; repeat split; reflexivity].
Qed.

End NodeProperties.

(** ** The best action of a cube analysis *)

Section CubeProperties.
Context `{FloatParser}.

(** The best action of the cube analysis of a record.  The equities after
    double/take and double/pass are never read, they are 0: so the best
    action of a take or a drop is always pass, never take, and that of a
    double is double exactly when the equity without double is below 0.
    A checker move that carries a cube analysis has no best action. *)
Theorem cube_best_action node player moveStr comment ca :
  CubeAnalysis_ (moveRecordOf node player moveStr comment) = Some ca ->
  BestAction ca
  = match Type_ (moveRecordOf node player moveStr comment) with
    | MoveTypeDouble =>
      if f64_gt f_zero (CubefulNoDouble ca) then "double" else "no_double"
    | MoveTypeTake | MoveTypeDrop => "pass"
    | _ => ""
    end.
Proof.
  assert (Hbase : CubeAnalysis_
                    (moveRecordOf (mkNode ∅ []) player moveStr comment)
                  = None).
  { unfold moveRecordOf. rewrite !hasProperty_empty.
    repeat match goal with
           | |- context [if ?c then _ else _] => destruct c
           end; reflexivity. }
  unfold moveRecordOf in *. rewrite !hasProperty_empty in Hbase.
  set (mr0 := if String.eqb moveStr "double" then _ else _) in *.
  clearbody mr0.
  set (mr1 := if hasProperty node "A" then _ else _).
  assert (H1 : CubeAnalysis_ mr1 = None).
  { subst mr1. destruct (hasProperty node "A"); [|exact Hbase].
    unfold parseMoveAnalysis.
    destruct (propertyValues node "A"); [exact Hbase|].
    destruct (plyAndRows _). exact Hbase. }
  clearbody mr1.
  destruct (hasProperty node "SK"), (hasProperty node "LU");
    rewrite ?parseSkill_CubeAnalysis, ?parseLuck_CubeAnalysis,
      ?parseSkill_Type, ?parseLuck_Type;
    (destruct (hasProperty node "DA"); [|congruence]);
    rewrite parseCubeAnalysis_Type; unfold parseCubeAnalysis;
    (destruct (propertyValues node "DA"); [congruence|]);
    (destruct (length _ <? 13)%nat; [congruence|]);
    cbn [CubeAnalysis_ set_CubeAnalysis_]; intros [= <-];
    cbn [BestAction CubefulNoDouble];
    destruct (Type_ mr1); reflexivity.
Qed.

End CubeProperties.

Lemma cube_best_action_witness :
  exists ca,
    CubeAnalysis_ (@moveRecordOf sampleFloats
                     (mkNode {["DA" := [sampleCubeRow]]} []) 0 "take" "")
    = Some ca
    /\ BestAction ca = "pass"
    /\ BestAction ca
       = match Type_ (@moveRecordOf sampleFloats
                        (mkNode {["DA" := [sampleCubeRow]]} []) 0 "take" "")
         with
         | MoveTypeDouble =>
           if f64_gt f_zero (CubefulNoDouble ca) then "double"
           else "no_double"
         | MoveTypeTake | MoveTypeDrop => "pass"
         | _ => ""
         end.
Proof.
  eexists. split; [vm_compute; reflexivity|].
  split; [reflexivity|].
  apply (@cube_best_action sampleFloats
           (mkNode {["DA" := [sampleCubeRow]]} []) 0 "take" "").
  vm_compute. reflexivity.
Defined.

(** ** The moves of the MAT notation *)

Section MatProperties.
Context `{Go.UnicodeCase}.

(** The unit tests of [parseMatPoint] and [parseMatMove]. *)
Example test_parseMatPoint :
  map parseMatPoint ["1"; "24"; "bar"; "Bar"; "off"; "Off"; "13*"; "invalid"]
  = [0; 23; 24; 24; -1; -1; 12; -2].
Proof. reflexivity. Qed.

Example test_parseMatMove :
  parseMatMove "6/5 8/5" = [5; 4; 7; 4; -1; -1; -1; -1]
  /\ parseMatMove "24/18 23/18" = [23; 17; 22; 17; -1; -1; -1; -1]
  /\ parseMatMove "bar/23" = [24; 22; -1; -1; -1; -1; -1; -1]
  /\ parseMatMove "6/off" = [5; -1; -1; -1; -1; -1; -1; -1]
  /\ parseMatMove "" = [-1; -1; -1; -1; -1; -1; -1; -1].
Proof. repeat split; reflexivity. Qed.

(** [parseMatPoint] gives -2 for a text it does not accept, -1 for off,
    24 for the bar and a value from 0 to 23 for a point; 25, the value of
    off in a move of an SGF file, is never given. *)
Theorem parseMatPoint_range s :
  -2 <= parseMatPoint s <= 24
  /\ (parseMatPoint s = 24 ->
      Go.ToLower (Go.TrimSuffix (Go.TrimSpace s) "*") = "bar").
Proof.
  unfold parseMatPoint. cbv zeta.
  destruct (String.eqb (Go.ToLower _) "bar") eqn:Hbar.
  - apply String.eqb_eq in Hbar. split; [lia|intros _; exact Hbar].
  - destruct (String.eqb (Go.ToLower _) "off"); [split; lia|].
    destruct (Go.Atoi _) as [point [|]]; [split; lia|].
    destruct ((1 <=? point) && (point <=? 24)) eqn:Hp; split; lia.
Qed.





End MatProperties.

Lemma parseMatPoint_range_witness :
  @parseMatPoint sampleCase " Bar* " = 24
  /\ -2 <= @parseMatPoint sampleCase " Bar* " <= 24
  /\ (@parseMatPoint sampleCase " Bar* " = 24 ->
      @Go.ToLower sampleCase (Go.TrimSuffix (Go.TrimSpace " Bar* ") "*")
      = "bar").
Proof.
  split; [reflexivity|]. apply (@parseMatPoint_range sampleCase " Bar* ").
Defined.

(** ** The rendering for side 1 *)

Lemma int_wrap_small x : - 2 ^ 63 <= x < 2 ^ 63 -> Go.int_wrap x = x.
Proof.
  intros Hx. unfold Go.int_wrap. cbv zeta.
  destruct (Z_lt_le_dec x 0) as [Hneg|Hpos].
  - replace (x mod 2 ^ 64) with (x + 2 ^ 64)
      by (apply Z.mod_unique with (q := -1); lia).
    destruct (x + 2 ^ 64 <? 2 ^ 63) eqn:E; lia.
  - rewrite Z.mod_small by lia.
    destruct (x <? 2 ^ 63) eqn:E; lia.
Qed.

Lemma mirror_twice p :
  0 <= p <= 23 ->
  Go.int_wrap (23 - (23 - p)) = p /\ (23 - p =? -1) = false.
Proof.
  intros Hp. rewrite int_wrap_small by lia. split; lia.
Qed.

(** The rendering for side 1 is the rendering for side 0 of the mirrored
    move: an array that [parseEncodedMove] builds from up to four pairs of
    board points is rendered for side 0 as the array of the points 23 - p
    is rendered for side 1. *)
Theorem side_1_renders_mirror points :
  Forall (fun p => 0 <= p <= 23) points ->
  In (length points) [0; 2; 4; 6; 8]%nat ->
  FormatMove (builtMove (map (fun p => 23 - p) points)) 1
  = FormatMove (builtMove points) 0.
Proof.
  intros Hall Hlen.
  destruct Hlen as [Hlen|[Hlen|[Hlen|[Hlen|[Hlen|[]]]]]];
    repeat (destruct points as [|? points]; try discriminate Hlen);
    clear Hlen;
    repeat match goal with
           | H : Forall _ (_ :: _) |- _ =>
             apply Forall_cons_1 in H; destruct H as [? H]
           end;
    unfold builtMove;
    cbn [map length Nat.ltb Nat.leb app Nat.sub zeros repeat];
    unfold FormatMove; at_simpl;
    cbn [FormatMove_loop Nat.add Nat.ltb Nat.leb]; at_simpl;
    cbn [Z.eqb Pos.eqb];
    repeat match goal with
           | H : 0 <= ?p <= 23 |- _ =>
             let H1 := fresh in
             let H2 := fresh in
             let H3 := fresh in
             destruct (mirror_twice p H) as [H1 H2];
             assert (H3 : (p =? -1) = false) by lia;
             rewrite ?H1, ?H2, ?H3; clear H H1 H2 H3
           end;
    reflexivity.
Qed.

Lemma side_1_renders_mirror_witness :
  Forall (fun p => 0 <= p <= 23) [11; 15; 0; 1]
  /\ FormatMove (builtMove [12; 8; 23; 22]) 1 = "l/p a/b"
  /\ FormatMove (builtMove (map (fun p => 23 - p) [11; 15; 0; 1])) 1
     = FormatMove (builtMove [11; 15; 0; 1]) 0.
Proof.
  assert (Hall : Forall (fun p => 0 <= p <= 23) [11; 15; 0; 1])
    by (repeat first [apply Forall_nil_2 | apply Forall_cons_2]; lia).
  split; [exact Hall|]. split; [reflexivity|].
  apply (side_1_renders_mirror [11; 15; 0; 1] Hall).
  right. right. left. reflexivity.
Defined.

(** ** The options of a move analysis *)

Section OptionProperties.
Context `{FloatParser}.

Lemma moveOptionOf_depth parts depth :
  optionOfDepth depth (moveOptionOf parts depth).
Proof.
  unfold optionOfDepth, moveOptionOf. cbn [AnalysisDepth OptMoveString OptMove].
  split; [reflexivity|].
  destruct (2 <=? Go.len (part parts 0)).
  - left. reflexivity.
  - right. split; reflexivity.
Qed.

(** The analysis of the record of a move names no selected move, its index
    is always 0; its options all carry one depth; and each option is
    rendered for side 0, whichever side the move of the record is of. *)
Theorem analysis_options node player moveStr comment ma :
  Analysis (moveRecordOf node player moveStr comment) = Some ma ->
  SelectedMove ma = 0
  /\ Forall (optionOfDepth (plyAndRows (propertyValues node "A")).1)
       (Moves ma).
Proof.
  assert (Hbase : Analysis (moveRecordOf (mkNode ∅ []) player moveStr comment)
                  = None).
  { unfold moveRecordOf. rewrite !hasProperty_empty.
    repeat match goal with
           | |- context [if ?c then _ else _] => destruct c
           end; reflexivity. }
  unfold moveRecordOf in *. rewrite !hasProperty_empty in Hbase.
  set (mr0 := if String.eqb moveStr "double" then _ else _) in *.
  clearbody mr0.
  destruct (hasProperty node "SK"), (hasProperty node "LU"),
    (hasProperty node "DA");
    rewrite ?parseSkill_Analysis, ?parseLuck_Analysis,
      ?parseCubeAnalysis_Analysis;
    (destruct (hasProperty node "A"); [|congruence]);
    unfold parseMoveAnalysis;
    (destruct (propertyValues node "A") as [|v vs]; [congruence|]);
    (destruct (plyAndRows (v :: vs)) as [ply rows]);
    cbn [Analysis set_Analysis]; intros [= <-]; cbn [SelectedMove Moves fst];
    (split; [reflexivity|]);
    rewrite parseMoveAnalysis_loop_rows; simpl;
    (induction rows as [|row rows IH]; [constructor|]);
    cbn [flat_map]; (apply Forall_app; split; [|exact IH]);
    unfold rowOption; (destruct (length _ <? 10)%nat; [constructor|]);
    repeat first [apply Forall_nil_2 | apply Forall_cons_2];
    apply moveOptionOf_depth.
Qed.

End OptionProperties.

Lemma analysis_options_witness :
  exists ma,
    Analysis (@moveRecordOf sampleFloats sampleNode 1 "52lpab" "") = Some ma
    /\ map OptMoveString (Moves ma) = ["l/p a/b"]
    /\ MoveString (@moveRecordOf sampleFloats sampleNode 1 "52lpab" "")
       = "m/i x/w"
    /\ SelectedMove ma = 0
    /\ Forall (optionOfDepth (plyAndRows (propertyValues sampleNode "A")).1)
         (Moves ma).
Proof.
  eexists. split; [vm_compute; reflexivity|].
  split; [vm_compute; reflexivity|]. split; [vm_compute; reflexivity|].
  apply (@analysis_options sampleFloats sampleNode 1 "52lpab" "").
  vm_compute. reflexivity.
Defined.

(** ** The board of a position that is set *)

Lemma addChecker_row side point white black :
  addChecker side point [white; black]
  = match side with
    | 0%nat => [addToRow white point; black]
    | 1%nat => [white; addToRow black point]
    | _ => [white; black]
    end.
Proof.
  unfold addChecker, addToRow, pointOf.
  destruct (Go.len point =? 1); [|destruct side as [|[|]]; reflexivity].
  cbv zeta.
  destruct ((0 <=? decodePoint (Go.index point 0))
            && (decodePoint (Go.index point 0) <? 25));
    destruct side as [|[|]]; reflexivity.
Qed.

Lemma addChecker_white values : forall white black,
  fold_left (fun b point => addChecker 0 point b) values [white; black]
  = [fold_left addToRow values white; black].
Proof.
  induction values as [|v values IH]; intros white black; [reflexivity|].
  cbn [fold_left]. rewrite addChecker_row. apply IH.
Qed.

Lemma addChecker_black values : forall white black,
  fold_left (fun b point => addChecker 1 point b) values [white; black]
  = [white; fold_left addToRow values black].
Proof.
  induction values as [|v values IH]; intros white black; [reflexivity|].
  cbn [fold_left]. rewrite addChecker_row. apply IH.
Qed.

Lemma pointOf_range point n : pointOf point = Some n -> (n < 25)%nat.
Proof.
  unfold pointOf. destruct (Go.len point =? 1); [|discriminate].
  cbv zeta.
  destruct ((0 <=? decodePoint (Go.index point 0))
            && (decodePoint (Go.index point 0) <? 25)) eqn:E; [|discriminate].
  intros [= <-]. lia.
Qed.

Lemma at_insert row n x pt :
  (n < length row)%nat ->
  at_ (<[n := x]> row) pt = if decide (n = pt) then x else at_ row pt.
Proof.
  intros Hn. unfold at_. destruct (decide (n = pt)) as [->|Hne].
  - rewrite list_lookup_insert_eq by exact Hn. reflexivity.
  - rewrite list_lookup_insert_ne by exact Hne. reflexivity.
Qed.

(** The checkers a list of values adds to a row. *)
Lemma addToRow_fold values : forall row,
  length row = 25%nat ->
  (forall pt, 0 <= at_ row pt) ->
  (forall pt, at_ row pt + Z.of_nat (length values) < 2 ^ 63) ->
  length (fold_left addToRow values row) = 25%nat
  /\ forall pt,
       at_ (fold_left addToRow values row) pt
       = at_ row pt + checkersOn values pt.
Proof.
  induction values as [|v values IH]; intros row Hlen Hpos Hsmall.
  - split; [exact Hlen|]. intros pt. simpl. lia.
  - cbn [fold_left checkersOn]. unfold addToRow at 2 4.
    destruct (pointOf v) as [n|] eqn:Hv.
    + pose proof (pointOf_range _ _ Hv) as Hn.
      assert (Hwrap : Go.int_wrap (at_ row n + 1) = at_ row n + 1).
      { apply int_wrap_small. pose proof (Hpos n). pose proof (Hsmall n).
        cbn [length] in *. lia. }
      rewrite Hwrap.
      destruct (IH (<[n := at_ row n + 1]> row)) as [Hl Hat].
      * rewrite length_insert. exact Hlen.
      * intros pt. rewrite at_insert by lia.
        pose proof (Hpos pt). pose proof (Hpos n).
        destruct (decide (n = pt)); lia.
      * intros pt. rewrite at_insert by lia.
        pose proof (Hsmall pt). pose proof (Hsmall n). cbn [length] in *.
        destruct (decide (n = pt)); lia.
      * split; [exact Hl|]. intros pt. rewrite Hat, at_insert by lia.
        destruct (decide (n = pt)) as [->|Hne].
        -- destruct (decide (Some pt = Some pt)); [lia|contradiction].
        -- destruct (decide (Some n = Some pt)); [congruence|lia].
    + destruct (IH row) as [Hl Hat]; [exact Hlen|exact Hpos| |].
      * intros pt. pose proof (Hsmall pt). cbn [length] in *. lia.
      * split; [exact Hl|]. intros pt. rewrite Hat.
        destruct (decide (None = Some pt)); [discriminate|lia].
Qed.

Lemma at_zeros n : forall pt, at_ (zeros n) pt = 0.
Proof.
  induction n as [|n IH]; intros [|pt]; try reflexivity.
  change (zeros (S n)) with (0 :: zeros n). rewrite at_next. apply IH.
Qed.

(** The record that sets the board has a position of two rows of 25
    counters.  The counter of a point in the row of side 0 is the number
    of the values of AW that name the point with one letter from a to y,
    and likewise for side 1 and AB; a value of several bytes, such as a
    range of points, puts no checker anywhere. *)
Theorem set_board_counts node game comment :
  Z.of_nat (length (propertyValues node "AW")) < 2 ^ 63 ->
  Z.of_nat (length (propertyValues node "AB")) < 2 ^ 63 ->
  exists pos white black,
    GameMoves (processSetBoard node game comment).1
    = GameMoves game
      ++ [set_Comment comment
            (set_Position_ (Some pos)
               (set_Type_ MoveTypeSetBoard MoveRecord_zero))]
    /\ Board pos = [white; black]
    /\ length white = 25%nat /\ length black = 25%nat
    /\ forall pt,
         at_ white pt = checkersOn (propertyValues node "AW") pt
         /\ at_ black pt = checkersOn (propertyValues node "AB") pt.
Proof.
  intros HW HB. unfold processSetBoard. cbv zeta.
  rewrite addChecker_white, addChecker_black.
  destruct (addToRow_fold (propertyValues node "AW") (zeros 25))
    as [Hlw Hw]; [reflexivity|intros; rewrite at_zeros; lia
                 |intros; rewrite at_zeros; lia|].
  destruct (addToRow_fold (propertyValues node "AB") (zeros 25))
    as [Hlb Hb]; [reflexivity|intros; rewrite at_zeros; lia
                 |intros; rewrite at_zeros; lia|].
  eexists. exists (fold_left addToRow (propertyValues node "AW") (zeros 25)),
    (fold_left addToRow (propertyValues node "AB") (zeros 25)).
  split; [reflexivity|]. split; [reflexivity|].
  split; [exact Hlw|]. split; [exact Hlb|].
  intros pt. rewrite Hw, Hb, !at_zeros. split; reflexivity.
Qed.

Lemma set_board_counts_witness :
  exists pos white black,
    GameMoves (processSetBoard
                 (mkNode (<["AW" := ["a"; "a"; "y"; "b:d"; "z"]]>
                            {["AB" := ["x"]]}) []) Game_new "").1
    = GameMoves Game_new
      ++ [set_Comment ""
            (set_Position_ (Some pos)
               (set_Type_ MoveTypeSetBoard MoveRecord_zero))]
    /\ Board pos = [white; black]
    /\ length white = 25%nat /\ length black = 25%nat
    /\ forall pt,
         at_ white pt
         = checkersOn
             (propertyValues
                (mkNode (<["AW" := ["a"; "a"; "y"; "b:d"; "z"]]>
                           {["AB" := ["x"]]}) []) "AW") pt
         /\ at_ black pt
            = checkersOn
                (propertyValues
                   (mkNode (<["AW" := ["a"; "a"; "y"; "b:d"; "z"]]>
                              {["AB" := ["x"]]}) []) "AB") pt.
Proof.
  apply (set_board_counts
           (mkNode (<["AW" := ["a"; "a"; "y"; "b:d"; "z"]]>
                      {["AB" := ["x"]]}) []) Game_new "");
    vm_compute; reflexivity.
Defined.

(** ** The round trip of a text through the parser *)

Lemma readChar_ahead p c rest :
  ahead p = c :: rest -> readChar p = Ok c (mkParser rest (rerr p) c false).
Proof.
  unfold ahead, readChar. destruct p as [rd e ch h]. simpl.
  destruct h; [intros [= -> ->]|intros ->]; reflexivity.
Qed.

Lemma peekChar_ahead p c rest :
  ahead p = c :: rest -> peekChar p = Ok c (mkParser rest (rerr p) c true).
Proof.
  unfold ahead, peekChar, readChar. destruct p as [rd e ch h]. simpl.
  destruct h; [intros [= -> ->]|intros ->]; reflexivity.
Qed.

Lemma peekChar_end p : ahead p = [] -> peekChar p = Err (rerr p).
Proof.
  unfold ahead, peekChar, readChar. destruct p as [rd e ch h]. simpl.
  destruct h; [discriminate|intros ->]; reflexivity.
Qed.

Lemma skipWhitespace_ahead f p c rest :
  ahead p = c :: rest -> is_blank c = false ->
  skipWhitespace (S f) p = Ok tt (mkParser rest (rerr p) c true).
Proof.
  intros Hp Hc. cbn [skipWhitespace]. rewrite (peekChar_ahead _ _ _ Hp), Hc.
  reflexivity.
Qed.

Lemma is_letter_not_blank c :
  is_letter c = true -> is_blank c = false /\ c <> rune "[".
Proof.
  unfold is_letter, is_blank, rune.
  change (Go.byte_val "A") with 65. change (Go.byte_val "Z") with 90.
  change (Go.byte_val "a") with 97. change (Go.byte_val "z") with 122.
  change (Go.byte_val " ") with 32. change (Go.byte_val "[") with 91.
  intros Hl. split; lia.
Qed.

Lemma string_of_rune_byte c :
  is_letter (Go.byte_val c) = true ->
  Go.string_of_rune (Go.byte_val c) = String c "".
Proof.
  intros Hl. destruct (string_of_rune_letter _ Hl) as [-> _].
  unfold Go.byte_of, Go.byte_val. rewrite N2Z.id, ascii_N_embedding.
  reflexivity.
Qed.

(** The name of a property that was written out is read back, and the
    rune after it is the next one the parser delivers. *)
Lemma parseProperty_name_print name c rest p f :
  propertyName name ->
  ahead p = runes_of name ++ c :: rest ->
  (String.length name = 1%nat -> is_letter c = false) ->
  parseProperty_name f p "" <> Fuel ->
  exists p1,
    parseProperty_name f p "" = Ok name p1
    /\ ahead p1 = c :: rest /\ rerr p1 = rerr p.
Proof.
  intros [Hlen Hall] Hp Hnext Hrun.
  destruct name as [|a [|b [|]]]; simpl in Hlen; try lia.
  - (* one letter *)
    cbn in Hall. rewrite andb_true_r in Hall.
    specialize (Hnext eq_refl).
    change (runes_of (String a "") ++ c :: rest)
      with (Go.byte_val a :: c :: rest) in Hp.
    destruct f as [|f]; [exfalso; apply Hrun; reflexivity|].
    cbn [parseProperty_name] in Hrun |- *.
    rewrite (readChar_ahead _ _ _ Hp), Hall, (string_of_rune_byte _ Hall)
      in Hrun |- *.
    change (2 <=? Go.len ("" ++ String a "")) with false in Hrun |- *.
    cbv iota in Hrun |- *.
    destruct f as [|f]; [exfalso; apply Hrun; reflexivity|].
    cbn [parseProperty_name].
    rewrite (readChar_ahead (mkParser (c :: rest) (rerr p) (Go.byte_val a) false)
               c rest eq_refl), Hnext.
    eexists. split; [reflexivity|]. split; reflexivity.
  - (* two letters *)
    cbn in Hall. rewrite andb_true_r in Hall.
    apply andb_true_iff in Hall as [Ha Hb].
    change (runes_of (String a (String b "")) ++ c :: rest)
      with (Go.byte_val a :: Go.byte_val b :: c :: rest) in Hp.
    destruct f as [|f]; [exfalso; apply Hrun; reflexivity|].
    cbn [parseProperty_name] in Hrun |- *.
    rewrite (readChar_ahead _ _ _ Hp), Ha, (string_of_rune_byte _ Ha)
      in Hrun |- *.
    change (2 <=? Go.len ("" ++ String a "")) with false in Hrun |- *.
    cbv iota in Hrun |- *.
    destruct f as [|f]; [exfalso; apply Hrun; reflexivity|].
    cbn [parseProperty_name].
    rewrite (readChar_ahead
               (mkParser (Go.byte_val b :: c :: rest) (rerr p)
                  (Go.byte_val a) false) (Go.byte_val b) (c :: rest) eq_refl),
      Hb, (string_of_rune_byte _ Hb).
    change (2 <=? Go.len (("" ++ String a "") ++ String b "")) with true.
    eexists. split; [reflexivity|]. split; reflexivity.
Qed.

Lemma parsePropertyValue_loop_print text f value rest e ch :
  parsePropertyValue_loop f
    (mkParser (escapeRunes text ++ rune "]" :: rest) e ch false) value false
  <> Fuel ->
  parsePropertyValue_loop f
    (mkParser (escapeRunes text ++ rune "]" :: rest) e ch false) value false
  = Ok (value ++ textOf text)%string (mkParser rest e (rune "]") false).
Proof.
  intros Hrun.
  rewrite <- (parsePropertyValue_loop_escaped text value rest e ch
                (f + S (length (escapeRunes text)))) by lia.
  symmetry. eapply parsePropertyValue_loop_mono; [|reflexivity|exact Hrun].
  lia.
Qed.

Lemma printValue_cons text rest :
  printValue text ++ rest
  = rune "[" :: escapeRunes text ++ rune "]" :: rest.
Proof. unfold printValue. cbn [app]. rewrite <- app_assoc. reflexivity. Qed.

Lemma parsePropertyValue_print text rest p f :
  ahead p = printValue text ++ rest ->
  parsePropertyValue f p <> Fuel ->
  parsePropertyValue f p
  = Ok (textOf text) (mkParser rest (rerr p) (rune "]") false).
Proof.
  rewrite printValue_cons.
  intros Hp Hrun. unfold parsePropertyValue in *.
  rewrite (readChar_ahead _ _ _ Hp) in *. rewrite Z.eqb_refl in *.
  rewrite parsePropertyValue_loop_print by exact Hrun. reflexivity.
Qed.

Lemma parseProperty_values_S f p values :
  parseProperty_values (S f) p values
  = match skipWhitespace f p with
    | Ok _ p0 =>
      match peekChar p0 with
      | Ok ch p1 =>
        if ch =? rune "[" then
          match parsePropertyValue f p1 with
          | Ok value p2 => parseProperty_values f p2 (values ++ [value])
          | Err e => Err e
          | Fuel => Fuel
          end
        else Ok values p1
      | Err e => Err e
      | Fuel => Fuel
      end
    | Err e => Err e
    | Fuel => Fuel
    end.
Proof. reflexivity. Qed.

(** The values of a property that were written out are read back in their
    order. *)
Lemma parseProperty_values_print vals : forall f p acc c rest,
  ahead p = flat_map printValue vals ++ c :: rest ->
  is_blank c = false -> c <> rune "[" ->
  parseProperty_values f p acc <> Fuel ->
  parseProperty_values f p acc
  = Ok (acc ++ map textOf vals) (mkParser rest (rerr p) c true).
Proof.
  induction vals as [|v vals IH]; intros f p acc c rest Hp Hb Hc Hrun.
  - cbn [flat_map app] in Hp.
    destruct f as [|f]; [exfalso; apply Hrun; reflexivity|].
    rewrite parseProperty_values_S in Hrun |- *.
    destruct f as [|f]; [exfalso; apply Hrun; reflexivity|].
    rewrite (skipWhitespace_ahead _ _ _ _ Hp Hb).
    rewrite (peekChar_ahead (mkParser rest (rerr p) c true) c rest eq_refl).
    apply Z.eqb_neq in Hc. rewrite Hc. cbn [map rerr].
    rewrite app_nil_r. reflexivity.
  - cbn [flat_map map] in *. rewrite <- app_assoc in Hp.
    assert (Hp' := Hp). rewrite printValue_cons in Hp'.
    destruct f as [|f]; [exfalso; apply Hrun; reflexivity|].
    rewrite parseProperty_values_S in Hrun |- *.
    destruct f as [|f]; [exfalso; apply Hrun; reflexivity|].
    rewrite (skipWhitespace_ahead _ _ _ _ Hp' eq_refl) in Hrun |- *.
    set (p1 := mkParser _ (rerr p) (rune "[") true) in *.
    assert (Hp1 : ahead p1
                  = printValue v ++ flat_map printValue vals ++ c :: rest)
      by (rewrite printValue_cons; reflexivity).
    assert (Hpeek : peekChar p1 = Ok (rune "[") p1) by reflexivity.
    rewrite Hpeek in Hrun |- *. rewrite Z.eqb_refl in Hrun |- *.
    assert (Hv : parsePropertyValue (S f) p1 <> Fuel)
      by (intros HF; rewrite HF in Hrun; congruence).
    rewrite (parsePropertyValue_print v _ p1 (S f) Hp1 Hv) in Hrun |- *.
    erewrite IH; [|reflexivity|exact Hb|exact Hc|exact Hrun].
    rewrite <- app_assoc. reflexivity.
Qed.

Lemma flat_map_printValue_first vals (c : Z) rest :
  (vals <> [] \/ (is_blank c = false /\ c <> rune "[")) ->
  exists c' rest',
    flat_map printValue vals ++ c :: rest = c' :: rest'
    /\ is_blank c' = false
    /\ (vals <> [] -> c' = rune "[").
Proof.
  destruct vals as [|v vals]; intros Hor.
  - destruct Hor as [Hne|[Hb Hc]]; [contradiction|].
    exists c, rest. repeat split; [exact Hb|contradiction].
  - eexists _, _. cbn [flat_map printValue app]. split; [reflexivity|].
    split; reflexivity.
Qed.

(** A property that was written out is read back. *)
Lemma parseProperty_print nv c rest p f :
  wellNamed nv ->
  ahead p = printProperty nv ++ c :: rest ->
  is_blank c = false -> c <> rune "[" ->
  parseProperty f p <> Fuel ->
  parseProperty f p = Ok (readProperty nv) (mkParser rest (rerr p) c true).
Proof.
  intros [Hname Hone] Hp Hb Hc Hrun. unfold printProperty in Hp.
  rewrite <- app_assoc in Hp.
  destruct (flat_map_printValue_first nv.2 c rest) as (c' & rest' & Hv & _ & Hc').
  { right. split; assumption. }
  rewrite Hv in Hp. unfold parseProperty in *.
  destruct (parseProperty_name_print nv.1 c' rest' p f Hname Hp)
    as (p1 & Hn & Hp1 & He).
  { intros H1. rewrite (Hc' (Hone H1)). reflexivity. }
  { intros HF. rewrite HF in Hrun. congruence. }
  rewrite Hn in *. rewrite <- Hv in Hp1.
  rewrite (parseProperty_values_print nv.2 f p1 [] c rest Hp1 Hb Hc) in *.
  - rewrite He. reflexivity.
  - intros HF. rewrite HF in Hrun. congruence.
  - destruct (parseProperty_values f p1 []); congruence.
Qed.

Lemma parseNode_loop_S f p props :
  parseNode_loop (S f) p props
  = match skipWhitespace f p with
    | Ok _ p0 =>
      match peekChar p0 with
      | Ok ch p1 =>
        if is_letter ch then
          match parseProperty f p1 with
          | Ok (prop, values) p2 =>
            parseNode_loop f p2 (<[prop := values]> props)
          | Err e => Err (Wrap "error parsing property: " e)
          | Fuel => Fuel
          end
        else Ok (mkNode props []) p1
      | Err e => Err e
      | Fuel => Fuel
      end
    | Err e => Err e
    | Fuel => Fuel
    end.
Proof. reflexivity. Qed.

(** The text of a list of properties followed by a rune starts with a
    rune that is no blank and no opening bracket. *)
Lemma printProperty_first props (c : Z) rest :
  Forall wellNamed props -> is_blank c = false -> c <> rune "[" ->
  exists c' rest',
    flat_map printProperty props ++ c :: rest = c' :: rest'
    /\ is_blank c' = false /\ c' <> rune "["
    /\ (props <> [] -> is_letter c' = true).
Proof.
  intros Hall Hb Hc. destruct props as [|[name vals] props].
  - exists c, rest. repeat split; [exact Hb|exact Hc|contradiction].
  - apply Forall_cons_1 in Hall as [[[Hlen Hl] _] _]. cbn [fst] in *.
    destruct name as [|a name]; [simpl in Hlen; lia|].
    cbn [allLetters] in Hl. apply andb_true_iff in Hl as [Ha _].
    eexists _, _. cbn [flat_map printProperty fst snd].
    change (runes_of (String a name))
      with (Go.byte_val a :: runes_of name).
    cbn [app]. split; [reflexivity|].
    destruct (is_letter_not_blank _ Ha) as [H1 H2].
    split; [exact H1|]. split; [exact H2|]. intros _. exact Ha.
Qed.

(** The properties of a node that were written out are read back, each
    one written into the map of the node in its turn. *)
Lemma parseNode_loop_print props : forall f p acc c rest,
  Forall wellNamed props ->
  ahead p = flat_map printProperty props ++ c :: rest ->
  is_blank c = false -> is_letter c = false -> c <> rune "[" ->
  parseNode_loop f p acc <> Fuel ->
  parseNode_loop f p acc
  = Ok (mkNode (fold_left setProperty (map readProperty props) acc) [])
       (mkParser rest (rerr p) c true).
Proof.
  induction props as [|nv props IH]; intros f p acc c rest Hall Hp Hb Hl Hc Hrun.
  - cbn [flat_map app] in Hp.
    destruct f as [|f]; [exfalso; apply Hrun; reflexivity|].
    rewrite parseNode_loop_S in Hrun |- *.
    destruct f as [|f]; [exfalso; apply Hrun; reflexivity|].
    rewrite (skipWhitespace_ahead _ _ _ _ Hp Hb).
    rewrite (peekChar_ahead (mkParser rest (rerr p) c true) c rest eq_refl).
    rewrite Hl. reflexivity.
  - apply Forall_cons_1 in Hall as [Hnv Hall].
    cbn [flat_map map fold_left] in *. rewrite <- app_assoc in Hp.
    destruct (printProperty_first props c rest Hall Hb Hc)
      as (c1 & rest1 & Hnext & Hb1 & Hc1 & _).
    destruct (printProperty_first (nv :: props) c rest) as
      (c0 & rest0 & Hfirst & Hb0 & _ & Hl0);
      [apply Forall_cons_2; assumption|exact Hb|exact Hc|].
    specialize (Hl0 ltac:(discriminate)).
    cbn [flat_map] in Hfirst. rewrite <- app_assoc in Hfirst.
    assert (Hp0 := Hp). rewrite Hfirst in Hp0.
    destruct f as [|f]; [exfalso; apply Hrun; reflexivity|].
    rewrite parseNode_loop_S in Hrun |- *.
    destruct f as [|f]; [exfalso; apply Hrun; reflexivity|].
    rewrite (skipWhitespace_ahead _ _ _ _ Hp0 Hb0) in Hrun |- *.
    set (p1 := mkParser rest0 (rerr p) c0 true) in *.
    assert (Hpeek : peekChar p1 = Ok c0 p1) by reflexivity.
    rewrite Hpeek, Hl0 in Hrun |- *.
    assert (Hp1 : ahead p1 = printProperty nv ++ c1 :: rest1).
    { change (ahead p1) with (c0 :: rest0).
      rewrite <- Hfirst, Hnext. reflexivity. }
    assert (Hprop : parseProperty (S f) p1 <> Fuel)
      by (intros HF; rewrite HF in Hrun; congruence).
    rewrite (parseProperty_print nv c1 rest1 p1 (S f) Hnv Hp1 Hb1 Hc1 Hprop)
      in Hrun |- *.
    unfold readProperty at 1 in Hrun. unfold readProperty at 1.
    erewrite IH; [reflexivity|exact Hall| |exact Hb|exact Hl|exact Hc
                 |exact Hrun].
    rewrite Hnext. reflexivity.
Qed.

Lemma parseNode_print props c rest p f :
  Forall wellNamed props ->
  is_blank c = false -> is_letter c = false -> c <> rune "[" ->
  ahead p = printNode props ++ c :: rest ->
  parseNode f p <> Fuel ->
  parseNode f p = Ok (readNode props) (mkParser rest (rerr p) c true).
Proof.
  intros Hall Hb Hl Hc Hp Hrun.
  unfold printNode in Hp. cbn [app] in Hp. unfold parseNode in *.
  rewrite (readChar_ahead _ _ _ Hp) in Hrun |- *.
  rewrite Z.eqb_refl in Hrun |- *.
  erewrite parseNode_loop_print;
    [reflexivity|exact Hall|reflexivity|exact Hb|exact Hl|exact Hc
    |exact Hrun].
Qed.

Lemma pending_ahead p : pending p = length (ahead p).
Proof. unfold pending, ahead. destruct (hasChar p); simpl; lia. Qed.

(** A node that was written out, its properties named by one or two
    letters, is read back: the parser returns the node of its properties
    and is left at the rune that follows. *)
Theorem parseNode_reads_print props c rest p f :
  Forall wellNamed props ->
  is_blank c = false -> is_letter c = false -> c <> rune "[" ->
  ahead p = printNode props ++ c :: rest ->
  (length (ahead p) + 2 < f)%nat ->
  parseNode f p = Ok (readNode props) (mkParser rest (rerr p) c true).
Proof.
  intros Hall Hb Hl Hc Hp Hf.
  apply parseNode_print; try assumption.
  apply parseNode_total. rewrite pending_ahead. exact Hf.
Qed.

Lemma parseNode_reads_print_witness :
  parseNode 40
    (NewSGFParser
       (printNode [("B", [runes_of "52lpab"]);
                   ("C", [runes_of "a ] and a \"; []])]
        ++ rune ")" :: []) EOF)
  = Ok (mkNode (<["C" := ["a ] and a \"; ""]]> {["B" := ["52lpab"]]}) [])
       (mkParser [] EOF (rune ")") true).
Proof.
  apply (parseNode_reads_print
           [("B", [runes_of "52lpab"]); ("C", [runes_of "a ] and a \"; []])]
           (rune ")") []
           (NewSGFParser
              (printNode [("B", [runes_of "52lpab"]);
                          ("C", [runes_of "a ] and a \"; []])]
               ++ rune ")" :: []) EOF) 40).
  - repeat first [apply Forall_nil_2 | apply Forall_cons_2];
      (split; [split; [left; reflexivity|reflexivity]|discriminate]).
  - reflexivity.
  - reflexivity.
  - discriminate.
  - reflexivity.
  - vm_compute. lia.
Defined.

Lemma parseGame_loop_S f p root :
  parseGame_loop (S f) p root
  = match skipWhitespace f p with
    | Ok _ p0 =>
      match peekChar p0 with
      | Ok ch p1 =>
        if ch =? rune ")" then Ok root (discardChar p1)
        else if ch =? rune ";" then
          match parseNode f p1 with
          | Ok node p2 =>
            if bool_decide (size (Properties root) = 0%nat)
            then parseGame_loop f p2 node
            else parseGame_loop f p2 (addAtCurrent root node)
          | Err e => Err e
          | Fuel => Fuel
          end
        else if ch =? rune "(" then
          match skipVariation f (discardChar p1) 1 with
          | Ok _ p3 => parseGame_loop f p3 root
          | Err e => Err e
          | Fuel => Fuel
          end
        else
          Err (Errorf ("unexpected character in game tree: "
                       ++ Go.string_of_rune ch))
      | Err e => Err e
      | Fuel => Fuel
      end
    | Err e => Err e
    | Fuel => Fuel
    end.
Proof. reflexivity. Qed.

Lemma printNode_first nodes rest :
  exists c rest',
    flat_map printNode nodes ++ rune ")" :: rest = c :: rest'
    /\ (c = rune ";" \/ c = rune ")").
Proof.
  destruct nodes as [|props nodes].
  - exists (rune ")"), rest. split; [reflexivity|right; reflexivity].
  - eexists _, _. cbn [flat_map printNode app]. split; [reflexivity|].
    left. reflexivity.
Qed.

(** The nodes of a game tree that were written out are read back and
    taken into the tree one after the other. *)
Lemma parseGame_loop_print nodes : forall f p root rest,
  Forall (Forall wellNamed) nodes ->
  ahead p = flat_map printNode nodes ++ rune ")" :: rest ->
  parseGame_loop f p root <> Fuel ->
  parseGame_loop f p root
  = Ok (fold_left attach (map readNode nodes) root)
       (mkParser rest (rerr p) (rune ")") false).
Proof.
  induction nodes as [|props nodes IH]; intros f p root rest Hall Hp Hrun.
  - cbn [flat_map app] in Hp.
    destruct f as [|f]; [exfalso; apply Hrun; reflexivity|].
    rewrite parseGame_loop_S in Hrun |- *.
    destruct f as [|f]; [exfalso; apply Hrun; reflexivity|].
    rewrite (skipWhitespace_ahead _ _ _ _ Hp eq_refl).
    rewrite (peekChar_ahead (mkParser rest (rerr p) (rune ")") true)
               (rune ")") rest eq_refl).
    reflexivity.
  - apply Forall_cons_1 in Hall as [Hprops Hall].
    cbn [flat_map map fold_left] in *. rewrite <- app_assoc in Hp.
    destruct (printNode_first nodes rest) as (c & rest' & Hnext & Hc).
    assert (Hp0 := Hp). unfold printNode at 1 in Hp0. cbn [app] in Hp0.
    destruct f as [|f]; [exfalso; apply Hrun; reflexivity|].
    rewrite parseGame_loop_S in Hrun |- *.
    destruct f as [|f]; [exfalso; apply Hrun; reflexivity|].
    rewrite (skipWhitespace_ahead _ _ _ _ Hp0 eq_refl) in Hrun |- *.
    set (p1 := mkParser _ (rerr p) (rune ";") true) in *.
    assert (Hpeek : peekChar p1 = Ok (rune ";") p1) by reflexivity.
    rewrite Hpeek in Hrun |- *.
    change (rune ";" =? rune ")") with false in Hrun |- *.
    change (rune ";" =? rune ";") with true in Hrun |- *.
    cbv iota in Hrun |- *.
    assert (Hp1 : ahead p1 = printNode props ++ c :: rest').
    { rewrite <- Hnext. reflexivity. }
    assert (Hnode : parseNode (S f) p1 <> Fuel)
      by (intros HF; rewrite HF in Hrun; congruence).
    assert (Hcs : is_blank c = false /\ is_letter c = false /\ c <> rune "[")
      by (destruct Hc as [-> | ->]; repeat split; discriminate).
    destruct Hcs as (Hb & Hl & Hbr).
    rewrite (parseNode_print props c rest' p1 (S f) Hprops Hb Hl Hbr Hp1 Hnode)
      in Hrun |- *.
    unfold attach at 2.
    destruct (bool_decide (size (Properties root) = 0%nat));
      (erewrite IH; [reflexivity|exact Hall| |exact Hrun]);
      rewrite Hnext; reflexivity.
Qed.

Lemma parseGame_print nodes rest p f :
  Forall (Forall wellNamed) nodes ->
  ahead p = printGame nodes ++ rest ->
  parseGame f p <> Fuel ->
  parseGame f p = Ok (readGame nodes) (mkParser rest (rerr p) (rune ")") false).
Proof.
  intros Hall Hp Hrun. unfold printGame in Hp. cbn [app] in Hp.
  rewrite <- app_assoc in Hp. cbn [app] in Hp.
  unfold parseGame in *.
  rewrite (readChar_ahead _ _ _ Hp) in Hrun |- *.
  rewrite Z.eqb_refl in Hrun |- *.
  erewrite parseGame_loop_print; [reflexivity|exact Hall|reflexivity
                                 |exact Hrun].
Qed.

Lemma fold_setProperty_size props : forall acc,
  props <> [] -> size (fold_left setProperty props acc) <> 0%nat.
Proof.
  induction props as [|nv props IH] using rev_ind; intros acc Hne;
    [contradiction|].
  rewrite fold_left_app. cbn [fold_left]. unfold setProperty at 1.
  intros Hsize. apply map_size_empty_inv in Hsize.
  apply (insert_non_empty _ _ _ Hsize).
Qed.

Lemma readNode_size props :
  props <> [] -> size (Properties (readNode props)) <> 0%nat.
Proof.
  intros Hne. unfold readNode. cbn [Properties].
  apply fold_setProperty_size. destruct props; [contradiction|discriminate].
Qed.

Lemma addAtCurrent_chainOf maps : forall props node,
  Children node = [] ->
  addAtCurrent (chainOf (props :: maps)) node
  = chainOf (props :: maps ++ [Properties node]).
Proof.
  induction maps as [|m maps IH]; intros props node Hleaf.
  - destruct node as [ps cs]. simpl in Hleaf. subst cs. reflexivity.
  - change (chainOf (props :: m :: maps))
      with (mkNode props [chainOf (m :: maps)]).
    cbn [addAtCurrent]. rewrite (IH m node Hleaf). reflexivity.
Qed.

Lemma attach_chainOf nodes : forall props maps,
  Forall (fun props => props <> []) nodes ->
  size props <> 0%nat ->
  fold_left attach (map readNode nodes) (chainOf (props :: maps))
  = chainOf (props :: maps
             ++ map (fun props => Properties (readNode props)) nodes).
Proof.
  induction nodes as [|n nodes IH]; intros props maps Hall Hsize.
  - cbn [map fold_left]. rewrite app_nil_r. reflexivity.
  - apply Forall_cons_1 in Hall as [Hn Hall].
    cbn [map fold_left]. unfold attach at 2.
    replace (bool_decide (size (Properties (chainOf (props :: maps))) = 0%nat))
      with false
      by (symmetry; apply bool_decide_eq_false; exact Hsize).
    rewrite addAtCurrent_chainOf by reflexivity.
    rewrite (IH props (maps ++ [Properties (readNode n)]) Hall Hsize).
    rewrite <- app_assoc. reflexivity.
Qed.

(** The tree read of a game that was written out is the chain of its
    nodes, when each node has a property. *)
Lemma readGame_chainOf nodes :
  Forall (fun props => props <> []) nodes ->
  readGame nodes
  = chainOf (map (fun props => Properties (readNode props)) nodes).
Proof.
  intros Hall. unfold readGame. destruct nodes as [|n nodes]; [reflexivity|].
  apply Forall_cons_1 in Hall as [Hn Hall].
  cbn [map fold_left]. unfold attach at 2. cbn [Properties].
  rewrite map_size_empty.
  replace (bool_decide (0%nat = 0%nat)) with true
    by (symmetry; apply bool_decide_eq_true; reflexivity).
  change (readNode n) with (chainOf [Properties (readNode n)]).
  rewrite attach_chainOf; [reflexivity|exact Hall|].
  apply readNode_size, Hn.
Qed.

(** A game tree that was written out, each of its nodes with a property
    at least, is read back as the chain of its nodes, and the parser is
    left behind its closing parenthesis. *)
Theorem parseGame_reads_print nodes rest p f :
  Forall (Forall wellNamed) nodes ->
  Forall (fun props => props <> []) nodes ->
  ahead p = printGame nodes ++ rest ->
  (length (ahead p) + 3 < f)%nat ->
  parseGame f p
  = Ok (writtenTree nodes) (mkParser rest (rerr p) (rune ")") false).
Proof.
  intros Hall Hne Hp Hf. unfold writtenTree.
  rewrite <- (readGame_chainOf nodes Hne).
  apply parseGame_print; try assumption.
  apply parseGame_total. rewrite pending_ahead. exact Hf.
Qed.

Lemma parseGame_reads_print_witness :
  parseGame 40
    (NewSGFParser
       (printGame [[("GM", [runes_of "6"])];
                   [("B", [runes_of "52lpab"])];
                   [("W", [runes_of "31ab"]); ("C", [runes_of "[ok]"])]]
        ++ runes_of " x") EOF)
  = Ok (mkNode {["GM" := ["6"]]}
          [mkNode {["B" := ["52lpab"]]}
             [mkNode (<["C" := ["[ok]"]]> {["W" := ["31ab"]]}) []]])
       (mkParser (runes_of " x") EOF (rune ")") false).
Proof.
  apply (parseGame_reads_print
           [[("GM", [runes_of "6"])];
            [("B", [runes_of "52lpab"])];
            [("W", [runes_of "31ab"]); ("C", [runes_of "[ok]"])]]
           (runes_of " x")
           (NewSGFParser
              (printGame [[("GM", [runes_of "6"])];
                          [("B", [runes_of "52lpab"])];
                          [("W", [runes_of "31ab"]); ("C", [runes_of "[ok]"])]]
               ++ runes_of " x") EOF) 40).
  - repeat first [apply Forall_nil_2 | apply Forall_cons_2];
      (split; [split; [(left; reflexivity) || (right; reflexivity)
                      |reflexivity]|discriminate]).
  - repeat first [apply Forall_nil_2 | apply Forall_cons_2]; discriminate.
  - reflexivity.
  - vm_compute. lia.
Defined.

Lemma parseGameTree_loop_S f p games :
  parseGameTree_loop (S f) p games
  = match skipWhitespace f p with
    | Ok _ p0 =>
      match peekChar p0 with
      | Ok ch p1 =>
        if ch =? rune "(" then
          match parseGame f p1 with
          | Ok game p2 => parseGameTree_loop f p2 (games ++ [game])
          | Err e => Err e
          | Fuel => Fuel
          end
        else Ok games p1
      | Err e => if error_eqb_EOF e then Ok games p0 else Err e
      | Fuel => Fuel
      end
    | Err e => Err e
    | Fuel => Fuel
    end.
Proof. reflexivity. Qed.

(** The game trees that were written out one after the other, up to the
    end of the input, are read back in their order. *)
Lemma parseGameTree_loop_print games : forall f p acc,
  Forall (Forall (Forall wellNamed)) games ->
  ahead p = flat_map printGame games -> rerr p = EOF ->
  parseGameTree_loop f p acc <> Fuel ->
  exists p', parseGameTree_loop f p acc = Ok (acc ++ map readGame games) p'.
Proof.
  induction games as [|nodes games IH]; intros f p acc Hall Hp He Hrun.
  - cbn [flat_map] in Hp.
    destruct f as [|f]; [exfalso; apply Hrun; reflexivity|].
    rewrite parseGameTree_loop_S in Hrun |- *.
    destruct f as [|f]; [exfalso; apply Hrun; reflexivity|].
    cbn [skipWhitespace]. rewrite (peekChar_end _ Hp). cbv beta iota.
    rewrite (peekChar_end _ Hp), He. cbn [error_eqb_EOF].
    exists p. cbn [map]. rewrite app_nil_r. reflexivity.
  - apply Forall_cons_1 in Hall as [Hnodes Hall].
    cbn [flat_map map] in *.
    assert (Hp0 := Hp). unfold printGame at 1 in Hp0. cbn [app] in Hp0.
    destruct f as [|f]; [exfalso; apply Hrun; reflexivity|].
    rewrite parseGameTree_loop_S in Hrun |- *.
    destruct f as [|f]; [exfalso; apply Hrun; reflexivity|].
    rewrite (skipWhitespace_ahead _ _ _ _ Hp0 eq_refl) in Hrun |- *.
    set (p1 := mkParser _ (rerr p) (rune "(") true) in *.
    assert (Hpeek : peekChar p1 = Ok (rune "(") p1) by reflexivity.
    rewrite Hpeek in Hrun |- *. rewrite Z.eqb_refl in Hrun |- *.
    assert (Hp1 : ahead p1 = printGame nodes ++ flat_map printGame games)
      by reflexivity.
    assert (Hgame : parseGame (S f) p1 <> Fuel)
      by (intros HF; rewrite HF in Hrun; congruence).
    rewrite (parseGame_print nodes _ p1 (S f) Hnodes Hp1 Hgame) in Hrun |- *.
    destruct (IH (S f) (mkParser (flat_map printGame games) (rerr p1)
                          (rune ")") false)
                (acc ++ [readGame nodes]) Hall eq_refl He Hrun)
      as [p' Hp'].
    exists p'. rewrite Hp', <- app_assoc. reflexivity.
Qed.

Section RoundTrip.
Context `{FloatParser}.

(** The round trip through [ParseSGF]: game trees that were written out
    one after the other, each node with a property at least and the names
    of the properties one or two letters, are parsed into the chains of
    nodes that were written, and converted to a match with one game for
    each of them, in their order. *)
Theorem ParseSGF_reads_print games :
  games <> [] ->
  Forall (Forall (Forall wellNamed)) games ->
  Forall (Forall (fun props => props <> [])) games ->
  (exists p,
     parseGameTree (parseFuel (flat_map printGame games))
       (NewSGFParser (flat_map printGame games) EOF)
     = Ok (map writtenTree games) p)
  /\ exists m,
       ParseSGF (flat_map printGame games) EOF = Some (Some m, None)
       /\ Games m = map gameOfTree (map writtenTree games).
Proof.
  intros Hne Hall Hprops.
  assert (Hread : map readGame games = map writtenTree games).
  { clear Hne Hall.
    induction Hprops as [|nodes games Hn _ IH]; [reflexivity|].
    cbn [map]. rewrite IH, (readGame_chainOf nodes Hn). reflexivity. }
  destruct (parseGameTree_loop_print games
              (parseFuel (flat_map printGame games))
              (NewSGFParser (flat_map printGame games) EOF) [] Hall
              eq_refl eq_refl (parseGameTree_total _ _)) as [p Hp].
  cbn [app] in Hp. rewrite Hread in Hp.
  split; [exists p; exact Hp|].
  unfold ParseSGF. unfold parseGameTree. rewrite Hp.
  destruct games as [|nodes games]; [contradiction|].
  cbn [map].
  destruct (convertNodesToMatch_games (writtenTree nodes)
              (map writtenTree games)) as (m & Hm & Hg).
  exists m. rewrite Hm. split; [reflexivity|exact Hg].
Qed.

End RoundTrip.

Lemma ParseSGF_reads_print_witness :
  exists m,
    @ParseSGF sampleFloats
      (flat_map printGame
         [[[("B", [runes_of "52lpab"])]; [("W", [runes_of "31ab"])]];
          [[("W", [runes_of "64ab"])]]]) EOF
    = Some (Some m, None)
    /\ map (fun g => map (fun mr => (Player mr, Dice mr)) (GameMoves g))
         (Games m)
       = [[(1, [5; 2]); (0, [3; 1])]; [(0, [6; 4])]]
    /\ Games m
       = map (@gameOfTree sampleFloats)
           (map writtenTree
              [[[("B", [runes_of "52lpab"])]; [("W", [runes_of "31ab"])]];
               [[("W", [runes_of "64ab"])]]]).
Proof.
  destruct (@ParseSGF_reads_print sampleFloats
              [[[("B", [runes_of "52lpab"])]; [("W", [runes_of "31ab"])]];
               [[("W", [runes_of "64ab"])]]])
    as [_ (m & Hm & Hg)].
  - discriminate.
  - repeat first [apply Forall_nil_2 | apply Forall_cons_2];
      (split; [split; [(left; reflexivity) || (right; reflexivity)
                      |reflexivity]|discriminate]).
  - repeat first [apply Forall_nil_2 | apply Forall_cons_2]; discriminate.
  - exists m. split; [exact Hm|]. split; [|exact Hg].
    rewrite Hg. vm_compute. reflexivity.
Defined.

(** ** The syntax errors and the end of the parse *)















Section SyntaxErrors.
Context `{FloatParser}.




End SyntaxErrors.

